(** * Wedding media collector: a shallow embedding of [server.js]

    The development follows the source file from top to bottom: the
    JavaScript and Node built-ins the server relies on ([JS]), the numeric
    configuration, the SQLite tables and the upload directory, and then the
    request handlers.  Properties of the handlers are proved afterwards.

    Modelling conventions.
    - A JavaScript string is a [string]; a character is a code unit below
      256, so the white space class and the case mapping are the ECMAScript
      ones restricted to that range.
    - Counts, limits and identifiers are integers ([Z] or [N]); a
      JavaScript number may fail to be one where it is read from a text,
      in the environment or in a route parameter, which produces a
      [JS.number]: NaN, an infinity or a double.
    - A handler is a function from the request and the server state (the
      database and the file system) to a response and the next state.  A
      [throw] is a value of [Thrown], carrying the state reached when the
      exception left the [try] block. *)

From Stdlib Require Import ZArith NArith List Bool Lia.
From Stdlib Require Import Strings.String Strings.Ascii Numbers.DecimalString.
From Stdlib Require Import Numbers.DecimalN Sorting.Permutation Sorting.Sorted.
From Stdlib Require Import QArith.
Import ListNotations.

Open Scope string_scope.
Open Scope Z_scope.

(** ** JavaScript and Node built-ins *)

Module JS.

(** [WhiteSpace] and [LineTerminator] code units below 256: TAB, LF, VT, FF,
    CR, SP and NBSP.  Both [String.prototype.trim] and the regular
    expression class [\s] use this set. *)
Definition isWhiteSpace (c : ascii) : bool :=
  match nat_of_ascii c with
  | 9%nat | 10%nat | 11%nat | 12%nat | 13%nat | 32%nat | 160%nat => true
  | _ => false
  end.

Fixpoint trimStart (s : string) : string :=
  match s with
  | EmptyString => EmptyString
  | String c r => if isWhiteSpace c then trimStart r else s
  end.

Fixpoint trimEnd (s : string) : string :=
  match s with
  | EmptyString => EmptyString
  | String c r =>
      match trimEnd r with
      | EmptyString => if isWhiteSpace c then EmptyString else String c EmptyString
      | r' => String c r'
      end
  end.

(** [String.prototype.trim] *)
Definition trim (s : string) : string := trimEnd (trimStart s).

(** [String.prototype.toLowerCase] on code units below 256: A-Z and the
    Latin-1 capitals (all of 192..222 but the multiplication sign). *)
Definition lowerChar (c : ascii) : ascii :=
  let n := nat_of_ascii c in
  if ((65 <=? n)%nat && (n <=? 90)%nat)
     || ((192 <=? n)%nat && (n <=? 222)%nat && negb (n =? 215)%nat)
  then ascii_of_nat (n + 32) else c.

Fixpoint toLowerCase (s : string) : string :=
  match s with
  | EmptyString => EmptyString
  | String c r => String (lowerChar c) (toLowerCase r)
  end.

(** [s.replace(/[...]/g, by)] for a character class given as a predicate:
    every matching character is replaced. *)
Fixpoint replaceClass (cls : ascii -> bool) (by_ : ascii) (s : string) : string :=
  match s with
  | EmptyString => EmptyString
  | String c r => String (if cls c then by_ else c) (replaceClass cls by_ r)
  end.

(** [s.replace(/\s+/g, ' ')]: scanning from the left, every maximal run of
    white space becomes one space.  [inRun] tells that the previous
    character belonged to the run being replaced. *)
Fixpoint collapseRuns (inRun : bool) (s : string) : string :=
  match s with
  | EmptyString => EmptyString
  | String c r =>
      if isWhiteSpace c
      then (if inRun then collapseRuns true r else String " " (collapseRuns true r))
      else String c (collapseRuns false r)
  end.

Definition collapseWhiteSpace (s : string) : string := collapseRuns false s.

(** [String(n)] for a non-negative integer below 10^21: its decimal digits. *)
Definition stringOfN (n : N) : string := NilEmpty.string_of_uint (N.to_uint n).

(** [String(z)] for an integer. *)
Definition stringOfZ (z : Z) : string :=
  if z <? 0 then "-" ++ stringOfN (Z.to_N (- z)) else stringOfN (Z.to_N z).

Fixpoint repeatChar (c : ascii) (n : nat) : string :=
  match n with
  | O => EmptyString
  | S k => String c (repeatChar c k)
  end.

(** [s.padStart(targetLength, c)] with a one-character filler. *)
Definition padStart (s : string) (targetLength : nat) (c : ascii) : string :=
  repeatChar c (targetLength - String.length s) ++ s.

(** [a || b] on strings: the empty string is falsy. *)
Definition orElse (a b : string) : string :=
  match a with
  | EmptyString => b
  | _ => a
  end.

(** Relative index of [Array.prototype.slice]: negative indices count from
    the end, and the result is clamped to [0, len]. *)
Definition relIndex (len i : Z) : Z :=
  if i <? 0 then Z.max (len + i) 0 else Z.min i len.

(** [xs.slice(start, end)] *)
Definition sliceFromTo {A} (xs : list A) (start stop : Z) : list A :=
  let len := Z.of_nat (List.length xs) in
  let k := relIndex len start in
  let final := relIndex len stop in
  firstn (Z.to_nat (Z.max (final - k) 0)) (skipn (Z.to_nat k) xs).

(** [xs.slice(start)] *)
Definition sliceFrom {A} (xs : list A) (start : Z) : list A :=
  sliceFromTo xs start (Z.of_nat (List.length xs)).

(** *** Numbers read from strings

    [Number(s)] follows StringToNumber: surrounding white space is dropped,
    the empty string is 0, and the rest must be a StrNumericLiteral as a
    whole; anything else is NaN.  The value of the literal is rounded to
    binary64, so a [Finite q] always holds a rational that is a double;
    the sign of a zero is not kept. *)

Inductive number : Type :=
| NaN
| Infinity (negative : bool)
| Finite (q : Q).

Definition ofZ (z : Z) : number := Finite (z # 1).

(** [Number.MAX_SAFE_INTEGER], 2^53 - 1. *)
Definition MAX_SAFE_INTEGER : N := 9007199254740991.

(** [num / den] rounded to the nearest integer, a tie going to the even
    one. *)
Definition roundHalfEven (num den : Z) : Z :=
  let k := num / den in
  match 2 * (num mod den) ?= den with
  | Lt => k
  | Gt => k + 1
  | Eq => if Z.even k then k else k + 1
  end.

(** [a / b < 2 ^ e] *)
Definition belowPow2 (a b e : Z) : bool :=
  if 0 <=? e then a <? b * 2 ^ e else a * 2 ^ (- e) <? b.

(** The binary exponent of [a / b]: the [e] with [2^e <= a / b < 2^(e+1)]. *)
Definition exponentOf (a b : Z) : Z :=
  let e := Z.log2 a - Z.log2 b in
  if belowPow2 a b e then e - 1 else e.

(** The double nearest to [a / b], for positive [a] and [b]: 53 bits of
    significand, the last place never below 2^-1074 (subnormals), a tie
    going to the even significand, and infinity from 2^1024 on. *)
Definition roundPositive (a b : Z) : number :=
  let u := Z.max (exponentOf a b - 52) (- 1074) in
  if 0 <=? u then
    let m := roundHalfEven a (b * 2 ^ u) in
    if 2 ^ 1024 <=? m * 2 ^ u then Infinity false else Finite ((m * 2 ^ u) # 1)
  else
    Finite (Qred (roundHalfEven (a * 2 ^ (- u)) b # Z.to_pos (2 ^ (- u)))).

Definition negate (x : number) : number :=
  match x with
  | NaN => NaN
  | Infinity negative => Infinity (negb negative)
  | Finite q => Finite (Qred (- q))
  end.

(** The Number value for a mathematical value. *)
Definition roundToDouble (q : Q) : number :=
  match Qnum q with
  | Z0 => ofZ 0
  | Zpos a => roundPositive (Zpos a) (Zpos (Qden q))
  | Zneg a => negate (roundPositive (Zpos a) (Zpos (Qden q)))
  end.

Definition digitValue (base : N) (c : ascii) : option N :=
  let n := N_of_ascii c in
  let v :=
    if ((48 <=? n) && (n <=? 57))%N then Some (n - 48)%N
    else if ((97 <=? n) && (n <=? 102))%N then Some (n - 87)%N
    else if ((65 <=? n) && (n <=? 70))%N then Some (n - 55)%N
    else None in
  match v with
  | Some d => if (d <? base)%N then Some d else None
  | None => None
  end.

(** Reads the longest prefix of digits in [base]: the accumulated value,
    the number of digits read and the remaining input. *)
Fixpoint readDigits (base acc : N) (count : nat) (s : string) : N * nat * string :=
  match s with
  | EmptyString => (acc, count, s)
  | String c r =>
      match digitValue base c with
      | Some d => readDigits base (base * acc + d)%N (S count) r
      | None => (acc, count, s)
      end
  end.

(** [m * 10^e] as a reduced fraction. *)
Definition scale10 (m e : Z) : Q :=
  Qred (if 0 <=? e then (m * 10 ^ e) # 1 else m # Z.to_pos (10 ^ (- e))).

Definition readSign (s : string) : bool * string :=
  match s with
  | String "+" r => (false, r)
  | String "-" r => (true, r)
  | _ => (false, s)
  end.

(** ExponentPart, or nothing; the input must be used up. *)
Definition readExponent (s : string) : option Z :=
  match s with
  | EmptyString => Some 0
  | String c r =>
      if (Ascii.eqb c "e" || Ascii.eqb c "E")%bool then
        let '(neg, r1) := readSign r in
        match readDigits 10 0 0 r1 with
        | (_, O, _) => None
        | (e, _, EmptyString) => Some (if neg then - Z.of_N e else Z.of_N e)
        | _ => None
        end
      else None
  end.

(** StrUnsignedDecimalLiteral other than [Infinity]. *)
Definition readUnsignedDecimal (s : string) : option Q :=
  let '(m1, n1, r1) := readDigits 10 0 0 s in
  let '(m, n2, r2) :=
    match r1 with
    | String "." r => readDigits 10 m1 0 r
    | _ => (m1, O, r1)
    end in
  match (n1 + n2)%nat with
  | O => None
  | _ =>
      match readExponent r2 with
      | Some e => Some (scale10 (Z.of_N m) (e - Z.of_nat n2))
      | None => None
      end
  end.

(** NonDecimalIntegerLiteral: [0x], [0o] and [0b] prefixes, unsigned. *)
Definition readNonDecimal (s : string) : option Q :=
  match s with
  | String "0" (String p r) =>
      let base :=
        if (Ascii.eqb p "x" || Ascii.eqb p "X")%bool then Some 16%N
        else if (Ascii.eqb p "o" || Ascii.eqb p "O")%bool then Some 8%N
        else if (Ascii.eqb p "b" || Ascii.eqb p "B")%bool then Some 2%N
        else None in
      match base with
      | Some b =>
          match readDigits b 0 0 r with
          | (_, O, _) => None
          | (v, _, EmptyString) => Some (Z.of_N v # 1)
          | _ => None
          end
      | None => None
      end
  | _ => None
  end.

(** [Number(s)] for a string [s]. *)
Definition numberOfString (s : string) : number :=
  match trim s with
  | EmptyString => ofZ 0
  | t =>
      match readNonDecimal t with
      | Some q => roundToDouble q
      | None =>
          let '(neg, u) := readSign t in
          if String.eqb u "Infinity" then Infinity neg
          else
            match readUnsignedDecimal u with
            | Some q => if neg then negate (roundToDouble q) else roundToDouble q
            | None => NaN
            end
      end
  end.

(** The integer a number denotes, when it denotes one. *)
Definition integerOf (x : number) : option Z :=
  match x with
  | Finite q => if (Qden q =? 1)%positive then Some (Qnum q) else None
  | _ => None
  end.

(** *** [path.extname] (POSIX)

    The loop of Node's [path.posix.extname]: the path is scanned from its
    last character; [-1] marks a position not found yet. *)

Record ExtScan : Type := mkExtScan {
  startDot : Z;
  startPart : Z;
  endPos : Z;
  matchedSlash : bool;
  preDotState : Z
}.

Definition extScanInit : ExtScan := mkExtScan (-1) 0 (-1) true 0.

(** One iteration at index [i] on the character [code]; [inl] is [break]. *)
Definition extScanStep (i : Z) (code : ascii) (st : ExtScan) : ExtScan + ExtScan :=
  if Ascii.eqb code "/" then
    if negb (matchedSlash st)
    then inl (mkExtScan (startDot st) (i + 1) (endPos st) (matchedSlash st) (preDotState st))
    else inr st
  else
    let st1 :=
      if endPos st =? -1
      then mkExtScan (startDot st) (startPart st) (i + 1) false (preDotState st)
      else st in
    if Ascii.eqb code "." then
      if startDot st1 =? -1
      then inr (mkExtScan i (startPart st1) (endPos st1) (matchedSlash st1) (preDotState st1))
      else if negb (preDotState st1 =? 1)
      then inr (mkExtScan (startDot st1) (startPart st1) (endPos st1) (matchedSlash st1) 1)
      else inr st1
    else if negb (startDot st1 =? -1)
    then inr (mkExtScan (startDot st1) (startPart st1) (endPos st1) (matchedSlash st1) (-1))
    else inr st1.

(** The [for] loop, [n] being the number of characters still to visit
    (the next index is [n - 1]). *)
Fixpoint extScanLoop (path : string) (n : nat) (st : ExtScan) : ExtScan :=
  match n with
  | O => st
  | S i =>
      match String.get i path with
      | Some code =>
          match extScanStep (Z.of_nat i) code st with
          | inl st' => st'
          | inr st' => extScanLoop path i st'
          end
      | None => st
      end
  end.

Definition extname (path : string) : string :=
  let st := extScanLoop path (String.length path) extScanInit in
  if (startDot st =? -1) || (endPos st =? -1) || (preDotState st =? 0)
     || ((preDotState st =? 1) && (startDot st =? endPos st - 1)
         && (startDot st =? startPart st + 1))
  then EmptyString
  else substring (Z.to_nat (startDot st)) (Z.to_nat (endPos st - startDot st)) path.

End JS.

(** ** server.js: configuration *)

(** [process.env]: a variable is absent or holds a string. *)
Definition Env : Type := string -> option string.

(** [Number(process.env.X || dflt)]: an absent variable is [undefined] and
    an empty one is the empty string, both falsy. *)
Definition envNumber (v : option string) (dflt : Z) : JS.number :=
  match v with
  | None => JS.ofZ dflt
  | Some EmptyString => JS.ofZ dflt
  | Some s => JS.numberOfString s
  end.

Definition MAX_PHOTOS_PER_PERSON : Z := 10.
Definition MAX_TOTAL_PHOTOS : Z := 600.

Definition MAX_VIDEOS_PER_PERSON (env : Env) : JS.number :=
  envNumber (env "MAX_VIDEOS_PER_PERSON") 10.
Definition MAX_TOTAL_VIDEOS (env : Env) : JS.number :=
  envNumber (env "MAX_TOTAL_VIDEOS") 400.
Definition MAX_VIDEO_SIZE_MB (env : Env) : JS.number :=
  envNumber (env "MAX_VIDEO_SIZE_MB") 1200.

(** The video limits once they are known to be integers; the handlers are
    stated for such a configuration. *)
Record Limits : Type := mkLimits {
  videosPerPerson : Z;
  totalVideos : Z
}.

Definition limitsOfEnv (env : Env) : option Limits :=
  match JS.integerOf (MAX_VIDEOS_PER_PERSON env), JS.integerOf (MAX_TOTAL_VIDEOS env) with
  | Some p, Some t => Some (mkLimits p t)
  | _, _ => None
  end.

(** ** server.js: file names *)

(** [storageFilename]: [now] is [Date.now()] and [random] is
    [Math.round(Math.random() * 1e9)]. *)
Definition storageFilename (now random : N) (originalname : string) : string :=
  let extension := JS.extname originalname in
  let unique := JS.stringOfN now ++ "-" ++ JS.stringOfN random in
  unique ++ extension.

(** The character class of the first [replace] in
    [sanitizeArchiveFilename], by character code: slash, backslash,
    question mark, percent, star, colon, bar, double quote, less-than and
    greater-than. *)
Definition isPathUnsafe (c : ascii) : bool :=
  match nat_of_ascii c with
  | 47%nat | 92%nat | 63%nat | 37%nat | 42%nat | 58%nat | 124%nat
  | 34%nat | 60%nat | 62%nat => true
  | _ => false
  end.

Definition sanitizeArchiveFilename (name : string) : string :=
  JS.trim (JS.collapseWhiteSpace (JS.replaceClass isPathUnsafe "-" name)).

(** ** server.js: the database

    The three tables of the schema.  A table is the list of its rows in
    insertion order; [*_seq] is the AUTOINCREMENT counter of the table (the
    largest row id handed out so far).  Time stamps are seconds, which
    order like the text CURRENT_TIMESTAMP produces. *)

Record Uploader : Type := mkUploader {
  u_id : N;
  u_name : string;
  u_normalized_name : string;
  u_created_at : N
}.

Record Media : Type := mkMedia {
  m_id : N;
  m_uploader_id : N;
  m_filename : string;
  m_original_name : string;
  m_mime_type : string;
  m_size : Z;
  m_uploaded_at : N
}.

Record Database : Type := mkDatabase {
  uploaders : list Uploader;
  uploaders_seq : N;
  photos : list Media;
  photos_seq : N;
  videos : list Media;
  videos_seq : N
}.

(** The photo and the video routes are written twice in the source, with
    the same statements on the two media tables; [Kind] selects the table,
    the limits and the wording. *)
Inductive Kind : Type := Photo | Video.

Definition otherKind (k : Kind) : Kind :=
  match k with Photo => Video | Video => Photo end.

Definition table (k : Kind) (d : Database) : list Media :=
  match k with Photo => photos d | Video => videos d end.

Definition table_seq (k : Kind) (d : Database) : N :=
  match k with Photo => photos_seq d | Video => videos_seq d end.

Definition setTable (k : Kind) (rows : list Media) (seq : N) (d : Database) : Database :=
  match k with
  | Photo => mkDatabase (uploaders d) (uploaders_seq d) rows seq (videos d) (videos_seq d)
  | Video => mkDatabase (uploaders d) (uploaders_seq d) (photos d) (photos_seq d) rows seq
  end.

Definition setUploaders (us : list Uploader) (seq : N) (d : Database) : Database :=
  mkDatabase us seq (photos d) (photos_seq d) (videos d) (videos_seq d).

(** A statement or a block either returns or throws an [Error] with a
    message. *)
Inductive Outcome (A : Type) : Type :=
| Returned (a : A)
| Thrown (message : string).
Arguments Returned {A} a.
Arguments Thrown {A} message.

(** The file object multer hands to a route. *)
Record UploadedFile : Type := mkUploadedFile {
  f_path : string;
  f_filename : string;
  f_originalname : string;
  f_mimetype : string;
  f_size : Z
}.

(** What [SELECT id, name, normalized_name FROM uploaders] returns, and what
    [getOrCreateUploader] builds after an insert. *)
Record UploaderRef : Type := mkUploaderRef {
  r_id : N;
  r_name : string;
  r_normalized_name : string
}.

Definition refOf (u : Uploader) : UploaderRef :=
  mkUploaderRef (u_id u) (u_name u) (u_normalized_name u).

Definition normalizeName (name : string) : string :=
  JS.toLowerCase (JS.trim name).

(** [SELECT ... FROM uploaders WHERE normalized_name = ?] with [.get]. *)
Definition selectUploader (normalized : string) (d : Database) : option Uploader :=
  find (fun u => String.eqb (u_normalized_name u) normalized) (uploaders d).

(** [SELECT COUNT( * ) FROM <table> WHERE uploader_id = ?] *)
Definition countByUploader (k : Kind) (uploaderId : N) (d : Database) : Z :=
  Z.of_nat (List.length (filter (fun m => N.eqb (m_uploader_id m) uploaderId) (table k d))).

(** [SELECT COUNT( * ) FROM <table>] *)
Definition countAll (k : Kind) (d : Database) : Z :=
  Z.of_nat (List.length (table k d)).

Definition getUploaderPhotoCount := countByUploader Photo.
Definition getTotalPhotoCount := countAll Photo.
Definition getUploaderVideoCount := countByUploader Video.
Definition getTotalVideoCount := countAll Video.

(** [SELECT ... FROM <table> WHERE id = ?] with [.get]. *)
Definition selectMedia (k : Kind) (id : N) (d : Database) : option Media :=
  find (fun m => N.eqb (m_id m) id) (table k d).

(** [DELETE FROM <table> WHERE id = ?] *)
Definition deleteMedia (k : Kind) (id : N) (d : Database) : Database :=
  setTable k (filter (fun m => negb (N.eqb (m_id m) id)) (table k d)) (table_seq k d) d.

(** [DELETE FROM <table>] *)
Definition deleteAllMedia (k : Kind) (d : Database) : Database :=
  setTable k [] (table_seq k d) d.

(** [ORDER BY uploaded_at DESC, id DESC]: [comesBefore a b] when [a] is
    listed before [b]. *)
Definition comesBefore (a b : Media) : bool :=
  (m_uploaded_at b <? m_uploaded_at a)%N
  || ((m_uploaded_at a =? m_uploaded_at b)%N && (m_id b <? m_id a)%N).

Fixpoint insertSorted (a : Media) (l : list Media) : list Media :=
  match l with
  | [] => [a]
  | b :: r => if comesBefore b a then b :: insertSorted a r else a :: l
  end.

Definition newestFirst (rows : list Media) : list Media :=
  fold_right insertSorted [] rows.

(** [cleanupOrphanUploaders]: the rows of [uploaders] whose id occurs in
    neither media table are deleted. *)
Definition hasMedia (d : Database) (uploaderId : N) : bool :=
  existsb (N.eqb uploaderId) (map m_uploader_id (photos d) ++ map m_uploader_id (videos d)).

Definition cleanupOrphanUploaders (d : Database) : Database :=
  setUploaders (filter (fun u => hasMedia d (u_id u)) (uploaders d)) (uploaders_seq d) d.

(** ** server.js: the file system

    The paths of the regular files and of the directories that exist.
    [path.join dir name] is written for a [name] that is one path
    segment.  Removing a file or a directory that exists succeeds; the
    failures [safeUnlink] and [safeRemoveDir] swallow are those of removing
    what is not there. *)

Record FileSystem : Type := mkFileSystem {
  files : list string;
  dirs : list string
}.

Definition pathJoin (dir name : string) : string := dir ++ "/" ++ name.

Definition existsSync (p : string) (fs : FileSystem) : bool :=
  existsb (String.eqb p) (files fs) || existsb (String.eqb p) (dirs fs).

Definition removePath (p : string) (l : list string) : list string :=
  filter (fun q => negb (String.eqb q p)) l.

(** [safeUnlink]: [fs.unlinkSync] removes a regular file; any failure (no
    such file, a directory) is swallowed. *)
Definition safeUnlink (filePath : string) (fs : FileSystem) : FileSystem :=
  mkFileSystem (removePath filePath (files fs)) (dirs fs).

Definition isUnder (dir p : string) : bool := String.prefix (dir ++ "/") p.

(** [safeRemoveDir]: [fs.rmSync(dir, { recursive: true, force: true })]. *)
Definition safeRemoveDir (dirPath : string) (fs : FileSystem) : FileSystem :=
  let gone p := String.eqb p dirPath || isUnder dirPath p in
  mkFileSystem (filter (fun p => negb (gone p)) (files fs))
               (filter (fun p => negb (gone p)) (dirs fs)).

(** [fs.mkdtempSync]: the directory name it picked is [dir]. *)
Definition mkdtempSync (dir : string) (fs : FileSystem) : FileSystem :=
  mkFileSystem (files fs) (dir :: dirs fs).

Definition writeFile (p : string) (fs : FileSystem) : FileSystem :=
  mkFileSystem (p :: removePath p (files fs)) (dirs fs).

(** How an operation that writes one file may end: it succeeds, or it
    throws, having left a partial file behind or not. *)
Inductive IOResult : Type :=
| IoDone
| IoFailed (message : string) (leavesFile : bool).

Definition writeWith (r : IOResult) (p : string) (fs : FileSystem) : Outcome unit * FileSystem :=
  match r with
  | IoDone => (Returned tt, writeFile p fs)
  | IoFailed msg true => (Thrown msg, writeFile p fs)
  | IoFailed msg false => (Thrown msg, fs)
  end.

Record State : Type := mkState {
  db : Database;
  fs : FileSystem
}.

Inductive Response : Type :=
| RedirectError (page : string) (error : string)
| RedirectMessage (page : string) (message : string)
| Download (archive : string) (fileName : string) (entries : list string).

(** ** server.js: the routes *)

Record UploadRequest : Type := mkUploadRequest {
  body_name : option string;
  req_files : list UploadedFile
}.

(** What the admission step of an upload route decides: the whole batch is
    turned down with a reason, or a prefix of it is kept. *)
Inductive Admission : Type :=
| RejectAll (reason : string)
| Accept (acceptedFiles rejectedFiles : list UploadedFile).

(** What the archive export reads from its surroundings: the directory
    [fs.mkdtempSync] created, the archive path built from [Date.now()], the
    date stamp of the download name, and how each copy and the [zip]
    process end. *)
Record ExportEnv : Type := mkExportEnv {
  tempDir : string;
  archivePath : string;
  stamp : string;
  copyResult : string -> string -> IOResult;
  zipResult : IOResult
}.

Definition noun (k : Kind) : string :=
  match k with Photo => "photo" | Video => "video" end.

Definition Noun (k : Kind) : string :=
  match k with Photo => "Photo" | Video => "Video" end.

Definition uploadPage (k : Kind) : string :=
  match k with Photo => "/?tab=photos" | Video => "/?tab=videos" end.

Definition adminPage (k : Kind) : string :=
  match k with Photo => "/admin/photos" | Video => "/admin/videos" end.

Definition plural (n : nat) (one many : string) : string :=
  if (n =? 1)%nat then one else many.

Section Routes.

(** The integer video limits, the upload directory, the time of the
    request, and the failures of [INSERT] into a media table that the
    schema or the disk may cause (a message when the statement throws on
    the given table contents and file). *)
Variable limits : Limits.
Variable uploadDir : string.
Variable now : N.
Variable insertFault : Kind -> list Media -> UploadedFile -> option string.

Definition perPersonLimit (k : Kind) : Z :=
  match k with Photo => MAX_PHOTOS_PER_PERSON | Video => videosPerPerson limits end.

Definition globalLimit (k : Kind) : Z :=
  match k with Photo => MAX_TOTAL_PHOTOS | Video => totalVideos limits end.

Definition galleryFull (k : Kind) : string :=
  match k with
  | Photo => "Upload limit reached: this gallery is full."
  | Video => "Video upload limit reached: this gallery is full."
  end.

Definition perPersonReached (k : Kind) : string :=
  match k with
  | Photo => "You have already uploaded your maximum of 10 photos."
  | Video => "You have already uploaded your maximum of "
             ++ JS.stringOfZ (videosPerPerson limits) ++ " videos."
  end.

(** [INSERT INTO uploaders (name, normalized_name) VALUES (?, ?)]; the
    column [normalized_name] is UNIQUE. *)
Definition insertUploader (name normalized : string) (d : Database) : Outcome N * Database :=
  if existsb (fun u => String.eqb (u_normalized_name u) normalized) (uploaders d)
  then (Thrown "UNIQUE constraint failed: uploaders.normalized_name", d)
  else
    let id := (uploaders_seq d + 1)%N in
    (Returned id, setUploaders (uploaders d ++ [mkUploader id name normalized now]) id d).

Definition getOrCreateUploader (name : string) (d : Database) : Outcome UploaderRef * Database :=
  let normalized := normalizeName name in
  match selectUploader normalized d with
  | Some uploader => (Returned (refOf uploader), d)
  | None =>
      match insertUploader (JS.trim name) normalized d with
      | (Returned id, d') => (Returned (mkUploaderRef id (JS.trim name) normalized), d')
      | (Thrown e, d') => (Thrown e, d')
      end
  end.

(** [insertPhoto.run(...)] and [insertVideo.run(...)] *)
Definition insertMedia (k : Kind) (uploaderId : N) (file : UploadedFile) (d : Database)
  : Outcome unit * Database :=
  match insertFault k (table k d) file with
  | Some e => (Thrown e, d)
  | None =>
      let id := (table_seq k d + 1)%N in
      (Returned tt,
       setTable k
         (table k d ++ [mkMedia id uploaderId (f_filename file) (f_originalname file)
                                (f_mimetype file) (f_size file) now])
         id d)
  end.

(** The body of the transaction: [for (const file of files) insert.run(...)]. *)
Fixpoint insertEach (k : Kind) (uploaderId : N) (files : list UploadedFile) (d : Database)
  : Outcome unit * Database :=
  match files with
  | [] => (Returned tt, d)
  | file :: rest =>
      match insertMedia k uploaderId file d with
      | (Returned _, d') => insertEach k uploaderId rest d'
      | (Thrown e, d') => (Thrown e, d')
      end
  end.

(** [db.transaction(fn)(files)]: BEGIN, the body, then COMMIT; when the
    body throws, ROLLBACK restores the database as it was at BEGIN and the
    exception is thrown again. *)
Definition transaction (k : Kind) (uploaderId : N) (files : list UploadedFile) (d : Database)
  : Outcome unit * Database :=
  let snapshot := d in
  match insertEach k uploaderId files d with
  | (Returned _, d') => (Returned tt, d')
  | (Thrown e, _) => (Thrown e, snapshot)
  end.

(** [files.forEach((f) => safeUnlink(f.path))] *)
Definition unlinkEach (files : list UploadedFile) (s : FileSystem) : FileSystem :=
  fold_left (fun acc f => safeUnlink (f_path f) acc) files s.

(** The admission step of both upload routes. *)
Definition decideAdmission (k : Kind) (uploaderCount totalCount : Z) (uploadedFiles : list UploadedFile)
  : Admission :=
  let remainingForUploader := Z.max 0 (perPersonLimit k - uploaderCount) in
  let remainingGlobal := Z.max 0 (globalLimit k - totalCount) in
  let allowedNow := Z.min remainingForUploader remainingGlobal in
  if allowedNow <=? 0 then
    RejectAll (if remainingGlobal <=? 0 then galleryFull k else perPersonReached k)
  else
    Accept (JS.sliceFromTo uploadedFiles 0 allowedNow) (JS.sliceFrom uploadedFiles allowedNow).

Definition thanks (k : Kind) (uploaderName : string) (uploadedCount limitedCount : nat) : string :=
  let message :=
    "Thanks " ++ uploaderName ++ "! Uploaded " ++ JS.stringOfN (N.of_nat uploadedCount)
    ++ " " ++ noun k ++ plural uploadedCount "" "s" ++ "." in
  if (0 <? limitedCount)%nat then
    message ++ " " ++ JS.stringOfN (N.of_nat limitedCount) ++ " " ++ noun k
    ++ plural limitedCount " was" "s were" ++ " skipped due to upload limits."
  else message.

(** The [try] block of an upload route, after the two validations. *)
Definition uploadTry (k : Kind) (name : string) (uploadedFiles : list UploadedFile) (st : State)
  : Outcome Response * State :=
  match getOrCreateUploader name (db st) with
  | (Thrown e, d1) => (Thrown e, mkState d1 (fs st))
  | (Returned uploader, d1) =>
      let uploaderCount := countByUploader k (r_id uploader) d1 in
      let totalCount := countAll k d1 in
      match decideAdmission k uploaderCount totalCount uploadedFiles with
      | RejectAll reason =>
          (Returned (RedirectError (uploadPage k) reason),
           mkState d1 (unlinkEach uploadedFiles (fs st)))
      | Accept acceptedFiles rejectedFiles =>
          let s1 := unlinkEach rejectedFiles (fs st) in
          match transaction k (r_id uploader) acceptedFiles d1 with
          | (Thrown e, d2) => (Thrown e, mkState d2 s1)
          | (Returned _, d2) =>
              (Returned (RedirectMessage (uploadPage k)
                           (thanks k (r_name uploader)
                              (List.length acceptedFiles) (List.length rejectedFiles))),
               mkState d2 s1)
          end
      end
  end.

(** [app.post('/upload', ...)] and [app.post('/upload/videos', ...)] *)
Definition uploadRoute (k : Kind) (req : UploadRequest) (st : State) : Response * State :=
  let uploadedFiles := req_files req in
  let name := JS.trim (match body_name req with Some n => JS.orElse n "" | None => "" end) in
  if String.eqb name "" then
    (RedirectError (uploadPage k) "Please provide your name.",
     mkState (db st) (unlinkEach uploadedFiles (fs st)))
  else if (List.length uploadedFiles =? 0)%nat then
    (RedirectError (uploadPage k) ("Please select at least one " ++ noun k ++ "."), st)
  else
    match uploadTry k name uploadedFiles st with
    | (Returned response, st') => (response, st')
    | (Thrown e, st') =>
        (RedirectError (uploadPage k) (JS.orElse e "Upload failed."),
         mkState (db st') (unlinkEach uploadedFiles (fs st')))
    end.

Definition postUpload := uploadRoute Photo.
Definition postUploadVideos := uploadRoute Video.

(** The row id a route parameter converted by [Number] can match. *)
Definition rowIdOf (id : JS.number) : option N :=
  match JS.integerOf id with
  | Some z => if 0 <=? z then Some (Z.to_N z) else None
  | None => None
  end.

(** [app.post('/admin/photo/:id/delete', ...)] and the video route. *)
Definition deleteRoute (k : Kind) (idParam : string) (st : State) : Response * State :=
  let id := JS.numberOfString idParam in
  match id with
  | JS.NaN => (RedirectError (adminPage k) ("Invalid " ++ noun k ++ " ID."), st)
  | _ =>
      match rowIdOf id with
      | None => (RedirectError (adminPage k) (Noun k ++ " not found."), st)
      | Some n =>
          match selectMedia k n (db st) with
          | None => (RedirectError (adminPage k) (Noun k ++ " not found."), st)
          | Some item =>
              let d1 := deleteMedia k n (db st) in
              let s1 := safeUnlink (pathJoin uploadDir (m_filename item)) (fs st) in
              let d2 := cleanupOrphanUploaders d1 in
              (RedirectMessage (adminPage k) (Noun k ++ " deleted."), mkState d2 s1)
          end
      end
  end.

(** [app.post('/admin/photos/delete-all', ...)] and the video route. *)
Definition deleteAllRoute (k : Kind) (st : State) : Response * State :=
  let items := table k (db st) in
  let s1 := fold_left (fun acc item => safeUnlink (pathJoin uploadDir (m_filename item)) acc)
                      items (fs st) in
  let d1 := deleteAllMedia k (db st) in
  let d2 := cleanupOrphanUploaders d1 in
  (RedirectMessage (adminPage k) ("All " ++ noun k ++ "s deleted."), mkState d2 s1).

(** The name a record is staged under in the scratch directory. *)
Definition stagedName (k : Kind) (item : Media) : string :=
  let fallbackName :=
    noun k ++ "-" ++ JS.stringOfN (m_id item) ++ JS.orElse (JS.extname (m_filename item)) "" in
  JS.padStart (JS.stringOfN (m_id item)) 4 "0" ++ "-"
  ++ sanitizeArchiveFilename (JS.orElse (m_original_name item) fallbackName).

(** The copy loop of the export: records whose file is missing are
    skipped. *)
Fixpoint copyPass (k : Kind) (env : ExportEnv) (items : list Media) (copiedCount : nat)
    (s : FileSystem) : Outcome nat * FileSystem :=
  match items with
  | [] => (Returned copiedCount, s)
  | item :: rest =>
      let sourcePath := pathJoin uploadDir (m_filename item) in
      if negb (existsSync sourcePath s) then copyPass k env rest copiedCount s
      else
        let target := pathJoin (tempDir env) (stagedName k item) in
        match writeWith (copyResult env sourcePath target) target s with
        | (Returned _, s') => copyPass k env rest (S copiedCount) s'
        | (Thrown e, s') => (Thrown e, s')
        end
  end.

(** The files below [dir]. *)
Definition listDir (dir : string) (s : FileSystem) : list string :=
  filter (isUnder dir) (files s).

(** The [try] block of the export.  On success the response is sent by
    [res.download], whose callback removes the archive and the scratch
    directory once the transfer is over. *)
Definition exportTry (k : Kind) (env : ExportEnv) (items : list Media) (s : FileSystem)
  : Outcome Response * FileSystem :=
  match copyPass k env items 0 s with
  | (Thrown e, s1) => (Thrown e, s1)
  | (Returned copiedCount, s1) =>
      if (copiedCount =? 0)%nat then
        (Returned (RedirectError (adminPage k) (Noun k ++ " files are missing on disk.")),
         safeUnlink (archivePath env) (safeRemoveDir (tempDir env) s1))
      else
        match writeWith (zipResult env) (archivePath env) s1 with
        | (Thrown e, s2) => (Thrown e, s2)
        | (Returned _, s2) =>
            (Returned (Download (archivePath env)
                         ("dan-abi-wedding-" ++ noun k ++ "s-" ++ stamp env ++ ".zip")
                         (listDir (tempDir env) s1)),
             safeRemoveDir (tempDir env) (safeUnlink (archivePath env) s2))
        end
  end.

(** [app.get('/admin/photos/download', ...)] and the video route. *)
Definition downloadRoute (k : Kind) (env : ExportEnv) (st : State) : Response * State :=
  let items := newestFirst (table k (db st)) in
  if (List.length items =? 0)%nat then
    (RedirectError (adminPage k) ("No " ++ noun k ++ "s to download."), st)
  else
    let s0 := mkdtempSync (tempDir env) (fs st) in
    match exportTry k env items s0 with
    | (Returned response, s') => (response, mkState (db st) s')
    | (Thrown _, s') =>
        (RedirectError (adminPage k) "Could not create ZIP archive on this server.",
         mkState (db st) (safeRemoveDir (tempDir env) (safeUnlink (archivePath env) s')))
    end.

End Routes.

(** ** server.js: the other functions and routes *)

(** [photoFileFilter] and [videoFileFilter] on the declared type of a file:
    [cb(null, true)] returns, [cb(new Error(...))] throws. *)
Definition photoFileFilter (mimetype : string) : Outcome bool :=
  if negb (String.prefix "image/" mimetype)
  then Thrown "Only image files are allowed."
  else Returned true.

Definition videoFileFilter (mimetype : string) : Outcome bool :=
  if negb (String.prefix "video/" mimetype)
  then Thrown "Only video files are allowed."
  else Returned true.

(** [process.env.X || dflt] for a text. *)
Definition envText (v : option string) (dflt : string) : string :=
  match v with
  | Some s => JS.orElse s dflt
  | None => dflt
  end.

(** [s.replace(/\/+$/, '')]: the slashes the text ends with are dropped. *)
Fixpoint stripTrailingSlashes (s : string) : string :=
  match s with
  | EmptyString => EmptyString
  | String c r =>
      match stripTrailingSlashes r with
      | EmptyString => if Ascii.eqb c "/" then EmptyString else String c EmptyString
      | r' => String c r'
      end
  end.

Definition configuredBaseUrl (env : Env) : string :=
  stripTrailingSlashes (JS.trim (envText (env "BASE_URL") "")).

(** [s.split(',')[0]] *)
Fixpoint beforeComma (s : string) : string :=
  match s with
  | EmptyString => EmptyString
  | String c r => if Ascii.eqb c "," then EmptyString else String c (beforeComma r)
  end.

(** What [resolveBaseUrl] reads from a request: three headers and
    [req.protocol]. *)
Record RequestOrigin : Type := mkRequestOrigin {
  h_forwarded_host : option string;
  h_host : option string;
  h_forwarded_proto : option string;
  h_protocol : string
}.

(** [resolveBaseUrl]; [portText] is what the template prints for [port]. *)
Definition resolveBaseUrl (env : Env) (portText : string) (req : RequestOrigin) : string :=
  if negb (String.eqb (configuredBaseUrl env) "") then configuredBaseUrl env
  else
    let forwardedHost := h_forwarded_host req in
    let host :=
      JS.trim (beforeComma
                 (envText forwardedHost (envText (h_host req) ("localhost:" ++ portText)))) in
    let forwardedProto := h_forwarded_proto req in
    let protocol :=
      JS.trim (beforeComma (envText forwardedProto (JS.orElse (h_protocol req) "http"))) in
    protocol ++ "://" ++ host.

(** [req.session]: its [isAdmin] property is unset or holds a boolean. *)
Record Session : Type := mkSession {
  s_isAdmin : option bool
}.

(** [isAdmin], as the truth value of
    [req.session && req.session.isAdmin === true]. *)
Definition isAdmin (session : option Session) : bool :=
  match session with
  | Some s => match s_isAdmin s with Some true => true | _ => false end
  | None => false
  end.

(** The answers of the routes below: a plain redirect, a redirect with a
    flash parameter, a status with a body, the call of [res.sendFile] on a
    path once the two headers are set (the transfer itself is the
    library's), or the login page. *)
Inductive Reply : Type :=
| Redirected (url : string)
| Flashed (response : Response)
| Sent (status : Z) (body : string)
| SentFile (filePath contentType contentDisposition : string)
| RenderedLogin (error : string).

(** [requireAdmin]: [None] stands for the call of [next()]. *)
Definition requireAdmin (session : option Session) : option Reply :=
  if negb (isAdmin session) then Some (Redirected "/admin/login") else None.

(** [app.get('/admin/login', ...)] *)
Definition getAdminLogin (session : option Session) (queryError : option string) : Reply :=
  if isAdmin session then Redirected "/admin/photos"
  else RenderedLogin (envText queryError "").

(** [app.post('/admin/login', ...)] *)
Definition postAdminLogin (env : Env) (bodyUsername bodyPassword : option string)
    (session : Session) : Reply * Session :=
  let username := JS.trim (envText bodyUsername "") in
  let password := JS.trim (envText bodyPassword "") in
  let expectedUsername := envText (env "ADMIN_USERNAME") "admin" in
  let expectedPassword := envText (env "ADMIN_PASSWORD") "change-this-password" in
  if String.eqb username expectedUsername && String.eqb password expectedPassword
  then (Redirected "/admin/photos", mkSession (Some true))
  else (Flashed (RedirectError "/admin/login" "Invalid username or password."), session).

(** [app.post('/admin/logout', ...)]: the session is destroyed. *)
Definition postAdminLogout (session : Session) : Reply * option Session :=
  (Redirected "/admin/login", None).

(** The double quote character. *)
Definition doubleQuote : ascii := ascii_of_nat 34.

(** The [replace] of the Content-Disposition header: every double quote
    of [s] is removed. *)
Fixpoint stripQuotes (s : string) : string :=
  match s with
  | EmptyString => EmptyString
  | String c r => if Ascii.eqb c doubleQuote then stripQuotes r else String c (stripQuotes r)
  end.

(** One line of the admin list: the columns of the joined SELECT. *)
Record MediaItem : Type := mkMediaItem {
  i_id : N;
  i_original_name : string;
  i_mime_type : string;
  i_size : Z;
  i_uploaded_at : N;
  i_uploader_name : string
}.

(** The data [renderAdminMedia] hands to the view. *)
Record AdminView : Type := mkAdminView {
  v_activeTab : string;
  v_mediaItems : list MediaItem;
  v_totalCount : Z;
  v_maxTotal : Z;
  v_maxPerPerson : Z;
  v_maxVideoSizeMb : JS.number;
  v_maxTotalPhotos : Z;
  v_maxTotalVideos : Z;
  v_photoCount : Z;
  v_videoCount : Z;
  v_message : string;
  v_error : string
}.

(** [SELECT ... FROM <table> JOIN uploaders ON uploaders.id = <table>.uploader_id
    ORDER BY <table>.uploaded_at DESC, <table>.id DESC]: every record with
    every uploader row of its [uploader_id]. *)
Definition joinUploaders (k : Kind) (d : Database) : list MediaItem :=
  flat_map
    (fun m =>
       map (fun u => mkMediaItem (m_id m) (m_original_name m) (m_mime_type m) (m_size m)
                                 (m_uploaded_at m) (u_name u))
           (filter (fun u => N.eqb (u_id u) (m_uploader_id m)) (uploaders d)))
    (newestFirst (table k d)).

(** [checkInvalidHeaderChar] of Node's [http] module: a header value may
    hold a tab, the characters from the space to the tilde and those from
    0x80 on; the result is [true] when some other character occurs. *)
Definition validHeaderChar (c : ascii) : bool :=
  let n := N_of_ascii c in
  ((n =? 9) || ((32 <=? n) && (n <=? 126)) || (128 <=? n))%N.

Fixpoint checkInvalidHeaderChar (value : string) : bool :=
  match value with
  | EmptyString => false
  | String c r => negb (validHeaderChar c) || checkInvalidHeaderChar r
  end.

(** [res.setHeader(name, value)] for a string [value]: Node throws
    ERR_INVALID_CHAR on a value with an invalid character. *)
Definition setHeader (name value : string) : Outcome unit :=
  if checkInvalidHeaderChar value
  then Thrown ("Invalid character in header content ["
               ++ String doubleQuote (name ++ String doubleQuote "]"))
  else Returned tt.

(** [uploadTabFromRequest], on [req.path]. *)
Definition uploadTabFromRequest (reqPath : string) : string :=
  if String.eqb reqPath "/upload/videos" then "videos" else "photos".

(** An error that reaches the error middleware: a [MulterError] with its
    code, or any other error with its message. *)
Inductive RouteError : Type :=
| MulterError (code : string)
| OtherError (message : string).

(** What the template literals of the error middleware print for
    [MAX_VIDEO_SIZE_MB] and [MAX_VIDEOS_PER_PERSON]. *)
Record LimitTexts : Type := mkLimitTexts {
  maxVideoSizeText : string;
  videosPerPersonText : string
}.

(** The error middleware, [app.use((err, _req, res, _next) => ...)]; a
    falsy [err] is [None]. *)
Definition errorMiddleware (texts : LimitTexts) (err : option RouteError) (reqPath : string)
    : Reply :=
  match err with
  | Some (MulterError code) =>
      let uploadTab := uploadTabFromRequest reqPath in
      let message :=
        if String.eqb code "LIMIT_FILE_SIZE" then
          if String.eqb uploadTab "videos"
          then "A video file is too large. Max size is " ++ maxVideoSizeText texts
               ++ "MB per video."
          else "A file is too large. Max size is 20MB per photo."
        else if String.eqb code "LIMIT_FILE_COUNT" then
          if String.eqb uploadTab "videos"
          then "You can upload up to " ++ videosPerPersonText texts ++ " videos at a time."
          else "You can upload up to " ++ JS.stringOfZ MAX_PHOTOS_PER_PERSON
               ++ " photos at a time."
        else "Upload error." in
      Flashed (RedirectError ("/?tab=" ++ uploadTab) message)
  | Some (OtherError message) =>
      let uploadTab := uploadTabFromRequest reqPath in
      Flashed (RedirectError ("/?tab=" ++ uploadTab)
                 (JS.orElse message "Unexpected error occurred."))
  | None => Sent 500 "Unexpected server error"
  end.

(** The path of a request for one item.  The route also matches other
    spellings of it (letter case, percent-encoding); none of them is
    [/upload/videos], which is all [uploadTabFromRequest] looks at. *)
Definition viewPath (k : Kind) (idParam : string) : string :=
  "/admin/" ++ noun k ++ "/" ++ idParam.

Section OtherRoutes.

Variable limits : Limits.
Variable maxVideoSizeMb : JS.number.
Variable texts : LimitTexts.
Variable uploadDir : string.

(** [renderAdminMedia]; the tab is [Photo] or [Video]. *)
Definition renderAdminMedia (k : Kind) (queryMessage queryError : option string)
    (d : Database) : AdminView :=
  let photoCount := countAll Photo d in
  let videoCount := countAll Video d in
  let records := joinUploaders k d in
  mkAdminView
    (match k with Photo => "photos" | Video => "videos" end)
    records
    (Z.of_nat (List.length records))
    (globalLimit limits k)
    (perPersonLimit limits k)
    maxVideoSizeMb
    MAX_TOTAL_PHOTOS
    (totalVideos limits)
    photoCount
    videoCount
    (envText queryMessage "")
    (envText queryError "").

(** The handler of [app.get('/admin/photo/:id', ...)] and of the video
    route; it throws when [res.setHeader] does. *)
Definition viewHandler (k : Kind) (idParam : string) (st : State) : Outcome Reply :=
  let id := JS.numberOfString idParam in
  match id with
  | JS.NaN => Returned (Sent 400 ("Invalid " ++ noun k ++ " ID"))
  | _ =>
      match rowIdOf id with
      | None => Returned (Sent 404 (Noun k ++ " not found"))
      | Some n =>
          match selectMedia k n (db st) with
          | None => Returned (Sent 404 (Noun k ++ " not found"))
          | Some item =>
              let filePath := pathJoin uploadDir (m_filename item) in
              if negb (existsSync filePath (fs st))
              then Returned (Sent 404 "File missing on server")
              else
                let disposition :=
                  "inline; filename=" ++ String doubleQuote
                     (stripQuotes (m_original_name item) ++ String doubleQuote EmptyString) in
                match setHeader "Content-Type" (m_mime_type item) with
                | Thrown msg => Thrown msg
                | Returned _ =>
                    match setHeader "Content-Disposition" disposition with
                    | Thrown msg => Thrown msg
                    | Returned _ => Returned (SentFile filePath (m_mime_type item) disposition)
                    end
                end
          end
      end
  end.

(** The route: an error thrown by the handler is passed to the error
    middleware. *)
Definition viewRoute (k : Kind) (idParam : string) (st : State) : Reply :=
  match viewHandler k idParam st with
  | Returned reply => reply
  | Thrown msg => errorMiddleware texts (Some (OtherError msg)) (viewPath k idParam)
  end.

(** A route behind [requireAdmin]. *)
Definition adminOnly (session : option Session) (route : Reply) : Reply :=
  match requireAdmin session with
  | Some reply => reply
  | None => route
  end.

End OtherRoutes.

(** ** Predicates used in the statements *)

(** Every character of [s] satisfies [p]. *)
Fixpoint allChars (p : ascii -> bool) (s : string) : bool :=
  match s with
  | EmptyString => true
  | String c r => p c && allChars p r
  end.

(** The only white space of [s] is the space character, never twice in a
    row, and not first when [afterSpace] holds. *)
Fixpoint singleSpaced (afterSpace : bool) (s : string) : bool :=
  match s with
  | EmptyString => true
  | String c r =>
      if JS.isWhiteSpace c
      then Ascii.eqb c " " && negb afterSpace && singleSpaced true r
      else singleSpaced false r
  end.

(** The files an admission keeps and the files it turns down: a batch
    rejected as a whole keeps none, and the route unlinks all of it. *)
Definition acceptedOf (a : Admission) : list UploadedFile :=
  match a with
  | RejectAll _ => []
  | Accept acceptedFiles _ => acceptedFiles
  end.

Definition rejectedOf (a : Admission) (uploadedFiles : list UploadedFile) : list UploadedFile :=
  match a with
  | RejectAll _ => uploadedFiles
  | Accept _ rejectedFiles => rejectedFiles
  end.

(** The row [m] records the file [f] for the uploader [uploaderId]. *)
Definition recordsFile (uploaderId : N) (f : UploadedFile) (m : Media) : Prop :=
  m_uploader_id m = uploaderId
  /\ m_filename m = f_filename f
  /\ m_original_name m = f_originalname f
  /\ m_mime_type m = f_mimetype f
  /\ m_size m = f_size f.

(** The display name an upload route reads from the request body. *)
Definition submittedName (req : UploadRequest) : string :=
  JS.trim (match body_name req with Some n => JS.orElse n "" | None => "" end).

(** No uploader is left without a media record of either kind. *)
Definition noOrphans (d : Database) : bool :=
  forallb (fun u => hasMedia d (u_id u)) (uploaders d).

(** Neither the scratch directory, nor anything below it, nor the archive
    file of an export is left. *)
Definition cleanedUp (env : ExportEnv) (s : FileSystem) : Prop :=
  ~ In (tempDir env) (dirs s)
  /\ ~ In (archivePath env) (files s)
  /\ forall p, In p (files s) -> isUnder (tempDir env) p = false.

Definition isDigit (c : ascii) : bool :=
  (48 <=? nat_of_ascii c)%nat && (nat_of_ascii c <=? 57)%nat.

(** The number a name starts with: its longest prefix of decimal digits,
    read in base ten. *)
Fixpoint leadingDigits (s : string) : string :=
  match s with
  | EmptyString => EmptyString
  | String c r => if isDigit c then String c (leadingDigits r) else EmptyString
  end.

Definition embeddedNumber (s : string) : option N :=
  option_map N.of_uint (NilEmpty.uint_of_string (leadingDigits s)).

(** The numbers of a list grow strictly from each element to the next. *)
Fixpoint ascending (l : list N) : bool :=
  match l with
  | a :: (b :: _) as r => (a <? b)%N && ascending r
  | _ => true
  end.

(** The numbers embedded in the staged names of an export, in the order of
    the query. *)
Definition stagedNumbers (k : Kind) (d : Database) : list (option N) :=
  map (fun m => embeddedNumber (stagedName k m)) (newestFirst (table k d)).

(** The claim that the embedded number is a sequence number preserving the
    query order: listed by that number, the staged copies come in the order
    of the query. *)
Definition numbersFollowQueryOrder (k : Kind) (d : Database) : Prop :=
  exists l, stagedNumbers k d = map Some l /\ ascending l = true.

Definition notSlash (c : ascii) : bool := negb (Ascii.eqb c "/").

(** What holds of the scan of [path.extname] when the characters from
    index [n] on have been visited: the end of the last segment and its
    last dot, once found, lie in the visited part, and no character between
    them is a slash. *)
Definition extScanInv (path : string) (n : nat) (st : JS.ExtScan) : Prop :=
  (JS.endPos st = -1 -> JS.startDot st = -1)
  /\ (JS.matchedSlash st = true -> JS.endPos st = -1)
  /\ (JS.endPos st <> -1 ->
      Z.of_nat n <= JS.endPos st
      /\ forall j, (n <= j)%nat -> Z.of_nat j < JS.endPos st ->
                   String.get j path <> Some "/"%char)
  /\ (JS.startDot st <> -1 ->
      Z.of_nat n <= JS.startDot st < JS.endPos st
      /\ String.get (Z.to_nat (JS.startDot st)) path = Some "."%char).

(** The claim that the stored name does not depend on the original name. *)
Definition storedNameIgnoresOriginal : Prop :=
  forall now random original1 original2,
    storageFilename now random original1 = storageFilename now random original2.

(** A column of row ids under AUTOINCREMENT: no id twice, none above the
    counter. *)
Definition keyed (ids : list N) (seq : N) : Prop :=
  NoDup ids /\ Forall (fun i => (i <= seq)%N) ids.

(** The constraints of the schema, and what the routes keep of an uploader
    row: ids are primary keys, [normalized_name] is unique, every media row
    refers to an uploader row, and the stored names of an uploader are its
    trimmed, non-empty display name and the normalization of it. *)
Definition wellFormed (d : Database) : Prop :=
  keyed (map u_id (uploaders d)) (uploaders_seq d)
  /\ (forall k, keyed (map m_id (table k d)) (table_seq k d))
  /\ NoDup (map u_normalized_name (uploaders d))
  /\ (forall k m, In m (table k d) ->
       exists u, In u (uploaders d) /\ u_id u = m_uploader_id m)
  /\ (forall u, In u (uploaders d) ->
       u_normalized_name u = normalizeName (u_name u)
       /\ JS.trim (u_name u) = u_name u
       /\ u_name u <> "").

(** [a] is listed before [b], or they agree on the two sort keys. *)
Definition notAfter (a b : Media) : Prop :=
  (m_uploaded_at b < m_uploaded_at a)%N
  \/ (m_uploaded_at a = m_uploaded_at b /\ (m_id b <= m_id a)%N).

(** The last character of a text, if any. *)
Fixpoint lastChar (s : string) : option ascii :=
  match s with
  | EmptyString => None
  | String c EmptyString => Some c
  | String _ r => lastChar r
  end.

Definition firstChar (s : string) : option ascii :=
  match s with
  | EmptyString => None
  | String c _ => Some c
  end.

(** A text without a comma and without white space at either end. *)
Definition singleToken (s : string) : Prop :=
  allChars (fun c => negb (Ascii.eqb c ",")) s = true
  /\ JS.trim s = s.

(** [item] is the first item of the comma-separated text [header]. *)
Definition firstItem (header item : string) : Prop :=
  allChars (fun c => negb (Ascii.eqb c ",")) item = true
  /\ (header = item \/ exists rest, header = item ++ String "," rest).

(** A header or property that is missing or empty. *)
Definition absent (v : option string) : Prop := v = None \/ v = Some "".

(** [firstPresent candidates fallback chosen]: [chosen] is the first of
    the [candidates] that is there and not empty, and the [fallback] when
    there is none. *)
Inductive firstPresent : list (option string) -> string -> string -> Prop :=
| firstPresent_none (fallback : string) : firstPresent [] fallback fallback
| firstPresent_here (s : string) (rest : list (option string)) (fallback : string) :
    s <> "" -> firstPresent (Some s :: rest) fallback s
| firstPresent_skip (v : option string) (rest : list (option string))
    (fallback chosen : string) :
    absent v -> firstPresent rest fallback chosen ->
    firstPresent (v :: rest) fallback chosen.

(** Every record has its file in the upload directory. *)
Definition backed (uploadDir : string) (st : State) : Prop :=
  forall k m, In m (table k (db st)) ->
              In (pathJoin uploadDir (m_filename m)) (files (fs st)).

(** No two records, of either kind, share a stored file name. *)
Definition distinctFiles (d : Database) : Prop :=
  forall k1 m1 k2 m2, In m1 (table k1 d) -> In m2 (table k2 d) ->
                      m_filename m1 = m_filename m2 -> k1 = k2 /\ m_id m1 = m_id m2.

(** ** Sample data for the checks below *)

Definition sampleLimits : Limits := mkLimits 2 3.

(** A disk with room for four rows in a media table: an [INSERT] into a
    table that holds four rows fails with the message of SQLITE_FULL. *)
Definition sampleFault (k : Kind) (rows : list Media) (f : UploadedFile) : option string :=
  if (4 <=? List.length rows)%nat then Some "database or disk is full" else None.

Definition sampleFile (n : string) : UploadedFile :=
  mkUploadedFile ("/up/" ++ n) n ("my " ++ n) "video/mp4" 100.

Definition emptyDatabase : Database := mkDatabase [] 0 [] 0 [] 0.

Definition sampleState : State :=
  mkState emptyDatabase (mkFileSystem ["/up/a"; "/up/b"; "/up/c"; "/up/broken"] ["/up"]).

Definition ann : Uploader := mkUploader 1 "Ann" "ann" 10.
Definition ben : Uploader := mkUploader 2 "Ben" "ben" 11.

(** Ann owns photo 1 and video 1, Ben owns photos 2 and 3; the file of
    photo 3 is missing on disk. *)
Definition sampleGallery : State :=
  mkState
    (mkDatabase [ann; ben] 2
       [mkMedia 1 1 "11-1.jpg" "ann one.jpg" "image/jpeg" 10 20;
        mkMedia 2 2 "22-2.jpg" "ben/two.jpg" "image/jpeg" 10 30;
        mkMedia 3 2 "33-3.jpg" "" "image/jpeg" 10 30] 3
       [mkMedia 1 1 "44-4.mp4" "ann.mp4" "video/mp4" 10 40] 1)
    (mkFileSystem ["/up/11-1.jpg"; "/up/22-2.jpg"; "/up/44-4.mp4"] ["/up"]).

(** Three photos of Ann whose time stamps do not follow their ids (the
    clock was set back between the second and the third insert). *)
Definition skewedDatabase : Database :=
  mkDatabase [ann] 1
    [mkMedia 1 1 "11-1.jpg" "one.jpg" "image/jpeg" 10 10;
     mkMedia 2 1 "22-2.jpg" "two.jpg" "image/jpeg" 10 30;
     mkMedia 3 1 "33-3.jpg" "three.jpg" "image/jpeg" 10 20] 3
    [] 0.

Definition sampleExportEnv (zip : IOResult) : ExportEnv :=
  mkExportEnv "/tmp/wedding-X" "/tmp/wedding-1.zip" "2026-01-01" (fun _ _ => IoDone) zip.

(** * Sanity checks *)

Example sanitize_ex1 :
  sanitizeArchiveFilename "  a/b   c.jpg " = "a-b c.jpg".
Proof. reflexivity. Qed.

Example extname_ex :
  map JS.extname ["index.html"; "index.coffee.md"; "index."; "index"; ".index";
                  ".index.md"; "a/b.c/d"; "a/b.txt//"; ".."; "..."; "x.tar.gz"]
  = [".html"; ".md"; "."; ""; ""; ".md"; ""; ".txt"; ""; "."; ".gz"].
Proof. vm_compute. reflexivity. Qed.

Example number_ex :
  map JS.numberOfString ["10"; " 42 "; ""; "1e3"; "0x1F"; "-2.50"; ".5"]
  = [JS.ofZ 10; JS.ofZ 42; JS.ofZ 0; JS.ofZ 1000; JS.ofZ 31;
     JS.Finite (-5 # 2); JS.Finite (1 # 2)].
Proof. vm_compute. reflexivity. Qed.

Example number_rounding_ex :
  map JS.numberOfString
      ["0.9999999999999999999"; "9007199254740993"; "9007199254740995"; "1e400"; "-1e400";
       "0.1"; "1e-400"]
  = [JS.ofZ 1; JS.ofZ 9007199254740992; JS.ofZ 9007199254740996; JS.Infinity false;
     JS.Infinity true; JS.Finite (3602879701896397 # 36028797018963968); JS.ofZ 0].
Proof. vm_compute. reflexivity. Qed.

Example number_nan_ex :
  map JS.numberOfString ["abc"; "10px"; "1e"; "0x"; "1 2"; "--1"; "."]
  = [JS.NaN; JS.NaN; JS.NaN; JS.NaN; JS.NaN; JS.NaN; JS.NaN].
Proof. vm_compute. reflexivity. Qed.

Example upload_scenario :
  let r1 := uploadRoute sampleLimits 5 sampleFault Video
              (mkUploadRequest (Some "Alice ") [sampleFile "a"]) sampleState in
  let r2 := uploadRoute sampleLimits 6 sampleFault Video
              (mkUploadRequest (Some " alice") [sampleFile "b"; sampleFile "c"]) (snd r1) in
  let r3 := uploadRoute sampleLimits 7 sampleFault Video
              (mkUploadRequest (Some "ALICE") [sampleFile "c"]) (snd r2) in
  fst r1 = RedirectMessage "/?tab=videos" "Thanks Alice! Uploaded 1 video."
  /\ fst r2 = RedirectMessage "/?tab=videos"
               "Thanks Alice! Uploaded 1 video. 1 video was skipped due to upload limits."
  /\ fst r3 = RedirectError "/?tab=videos" "You have already uploaded your maximum of 2 videos."
  /\ map m_filename (videos (db (snd r3))) = ["a"; "b"]
  /\ map u_id (uploaders (db (snd r3))) = [1%N]
  /\ files (fs (snd r3)) = ["/up/a"; "/up/b"; "/up/broken"].
Proof. vm_compute. repeat split. Qed.

Example upload_rollback_scenario :
  let d := db sampleGallery in
  photos (snd (insertEach 5 sampleFault Photo 1 [sampleFile "a"; sampleFile "b"] d))
  = (photos d ++ [mkMedia 4 1 "a" "my a" "video/mp4" 100 5])%list
  /\ transaction 5 sampleFault Photo 1 [sampleFile "a"; sampleFile "b"] d
     = (Thrown "database or disk is full", d).
Proof. vm_compute. split; reflexivity. Qed.

Example delete_scenario :
  let r1 := deleteRoute "/up" Photo "2" sampleGallery in
  let r2 := deleteRoute "/up" Photo " 3 " (snd r1) in
  let r3 := deleteRoute "/up" Photo "3" (snd r2) in
  let r4 := deleteRoute "/up" Photo "x3" (snd r2) in
  fst r1 = RedirectMessage "/admin/photos" "Photo deleted."
  /\ uploaders (db (snd r1)) = [ann; ben]
  /\ uploaders (db (snd r2)) = [ann]
  /\ files (fs (snd r2)) = ["/up/11-1.jpg"; "/up/44-4.mp4"]
  /\ r3 = (RedirectError "/admin/photos" "Photo not found.", snd r2)
  /\ r4 = (RedirectError "/admin/photos" "Invalid photo ID.", snd r2).
Proof. vm_compute. repeat split. Qed.

Example download_scenario :
  downloadRoute "/up" Photo (sampleExportEnv IoDone) sampleGallery
  = (Download "/tmp/wedding-1.zip" "dan-abi-wedding-photos-2026-01-01.zip"
       ["/tmp/wedding-X/0001-ann one.jpg"; "/tmp/wedding-X/0002-ben-two.jpg"],
     sampleGallery)
  /\ fst (downloadRoute "/up" Video (sampleExportEnv IoDone)
            (mkState (db sampleGallery) (mkFileSystem [] [])))
     = RedirectError "/admin/videos" "Video files are missing on disk."
  /\ downloadRoute "/up" Video (sampleExportEnv IoDone) sampleState
     = (RedirectError "/admin/videos" "No videos to download.", sampleState).
Proof. vm_compute. repeat split. Qed.

(** * Properties of the built-ins *)

Section StringFacts.

Lemma trimStart_fixed (s : string) :
  match s with String c _ => JS.isWhiteSpace c = false | EmptyString => True end ->
  JS.trimStart s = s.
Proof.
  destruct s as [|c r]; simpl; [reflexivity|].
  intros ->. reflexivity.
Qed.

Lemma trimStart_head (s : string) :
  match JS.trimStart s with
  | String c _ => JS.isWhiteSpace c = false
  | EmptyString => True
  end.
Proof.
  induction s as [|c r IH]; simpl; [exact I|].
  destruct (JS.isWhiteSpace c) eqn:E; [exact IH | exact E].
Qed.

Lemma trimEnd_head (s : string) :
  match s with String c _ => JS.isWhiteSpace c = false | EmptyString => True end ->
  match JS.trimEnd s with
  | String c _ => JS.isWhiteSpace c = false
  | EmptyString => s = EmptyString
  end.
Proof.
  destruct s as [|c r]; simpl; [reflexivity|].
  intros E. destruct (JS.trimEnd r); [rewrite E; simpl; exact E | exact E].
Qed.

Lemma trimEnd_idem (s : string) : JS.trimEnd (JS.trimEnd s) = JS.trimEnd s.
Proof.
  induction s as [|c r IH]; simpl; [reflexivity|].
  destruct (JS.trimEnd r) as [|c' r'] eqn:E.
  - destruct (JS.isWhiteSpace c) eqn:W; simpl; [reflexivity|].
    rewrite W. reflexivity.
  - change (JS.trimEnd (String c (String c' r')))
      with (match JS.trimEnd (String c' r') with
            | EmptyString => if JS.isWhiteSpace c then EmptyString else String c EmptyString
            | x => String c x
            end).
    rewrite IH. reflexivity.
Qed.

Lemma trim_idem (s : string) : JS.trim (JS.trim s) = JS.trim s.
Proof.
  unfold JS.trim.
  pose proof (trimEnd_head (JS.trimStart s) (trimStart_head s)) as H.
  rewrite (trimStart_fixed (JS.trimEnd (JS.trimStart s))).
  - apply trimEnd_idem.
  - destruct (JS.trimEnd (JS.trimStart s)); [exact I | exact H].
Qed.

Lemma allChars_trimStart p s : allChars p s = true -> allChars p (JS.trimStart s) = true.
Proof.
  induction s as [|c r IH]; simpl; [reflexivity|].
  intros H. apply andb_prop in H as [Hc Hr].
  destruct (JS.isWhiteSpace c); [auto | simpl; rewrite Hc, Hr; reflexivity].
Qed.

Lemma allChars_trimEnd p s : allChars p s = true -> allChars p (JS.trimEnd s) = true.
Proof.
  induction s as [|c r IH]; simpl; [reflexivity|].
  intros H. apply andb_prop in H as [Hc Hr]. specialize (IH Hr).
  destruct (JS.trimEnd r) as [|c' r'].
  - destruct (JS.isWhiteSpace c); simpl; [reflexivity | rewrite Hc; reflexivity].
  - simpl in *. rewrite Hc, IH. reflexivity.
Qed.

Lemma allChars_trim p s : allChars p s = true -> allChars p (JS.trim s) = true.
Proof. intros H. apply allChars_trimEnd, allChars_trimStart, H. Qed.

Lemma allChars_replaceClass cls by_ s :
  cls by_ = false -> allChars (fun c => negb (cls c)) (JS.replaceClass cls by_ s) = true.
Proof.
  intros Hby. induction s as [|c r IH]; simpl; [reflexivity|].
  rewrite IH, andb_true_r. destruct (cls c) eqn:E; [rewrite Hby | rewrite E]; reflexivity.
Qed.

Lemma replaceClass_fixed cls by_ s :
  allChars (fun c => negb (cls c)) s = true -> JS.replaceClass cls by_ s = s.
Proof.
  induction s as [|c r IH]; simpl; [reflexivity|].
  intros H. apply andb_prop in H as [Hc Hr].
  rewrite (IH Hr). destruct (cls c); [discriminate | reflexivity].
Qed.

Lemma allChars_collapseRuns p b s :
  p " "%char = true -> allChars p s = true -> allChars p (JS.collapseRuns b s) = true.
Proof.
  intros Hsp. revert b. induction s as [|c r IH]; intros b; simpl; [reflexivity|].
  intros H. apply andb_prop in H as [Hc Hr].
  destruct (JS.isWhiteSpace c).
  - destruct b; simpl; rewrite ?Hsp; simpl; auto.
  - simpl. rewrite Hc. simpl. auto.
Qed.

Lemma singleSpaced_collapseRuns b s : singleSpaced b (JS.collapseRuns b s) = true.
Proof.
  revert b. induction s as [|c r IH]; intros b; simpl; [reflexivity|].
  destruct (JS.isWhiteSpace c) eqn:W.
  - destruct b; [apply IH|]. simpl. apply IH.
  - simpl. rewrite W. apply IH.
Qed.

Lemma singleSpaced_weaken b s : singleSpaced b s = true -> singleSpaced false s = true.
Proof.
  destruct s as [|c r]; simpl; [reflexivity|].
  destruct (JS.isWhiteSpace c); [|tauto].
  intros H. apply andb_prop in H as [H Hr]. apply andb_prop in H as [Hc _].
  rewrite Hc, Hr. reflexivity.
Qed.

Lemma collapseRuns_fixed b s :
  singleSpaced b s = true -> JS.collapseRuns b s = s.
Proof.
  revert b. induction s as [|c r IH]; intros b; simpl; [reflexivity|].
  destruct (JS.isWhiteSpace c).
  - intros H. apply andb_prop in H as [H Hr]. apply andb_prop in H as [Hc Hb].
    apply Ascii.eqb_eq in Hc. subst c. destruct b; [discriminate|].
    rewrite (IH true Hr). reflexivity.
  - intros H. rewrite (IH false H). reflexivity.
Qed.

Lemma singleSpaced_trimStart b s :
  singleSpaced b s = true -> singleSpaced false (JS.trimStart s) = true.
Proof.
  revert b. induction s as [|c r IH]; intros b; simpl; [reflexivity|].
  destruct (JS.isWhiteSpace c) eqn:W.
  - intros H. apply andb_prop in H as [_ Hr]. apply (IH true Hr).
  - intros H. simpl. rewrite W. exact H.
Qed.

Lemma singleSpaced_trimEnd b s :
  singleSpaced b s = true -> singleSpaced b (JS.trimEnd s) = true.
Proof.
  revert b. induction s as [|c r IH]; intros b; simpl; [reflexivity|].
  destruct (JS.isWhiteSpace c) eqn:W.
  - intros H. apply andb_prop in H as [H Hr]. specialize (IH true Hr).
    destruct (JS.trimEnd r) as [|c' r']; [reflexivity|].
    change (singleSpaced b (String c (String c' r')))
      with (if JS.isWhiteSpace c
            then Ascii.eqb c " " && negb b && singleSpaced true (String c' r')
            else singleSpaced false (String c' r')).
    rewrite W, H, IH. reflexivity.
  - intros H. specialize (IH false H).
    destruct (JS.trimEnd r) as [|c' r']; simpl; rewrite W; [reflexivity|].
    exact IH.
Qed.

End StringFacts.

(** * Properties of server.js *)

(** ** The archive-name sanitizer *)

Lemma isPathUnsafe_dash : isPathUnsafe "-" = false.
Proof. reflexivity. Qed.

Lemma sanitize_safe (s : string) :
  allChars (fun c => negb (isPathUnsafe c)) (sanitizeArchiveFilename s) = true.
Proof.
  unfold sanitizeArchiveFilename, JS.collapseWhiteSpace.
  apply allChars_trim, allChars_collapseRuns; [reflexivity|].
  apply allChars_replaceClass, isPathUnsafe_dash.
Qed.

Lemma sanitize_singleSpaced (s : string) :
  singleSpaced false (sanitizeArchiveFilename s) = true.
Proof.
  unfold sanitizeArchiveFilename, JS.collapseWhiteSpace, JS.trim.
  apply singleSpaced_trimEnd.
  apply (singleSpaced_trimStart false), singleSpaced_collapseRuns.
Qed.

(** C10. The archive-name sanitizer is idempotent: sanitizing a sanitized
    name changes nothing, because the result holds no character of the
    replaced class, no white space other than single spaces, and no white
    space at either end. *)
Theorem sanitizeArchiveFilename_idempotent (s : string) :
  sanitizeArchiveFilename (sanitizeArchiveFilename s) = sanitizeArchiveFilename s
  /\ allChars (fun c => negb (isPathUnsafe c)) (sanitizeArchiveFilename s) = true
  /\ singleSpaced false (sanitizeArchiveFilename s) = true
  /\ JS.trim (sanitizeArchiveFilename s) = sanitizeArchiveFilename s.
Proof.
  assert (Ht : JS.trim (sanitizeArchiveFilename s) = sanitizeArchiveFilename s).
  { unfold sanitizeArchiveFilename at 1 2. apply trim_idem. }
  repeat split; try (apply sanitize_safe || apply sanitize_singleSpaced || exact Ht).
  unfold sanitizeArchiveFilename at 1.
  rewrite (replaceClass_fixed _ _ _ (sanitize_safe s)).
  unfold JS.collapseWhiteSpace.
  rewrite (collapseRuns_fixed _ _ (sanitize_singleSpaced s)).
  exact Ht.
Qed.

(** ** Admission *)

Lemma sliceFromTo_prefix {A} (xs : list A) (n : Z) :
  0 <= n ->
  JS.sliceFromTo xs 0 n = firstn (Z.to_nat (Z.min n (Z.of_nat (List.length xs)))) xs.
Proof.
  intros Hn. unfold JS.sliceFromTo, JS.relIndex.
  destruct (0 <? 0) eqn:E0; [discriminate|].
  destruct (n <? 0) eqn:En; [apply Z.ltb_lt in En; lia|].
  replace (Z.min 0 (Z.of_nat (List.length xs))) with 0 by lia.
  simpl skipn. f_equal. lia.
Qed.

Lemma sliceFrom_suffix {A} (xs : list A) (n : Z) :
  0 <= n ->
  JS.sliceFrom xs n = skipn (Z.to_nat (Z.min n (Z.of_nat (List.length xs)))) xs.
Proof.
  intros Hn. unfold JS.sliceFrom, JS.sliceFromTo, JS.relIndex.
  destruct (n <? 0) eqn:En; [apply Z.ltb_lt in En; lia|].
  destruct (Z.of_nat (List.length xs) <? 0) eqn:El; [apply Z.ltb_lt in El; lia|].
  rewrite (Z.min_id (Z.of_nat (List.length xs))).
  apply firstn_all2. rewrite length_skipn. lia.
Qed.

(** The admission step on its own: for all limits, counts and batches it
    keeps the first [n] files and turns down the others, [n] being the
    allowance capped at the batch size. *)
Lemma decideAdmission_partition (limits : Limits) (k : Kind) (uploaderCount totalCount : Z)
    (uploadedFiles : list UploadedFile) :
  let allowedNow :=
    Z.min (Z.max 0 (perPersonLimit limits k - uploaderCount))
          (Z.max 0 (globalLimit limits k - totalCount)) in
  let n := Z.to_nat (Z.min allowedNow (Z.of_nat (List.length uploadedFiles))) in
  let a := decideAdmission limits k uploaderCount totalCount uploadedFiles in
  acceptedOf a = firstn n uploadedFiles
  /\ rejectedOf a uploadedFiles = skipn n uploadedFiles
  /\ List.length (acceptedOf a) = n
  /\ (List.length (acceptedOf a) + List.length (rejectedOf a uploadedFiles)
      = List.length uploadedFiles)%nat
  /\ (acceptedOf a ++ rejectedOf a uploadedFiles)%list = uploadedFiles.
Proof.
  intros allowedNow n a.
  assert (Hacc : acceptedOf a = firstn n uploadedFiles
                 /\ rejectedOf a uploadedFiles = skipn n uploadedFiles).
  { subst a. unfold decideAdmission. fold allowedNow.
    destruct (allowedNow <=? 0) eqn:E.
    - apply Z.leb_le in E. assert (n = 0%nat) as -> by (subst n; lia).
      split; reflexivity.
    - apply Z.leb_gt in E. simpl.
      rewrite sliceFromTo_prefix, sliceFrom_suffix by lia. split; reflexivity. }
  destruct Hacc as [Ha Hr]. rewrite Ha, Hr.
  repeat split.
  - rewrite length_firstn. subst n. lia.
  - rewrite length_firstn, length_skipn. lia.
  - apply firstn_skipn.
Qed.

(** The reason the admission step gives when it rejects a whole batch. *)
Lemma decideAdmission_reason (limits : Limits) (k : Kind) (uploaderCount totalCount : Z)
    (uploadedFiles : list UploadedFile) :
  let remainingGlobal := Z.max 0 (globalLimit limits k - totalCount) in
  let allowedNow := Z.min (Z.max 0 (perPersonLimit limits k - uploaderCount)) remainingGlobal in
  allowedNow <= 0 ->
  exists reason,
    decideAdmission limits k uploaderCount totalCount uploadedFiles = RejectAll reason
    /\ (reason = galleryFull k <-> remainingGlobal <= 0)
    /\ (reason = "You have already uploaded your maximum of "
                  ++ JS.stringOfZ (perPersonLimit limits k) ++ " " ++ noun k ++ "s."
        <-> 0 < remainingGlobal).
Proof.
  intros remainingGlobal allowedNow Hle.
  unfold decideAdmission. fold remainingGlobal. fold allowedNow.
  apply Z.leb_le in Hle. rewrite Hle.
  eexists. split; [reflexivity|].
  destruct (remainingGlobal <=? 0) eqn:E.
  - apply Z.leb_le in E. split; split; intros H; try lia; try reflexivity.
    destruct k; discriminate H.
  - apply Z.leb_gt in E. split; split; intros H; try lia.
    + destruct k; discriminate H.
    + destruct k; reflexivity.
Qed.

(** ** Uploaders *)

Lemma find_none_existsb {A} (f : A -> bool) (l : list A) :
  find f l = None -> existsb f l = false.
Proof.
  induction l as [|a l IH]; simpl; [reflexivity|].
  destruct (f a); [discriminate | exact IH].
Qed.

Lemma find_app_none {A} (f : A -> bool) (l : list A) (x : A) :
  find f l = None -> f x = true -> find f (l ++ [x]) = Some x.
Proof.
  induction l as [|a l IH]; simpl; intros Hn Hx.
  - rewrite Hx. reflexivity.
  - destruct (f a); [discriminate | auto].
Qed.

Lemma NoDup_map_inj {A B} (f : A -> B) (l : list A) (a b : A) :
  NoDup (map f l) -> In a l -> In b l -> f a = f b -> a = b.
Proof.
  induction l as [|x l IH]; simpl; [tauto|].
  intros Hnd Ha Hb Hf. inversion Hnd as [|? ? Hx Hl]; subst.
  destruct Ha as [-> | Ha], Hb as [-> | Hb]; auto.
  - exfalso. apply Hx. rewrite Hf. apply in_map, Hb.
  - exfalso. apply Hx. rewrite <- Hf. apply in_map, Ha.
Qed.

Lemma selectUploader_unique (d : Database) (u : Uploader) :
  NoDup (map u_normalized_name (uploaders d)) ->
  In u (uploaders d) ->
  selectUploader (u_normalized_name u) d = Some u.
Proof.
  intros Hnd Hin. unfold selectUploader.
  destruct (find _ (uploaders d)) as [u'|] eqn:E.
  - apply find_some in E as [Hin' Heq]. apply String.eqb_eq in Heq.
    f_equal. apply (NoDup_map_inj u_normalized_name (uploaders d)); assumption.
  - exfalso. apply (find_none _ _ E) in Hin. rewrite String.eqb_refl in Hin. discriminate.
Qed.

(** [getOrCreateUploader] never throws: the row is inserted only after the
    lookup by the same key has failed, so the UNIQUE constraint holds. *)
Lemma getOrCreateUploader_cases (now : N) (name : string) (d : Database) :
  match selectUploader (normalizeName name) d with
  | Some u => getOrCreateUploader now name d = (Returned (refOf u), d)
  | None =>
      let id := (uploaders_seq d + 1)%N in
      getOrCreateUploader now name d
      = (Returned (mkUploaderRef id (JS.trim name) (normalizeName name)),
         setUploaders (uploaders d ++ [mkUploader id (JS.trim name) (normalizeName name) now])
                      id d)
  end.
Proof.
  unfold getOrCreateUploader.
  destruct (selectUploader (normalizeName name) d) eqn:E; [reflexivity|].
  unfold insertUploader. unfold selectUploader in E.
  rewrite (find_none_existsb _ _ E). reflexivity.
Qed.

Lemma getOrCreateUploader_media (now : N) (name : string) (d : Database) :
  exists u d1,
    getOrCreateUploader now name d = (Returned u, d1)
    /\ (forall k, table k d1 = table k d)
    /\ (forall k, table_seq k d1 = table_seq k d).
Proof.
  pose proof (getOrCreateUploader_cases now name d) as H.
  destruct (selectUploader (normalizeName name) d).
  - eexists _, _. split; [exact H|]. split; reflexivity.
  - eexists _, _. split; [exact H|]. split; intros []; reflexivity.
Qed.

(** C5. Two display names with the same normalization resolve to the same
    uploader row: the second call finds the row the first one returned and
    creates nothing.  A row is created only when none carries the
    normalized name, so the normalized name remains a key of the table, and
    in a table where it is a key the lookup returns the one row that
    carries it. *)
Theorem same_normalized_name_same_uploader (now : N) (name1 name2 : string) (d : Database) :
  normalizeName name1 = normalizeName name2 ->
  exists u1 d1,
    getOrCreateUploader now name1 d = (Returned u1, d1)
    /\ getOrCreateUploader now name2 d1 = (Returned u1, d1)
    /\ match selectUploader (normalizeName name1) d with
       | Some u => d1 = d /\ u1 = refOf u
       | None =>
           uploaders d1
           = (uploaders d ++ [mkUploader (r_id u1) (JS.trim name1) (normalizeName name1) now])%list
           /\ r_id u1 = (uploaders_seq d + 1)%N
       end
    /\ (NoDup (map u_normalized_name (uploaders d)) ->
        NoDup (map u_normalized_name (uploaders d1)))
    /\ (forall u, NoDup (map u_normalized_name (uploaders d)) ->
                  In u (uploaders d) ->
                  u_normalized_name u = normalizeName name2 ->
                  u1 = refOf u /\ d1 = d).
Proof.
  intros Hnorm.
  pose proof (getOrCreateUploader_cases now name1 d) as H1.
  destruct (selectUploader (normalizeName name1) d) as [u|] eqn:E.
  - exists (refOf u), d. split; [exact H1|].
    pose proof (getOrCreateUploader_cases now name2 d) as H2.
    rewrite <- Hnorm, E in H2.
    split; [exact H2|]. split; [split; reflexivity|]. split; [tauto|].
    intros u' Hnd Hin Hu'. rewrite <- Hnorm in Hu'.
    rewrite <- Hu', (selectUploader_unique d u' Hnd Hin) in E.
    injection E as ->. split; reflexivity.
  - cbv zeta in H1. eexists _, _. split; [exact H1|].
    split; [|split; [|split]].
    + pose proof (getOrCreateUploader_cases now name2
                    (setUploaders (uploaders d ++ [mkUploader (uploaders_seq d + 1)
                                     (JS.trim name1) (normalizeName name1) now])
                                  (uploaders_seq d + 1) d)) as H2.
      rewrite <- Hnorm in H2. unfold selectUploader in H2 at 1. simpl uploaders in H2.
      unfold selectUploader in E.
      rewrite (find_app_none _ _ _ E) in H2 by (simpl; apply String.eqb_refl).
      exact H2.
    + split; reflexivity.
    + simpl. intros Hnd. rewrite map_app. simpl.
      apply NoDup_app; [exact Hnd | repeat constructor; simpl; tauto |].
      intros x Hx [<-|[]]. apply in_map_iff in Hx as [u [Hu Hin]].
      apply (find_none _ _ E) in Hin. rewrite Hu, String.eqb_refl in Hin. discriminate.
    + intros u Hnd Hin Hu. exfalso. rewrite <- Hnorm in Hu.
      apply (find_none _ _ E) in Hin. rewrite Hu, String.eqb_refl in Hin. discriminate.
Qed.

Lemma same_normalized_name_same_uploader_witness :
  exists u1 d1,
    getOrCreateUploader 7 "Alice " (mkDatabase [] 0 [] 0 [] 0) = (Returned u1, d1)
    /\ getOrCreateUploader 7 "alice" d1 = (Returned u1, d1)
    /\ r_id u1 = 1%N.
Proof.
  destruct (same_normalized_name_same_uploader 7 "Alice " "alice" (mkDatabase [] 0 [] 0 [] 0))
    as [u1 [d1 [H1 [H2 [H3 _]]]]]; [reflexivity|].
  exists u1, d1. split; [exact H1|]. split; [exact H2|].
  simpl in H3. exact (proj2 H3).
Defined.

(** ** Upload routes *)

Lemma in_removePath (p q : string) (l : list string) :
  In p (removePath q l) <-> In p l /\ p <> q.
Proof.
  unfold removePath. rewrite filter_In.
  destruct (String.eqb_spec p q) as [->|Hne]; simpl; intuition congruence.
Qed.

Lemma unlinkEach_dirs (l : list UploadedFile) (s : FileSystem) :
  dirs (unlinkEach l s) = dirs s.
Proof.
  unfold unlinkEach. revert s. induction l as [|f l IH]; intros s; simpl; [reflexivity|].
  rewrite IH. reflexivity.
Qed.

Lemma in_unlinkEach (l : list UploadedFile) (s : FileSystem) (p : string) :
  In p (files (unlinkEach l s)) <-> In p (files s) /\ ~ In p (map f_path l).
Proof.
  unfold unlinkEach. revert s. induction l as [|f l IH]; intros s; simpl; [tauto|].
  rewrite IH. simpl. rewrite in_removePath. intuition congruence.
Qed.

Lemma unlinkEach_removes (l : list UploadedFile) (s : FileSystem) (f : UploadedFile) :
  In f l -> ~ In (f_path f) (files (unlinkEach l s)).
Proof.
  intros Hin H. apply in_unlinkEach in H as [_ H]. apply H, in_map, Hin.
Qed.

Lemma unlinkEach_subset (l : list UploadedFile) (s : FileSystem) (p : string) :
  ~ In p (files s) -> ~ In p (files (unlinkEach l s)).
Proof. intros H Hin. apply in_unlinkEach in Hin. tauto. Qed.

Section UploadFacts.

Variable limits : Limits.
Variable now : N.
Variable insertFault : Kind -> list Media -> UploadedFile -> option string.

Lemma setTable_same (k : Kind) (rows : list Media) (seq : N) (d : Database) :
  table k (setTable k rows seq d) = rows
  /\ table_seq k (setTable k rows seq d) = seq
  /\ table (otherKind k) (setTable k rows seq d) = table (otherKind k) d
  /\ table_seq (otherKind k) (setTable k rows seq d) = table_seq (otherKind k) d
  /\ uploaders (setTable k rows seq d) = uploaders d
  /\ uploaders_seq (setTable k rows seq d) = uploaders_seq d.
Proof. destruct k; repeat split. Qed.

(** What the body of the transaction has done when it returns. *)
Lemma insertEach_returned (k : Kind) (uploaderId : N) (l : list UploadedFile) (d d' : Database) :
  insertEach now insertFault k uploaderId l d = (Returned tt, d') ->
  uploaders d' = uploaders d
  /\ uploaders_seq d' = uploaders_seq d
  /\ table (otherKind k) d' = table (otherKind k) d
  /\ exists rows,
       table k d' = (table k d ++ rows)%list
       /\ Forall2 (recordsFile uploaderId) l rows.
Proof.
  revert d. induction l as [|f l IH]; intros d; simpl.
  - intros [= <-]. repeat split. exists []. rewrite app_nil_r. split; constructor.
  - unfold insertMedia. destruct (insertFault k (table k d) f); [discriminate|].
    intros H. apply IH in H as (Hu & Hs & Ho & rows & Ht & Hf).
    pose proof (setTable_same k
      (table k d ++ [mkMedia (table_seq k d + 1) uploaderId (f_filename f)
                             (f_originalname f) (f_mimetype f) (f_size f) now])%list
      (table_seq k d + 1)%N d) as (E1 & _ & E3 & _ & E5 & E6).
    rewrite E1 in Ht. rewrite E3 in Ho. rewrite E5 in Hu. rewrite E6 in Hs.
    repeat split; try assumption.
    eexists (_ :: rows). rewrite Ht, <- app_assoc. split; [reflexivity|].
    constructor; [repeat split | exact Hf].
Qed.

Lemma insertEach_outcome (k : Kind) (uploaderId : N) (l : list UploadedFile) (d : Database) :
  (exists d', insertEach now insertFault k uploaderId l d = (Returned tt, d'))
  \/ (exists e d', insertEach now insertFault k uploaderId l d = (Thrown e, d')).
Proof.
  destruct (insertEach now insertFault k uploaderId l d) as [[[]|e] d'] eqn:E; eauto.
Qed.

(** ROLLBACK: whatever the body had inserted before it threw is gone. *)
Lemma transaction_rollback (k : Kind) (uploaderId : N) (l : list UploadedFile)
    (d d' : Database) (e : string) :
  insertEach now insertFault k uploaderId l d = (Thrown e, d') ->
  transaction now insertFault k uploaderId l d = (Thrown e, d).
Proof. unfold transaction. intros ->. reflexivity. Qed.

Lemma transaction_commit (k : Kind) (uploaderId : N) (l : list UploadedFile)
    (d d' : Database) :
  insertEach now insertFault k uploaderId l d = (Returned tt, d') ->
  transaction now insertFault k uploaderId l d = (Returned tt, d').
Proof. unfold transaction. intros ->. reflexivity. Qed.

(** The body returns only when no INSERT has failed: each file was
    inserted into the table extended by the rows of the files before it. *)
Lemma insertEach_returned_each (k : Kind) (uploaderId : N) (l : list UploadedFile)
    (d d' : Database) :
  insertEach now insertFault k uploaderId l d = (Returned tt, d') ->
  forall pre f post, l = (pre ++ f :: post)%list ->
  exists rows,
    Forall2 (recordsFile uploaderId) pre rows
    /\ insertFault k (table k d ++ rows)%list f = None.
Proof.
  revert d. induction l as [|a l IH]; intros d H pre f post Hl.
  - destruct pre; discriminate Hl.
  - simpl in H. unfold insertMedia in H.
    destruct (insertFault k (table k d) a) as [e|] eqn:Ea; [discriminate|].
    destruct pre as [|a' pre]; simpl in Hl; injection Hl as <- Hl.
    + exists []. rewrite app_nil_r. split; [constructor | exact Ea].
    + destruct (IH _ H pre f post Hl) as (rows & Hrows & Hf).
      rewrite (proj1 (setTable_same k _ _ d)), <- app_assoc in Hf.
      eexists (_ :: rows). split; [|exact Hf].
      constructor; [repeat split | exact Hrows].
Qed.

(** The body throws the message of the first INSERT that fails. *)
Lemma insertEach_thrown_at (k : Kind) (uploaderId : N) (l : list UploadedFile)
    (d d' : Database) (e : string) :
  insertEach now insertFault k uploaderId l d = (Thrown e, d') ->
  exists pre f post rows,
    l = (pre ++ f :: post)%list
    /\ Forall2 (recordsFile uploaderId) pre rows
    /\ insertFault k (table k d ++ rows)%list f = Some e.
Proof.
  revert d. induction l as [|a l IH]; intros d H; simpl in H; [discriminate|].
  unfold insertMedia in H.
  destruct (insertFault k (table k d) a) as [e'|] eqn:Ea.
  - injection H as <- <-. exists [], a, l, []. rewrite app_nil_r.
    split; [reflexivity|]. split; [constructor | exact Ea].
  - destruct (IH _ H) as (pre & f & post & rows & -> & Hrows & Hf).
    rewrite (proj1 (setTable_same k _ _ d)), <- app_assoc in Hf.
    eexists (a :: pre), f, post, (_ :: rows). split; [reflexivity|].
    split; [|exact Hf]. constructor; [repeat split | exact Hrows].
Qed.

(** The route once the two validations have passed. *)
Lemma uploadRoute_valid (k : Kind) (req : UploadRequest) (st : State) :
  submittedName req <> "" ->
  req_files req <> [] ->
  exists u d1,
    getOrCreateUploader now (submittedName req) (db st) = (Returned u, d1)
    /\ (forall k', table k' d1 = table k' (db st))
    /\ uploadRoute limits now insertFault k req st
       = match decideAdmission limits k (countByUploader k (r_id u) (db st)) (countAll k (db st))
                     (req_files req) with
         | RejectAll reason =>
             (RedirectError (uploadPage k) reason,
              mkState d1 (unlinkEach (req_files req) (fs st)))
         | Accept acceptedFiles rejectedFiles =>
             match insertEach now insertFault k (r_id u) acceptedFiles d1 with
             | (Returned _, d2) =>
                 (RedirectMessage (uploadPage k)
                    (thanks k (r_name u) (List.length acceptedFiles) (List.length rejectedFiles)),
                  mkState d2 (unlinkEach rejectedFiles (fs st)))
             | (Thrown e, _) =>
                 (RedirectError (uploadPage k) (JS.orElse e "Upload failed."),
                  mkState d1 (unlinkEach (req_files req) (unlinkEach rejectedFiles (fs st))))
             end
         end.
Proof.
  intros Hname Hfiles.
  destruct (getOrCreateUploader_media now (submittedName req) (db st)) as (u & d1 & Hg & Ht & Hs).
  exists u, d1. split; [exact Hg|]. split; [exact Ht|].
  unfold uploadRoute. fold (submittedName req).
  destruct (String.eqb_spec (submittedName req) "") as [E|_]; [contradiction|].
  destruct (req_files req) as [|f0 l0] eqn:Ef; [contradiction|].
  simpl List.length. simpl Nat.eqb. cbv iota.
  unfold uploadTry. rewrite Hg.
  assert (Hc : countByUploader k (r_id u) d1 = countByUploader k (r_id u) (db st)).
  { unfold countByUploader. rewrite Ht. reflexivity. }
  assert (Ha : countAll k d1 = countAll k (db st)).
  { unfold countAll. rewrite Ht. reflexivity. }
  rewrite Hc, Ha.
  destruct (decideAdmission limits k _ _ (f0 :: l0)) as [reason|acc rej]; [reflexivity|].
  unfold transaction.
  destruct (insertEach now insertFault k (r_id u) acc d1) as [[[]|e] d2]; reflexivity.
Qed.

End UploadFacts.

Lemma admission_accept_inv (limits : Limits) (k : Kind) (uploaderCount totalCount : Z)
    (l acc rej : list UploadedFile) :
  decideAdmission limits k uploaderCount totalCount l = Accept acc rej ->
  exists n : nat, acc = firstn n l /\ rej = skipn n l.
Proof.
  unfold decideAdmission.
  set (allowedNow := Z.min _ _).
  destruct (allowedNow <=? 0) eqn:E; [discriminate|].
  apply Z.leb_gt in E. intros [= <- <-].
  rewrite sliceFromTo_prefix, sliceFrom_suffix by lia. eauto.
Qed.

(** C1. For every batch that reaches the admission step of an upload route
    (a name and at least one file), the number of admitted files is
    min(max(0, perPersonLimit - uploaderCount), max(0, globalLimit - totalCount))
    capped at the batch size, the counts being those of the store for the
    resolved uploader.  The accepted files are the first ones in submission
    order, the rejected files the others in order, and the counts add up to
    the batch size.  The route removes every rejected file from disk, and
    when it answers with a message it has inserted one row for each
    accepted file, in order. *)
Theorem admission_partition (limits : Limits) (now : N)
    (insertFault : Kind -> list Media -> UploadedFile -> option string)
    (k : Kind) (req : UploadRequest) (st : State) :
  submittedName req <> "" ->
  req_files req <> [] ->
  exists u d1,
    getOrCreateUploader now (submittedName req) (db st) = (Returned u, d1)
    /\ let uploaderCount := countByUploader k (r_id u) (db st) in
       let totalCount := countAll k (db st) in
       let allowedNow :=
         Z.min (Z.max 0 (perPersonLimit limits k - uploaderCount))
               (Z.max 0 (globalLimit limits k - totalCount)) in
       let n := Z.to_nat (Z.min allowedNow (Z.of_nat (List.length (req_files req)))) in
       let a := decideAdmission limits k uploaderCount totalCount (req_files req) in
       let '(response, st') := uploadRoute limits now insertFault k req st in
       acceptedOf a = firstn n (req_files req)
       /\ rejectedOf a (req_files req) = skipn n (req_files req)
       /\ List.length (acceptedOf a) = n
       /\ (List.length (acceptedOf a) + List.length (rejectedOf a (req_files req))
           = List.length (req_files req))%nat
       /\ (forall f, In f (skipn n (req_files req)) -> ~ In (f_path f) (files (fs st')))
       /\ (forall page message, response = RedirectMessage page message ->
             exists rows,
               table k (db st') = (table k (db st) ++ rows)%list
               /\ Forall2 (recordsFile (r_id u)) (firstn n (req_files req)) rows
               /\ fs st' = unlinkEach (skipn n (req_files req)) (fs st)).
Proof.
  intros Hname Hfiles.
  destruct (uploadRoute_valid limits now insertFault k req st Hname Hfiles)
    as (u & d1 & Hg & Ht & Hr).
  exists u, d1. split; [exact Hg|]. cbv zeta.
  destruct (decideAdmission_partition limits k (countByUploader k (r_id u) (db st))
              (countAll k (db st)) (req_files req)) as (Ha & Hrej & Hn & Hsum & _).
  cbv zeta in Ha, Hrej, Hn, Hsum.
  set (n := Z.to_nat _) in *.
  destruct (uploadRoute limits now insertFault k req st) as [response st'].
  split; [exact Ha|]. split; [exact Hrej|]. split; [exact Hn|]. split; [exact Hsum|].
  destruct (decideAdmission limits k _ _ (req_files req)) as [reason|acc rej];
    simpl in Ha, Hrej.
  - injection Hr as -> ->. simpl. split; [|discriminate].
    intros f Hf. apply unlinkEach_removes. rewrite Hrej. exact Hf.
  - subst acc rej.
    destruct (insertEach now insertFault k (r_id u) (firstn n (req_files req)) d1)
      as [[[]|e] d2] eqn:Ei; injection Hr as -> ->; simpl.
    + split; [intros f Hf; apply unlinkEach_removes, Hf|].
      intros page message _.
      pose proof (insertEach_returned now insertFault k (r_id u) _ d1 d2 Ei)
        as (_ & _ & _ & rows & Hrows & Hf).
      exists rows. rewrite Hrows, Ht. repeat split. exact Hf.
    + split; [|discriminate].
      intros f Hf. apply unlinkEach_subset, unlinkEach_removes, Hf.
Qed.

Lemma admission_partition_witness :
  let req := mkUploadRequest (Some "Vera") [sampleFile "a"; sampleFile "b"; sampleFile "c"] in
  let st' := snd (uploadRoute sampleLimits 5 sampleFault Video req sampleState) in
  ~ In "/up/c" (files (fs st'))
  /\ exists rows,
       videos (db st') = rows
       /\ Forall2 (recordsFile 1) [sampleFile "a"; sampleFile "b"] rows.
Proof.
  intros req st'.
  destruct (admission_partition sampleLimits 5 sampleFault Video req sampleState)
    as (u & d1 & Hg & H); [vm_compute; discriminate | discriminate |].
  vm_compute in Hg. injection Hg as <- <-.
  cbv zeta in H. subst st'.
  destruct (uploadRoute sampleLimits 5 sampleFault Video req sampleState)
    as [response st'] eqn:E.
  destruct H as (_ & _ & _ & _ & Hrej & Hrows).
  split.
  - apply (Hrej (sampleFile "c")). vm_compute. auto.
  - vm_compute in E. injection E as E1 E2.
    destruct (Hrows _ _ (eq_sym E1)) as (rows & Ht & Hf & _).
    exists rows. split; [exact Ht | exact Hf].
Defined.



(** C2. For an accepted batch, the rows of the accepted files are inserted
    in one transaction, all together or not at all.  When no insert fails
    (each file is inserted into the table extended by the rows of the
    files before it), one row per accepted file is added, the rejected
    files are unlinked and the route answers with the thanks message.
    When an insert fails, the route answers with the message of that
    failure, the media table is as it was before the request and none of
    the files of the request is left on disk.  One or the other happens,
    and in both the uploader row of the request stays: the transaction
    covers the media rows only.  Whatever the request, an error answer
    leaves the media table unchanged and no file of the request on disk,
    and a message answer means a row for every accepted file. *)
Theorem upload_all_or_nothing (limits : Limits) (now : N)
    (insertFault : Kind -> list Media -> UploadedFile -> option string)
    (k : Kind) (req : UploadRequest) (st : State) :
  let '(response, st') := uploadRoute limits now insertFault k req st in
  table (otherKind k) (db st') = table (otherKind k) (db st)
  /\ match response with
     | RedirectMessage _ _ =>
         exists acceptedFiles rejectedFiles rows uploaderId,
           req_files req = (acceptedFiles ++ rejectedFiles)%list
           /\ table k (db st') = (table k (db st) ++ rows)%list
           /\ Forall2 (recordsFile uploaderId) acceptedFiles rows
           /\ fs st' = unlinkEach rejectedFiles (fs st)
     | RedirectError _ _ =>
         table k (db st') = table k (db st)
         /\ forall f, In f (req_files req) -> ~ In (f_path f) (files (fs st'))
     | Download _ _ _ => False
     end
  /\ (submittedName req <> "" -> req_files req <> [] ->
      forall u d1 acc rej,
        getOrCreateUploader now (submittedName req) (db st) = (Returned u, d1) ->
        decideAdmission limits k (countByUploader k (r_id u) (db st)) (countAll k (db st))
              (req_files req) = Accept acc rej ->
        uploaders (db st') = uploaders d1
        /\ ((response
             = RedirectMessage (uploadPage k)
                 (thanks k (r_name u) (List.length acc) (List.length rej))
             /\ (exists rows,
                   table k (db st') = (table k (db st) ++ rows)%list
                   /\ Forall2 (recordsFile (r_id u)) acc rows)
             /\ fs st' = unlinkEach rej (fs st)
             /\ (forall pre f post, acc = (pre ++ f :: post)%list ->
                   exists rows,
                     Forall2 (recordsFile (r_id u)) pre rows
                     /\ insertFault k (table k (db st) ++ rows)%list f = None))
            \/ (exists pre f post rows e,
                  acc = (pre ++ f :: post)%list
                  /\ Forall2 (recordsFile (r_id u)) pre rows
                  /\ insertFault k (table k (db st) ++ rows)%list f = Some e
                  /\ response = RedirectError (uploadPage k) (JS.orElse e "Upload failed.")
                  /\ table k (db st') = table k (db st)
                  /\ forall f', In f' (req_files req) -> ~ In (f_path f') (files (fs st'))))
        /\ ((forall rows f, In f acc -> insertFault k rows f = None) ->
            response
            = RedirectMessage (uploadPage k)
                (thanks k (r_name u) (List.length acc) (List.length rej)))
        /\ (forall f, In f acc -> (forall rows, insertFault k rows f <> None) ->
            exists e, response = RedirectError (uploadPage k) e)).
Proof.
  destruct (uploadRoute limits now insertFault k req st) as [response st'] eqn:Eroute.
  destruct (String.eqb_spec (submittedName req) "") as [Hname|Hname].
  { unfold uploadRoute in Eroute. fold (submittedName req) in Eroute.
    rewrite Hname in Eroute. simpl in Eroute. injection Eroute as <- <-. simpl.
    split; [reflexivity|]. split; [|tauto].
    split; [reflexivity|]. intros f Hf. apply unlinkEach_removes, Hf. }
  destruct (req_files req) as [|f0 l0] eqn:Efiles.
  { unfold uploadRoute in Eroute. fold (submittedName req) in Eroute.
    apply String.eqb_neq in Hname. rewrite Hname, Efiles in Eroute. simpl in Eroute.
    injection Eroute as <- <-.
    split; [reflexivity|]. split; [|tauto]. split; [reflexivity|]. intros f []. }
  rewrite <- Efiles in *.
  assert (Hfiles : req_files req <> []) by (rewrite Efiles; discriminate).
  destruct (uploadRoute_valid limits now insertFault k req st Hname Hfiles)
    as (u & d1 & Hg & Ht & Hr).
  rewrite Hr in Eroute. clear Hr.
  destruct (decideAdmission limits k _ _ (req_files req)) as [reason|acc rej] eqn:Ea.
  - injection Eroute as <- <-. simpl.
    split; [apply Ht|]. split.
    + split; [apply Ht|]. intros f Hf. apply unlinkEach_removes, Hf.
    + intros _ _ u' d1' acc rej Hg'. rewrite Hg in Hg'. injection Hg' as <- <-.
      rewrite Ea. discriminate.
  - apply admission_accept_inv in Ea as Hsplit. destruct Hsplit as (n & Hacc & Hrej).
    destruct (insertEach now insertFault k (r_id u) acc d1) as [[[]|e] d2] eqn:Ei.
    + injection Eroute as <- <-. simpl.
      pose proof (insertEach_returned now insertFault k (r_id u) acc d1 d2 Ei)
        as (Hu & _ & Ho & rows & Hrows & Hf).
      pose proof (insertEach_returned_each now insertFault k (r_id u) acc d1 d2 Ei) as Heach.
      rewrite Ht in Heach.
      split; [rewrite Ho; apply Ht|]. split.
      * exists acc, rej, rows, (r_id u). rewrite Hrows, Ht.
        split; [subst acc rej; symmetry; apply firstn_skipn|].
        repeat split. exact Hf.
      * intros _ _ u' d1' acc' rej' Hg'. rewrite Hg in Hg'. injection Hg' as <- <-.
        intros Ea'. rewrite Ea in Ea'. injection Ea' as <- <-.
        split; [exact Hu|]. split; [|split].
        -- left. split; [reflexivity|]. split; [|split; [reflexivity | exact Heach]].
           exists rows. rewrite Hrows, Ht. split; [reflexivity | exact Hf].
        -- reflexivity.
        -- intros f Hin Hfault. exfalso.
           apply in_split in Hin as (pre & post & Hin).
           destruct (Heach pre f post Hin) as (rows' & _ & Hnone).
           exact (Hfault _ Hnone).
    + injection Eroute as <- <-. simpl.
      pose proof (insertEach_thrown_at now insertFault k (r_id u) acc d1 d2 e Ei)
        as (pre & f & post & rows & Hl & Hpre & Hfault).
      rewrite Ht in Hfault.
      assert (Hgone : forall f', In f' (req_files req) ->
                ~ In (f_path f')
                     (files (unlinkEach (req_files req) (unlinkEach rej (fs st))))).
      { intros f' Hf'. apply unlinkEach_removes, Hf'. }
      split; [apply Ht|]. split.
      * split; [apply Ht | exact Hgone].
      * intros _ _ u' d1' acc' rej' Hg'. rewrite Hg in Hg'. injection Hg' as <- <-.
        intros Ea'. rewrite Ea in Ea'. injection Ea' as <- <-.
        split; [reflexivity|]. split; [|split].
        -- right. exists pre, f, post, rows, e. repeat split; auto.
        -- intros Hnone. exfalso.
           rewrite Hnone in Hfault; [discriminate|].
           rewrite Hl. apply in_or_app. right. left. reflexivity.
        -- intros _ _ _. eauto.
Qed.

Lemma upload_all_or_nothing_witness :
  (let '(response, st') :=
     uploadRoute sampleLimits 5 sampleFault Video
       (mkUploadRequest (Some "Vera") [sampleFile "a"; sampleFile "b"]) sampleState in
   response = RedirectMessage "/?tab=videos" "Thanks Vera! Uploaded 2 videos."
   /\ List.length (videos (db st')) = 2%nat)
  /\ (let '(response, st') :=
        uploadRoute sampleLimits 5 sampleFault Photo
          (mkUploadRequest (Some "Cat") [sampleFile "a"; sampleFile "b"])
          (mkState (db sampleGallery) (fs sampleState)) in
      response = RedirectError "/?tab=photos" "database or disk is full"
      /\ photos (db st') = photos (db sampleGallery)
      /\ ~ In "/up/a" (files (fs st')) /\ ~ In "/up/b" (files (fs st'))).
Proof.
  split.
  - pose proof (upload_all_or_nothing sampleLimits 5 sampleFault Video
                  (mkUploadRequest (Some "Vera") [sampleFile "a"; sampleFile "b"])
                  sampleState) as H.
    destruct (uploadRoute sampleLimits 5 sampleFault Video
                (mkUploadRequest (Some "Vera") [sampleFile "a"; sampleFile "b"]) sampleState)
      as [response st'].
    destruct H as (_ & _ & H).
    assert (Hn : submittedName (mkUploadRequest (Some "Vera") [sampleFile "a"; sampleFile "b"])
                 <> "") by (vm_compute; discriminate).
    assert (Hf : req_files (mkUploadRequest (Some "Vera") [sampleFile "a"; sampleFile "b"])
                 <> []) by discriminate.
    edestruct (H Hn Hf) as (_ & Hcases & _);
      [vm_compute; reflexivity | vm_compute; reflexivity |].
    destruct Hcases as [(Hr & (rows & Hrows & Hall) & _)
                       | (pre & f & post & rows & e & Hl & Hpre & Hfault & _)].
    + split; [exact Hr|].
      change (videos (db st')) with (table Video (db st')). rewrite Hrows. simpl.
      apply Forall2_length in Hall. rewrite <- Hall. reflexivity.
    + exfalso. apply Forall2_length in Hpre.
      assert (Hlen : (List.length (pre ++ f :: post) = 2)%nat) by (rewrite <- Hl; reflexivity).
      rewrite length_app in Hlen. simpl in Hlen.
      destruct rows as [|r1 [|r2 rows]]; simpl in Hpre; [discriminate Hfault.. | lia].
  - pose proof (upload_all_or_nothing sampleLimits 5 sampleFault Photo
                  (mkUploadRequest (Some "Cat") [sampleFile "a"; sampleFile "b"])
                  (mkState (db sampleGallery) (fs sampleState))) as H.
    destruct (uploadRoute sampleLimits 5 sampleFault Photo
                (mkUploadRequest (Some "Cat") [sampleFile "a"; sampleFile "b"])
                (mkState (db sampleGallery) (fs sampleState)))
      as [response st'].
    destruct H as (_ & _ & H).
    assert (Hn : submittedName (mkUploadRequest (Some "Cat") [sampleFile "a"; sampleFile "b"])
                 <> "") by (vm_compute; discriminate).
    assert (Hf : req_files (mkUploadRequest (Some "Cat") [sampleFile "a"; sampleFile "b"])
                 <> []) by discriminate.
    edestruct (H Hn Hf) as (_ & Hcases & _);
      [vm_compute; reflexivity | vm_compute; reflexivity |].
    destruct Hcases as [(_ & _ & _ & Heach)
                       | (pre & f & post & rows & e & _ & _ & Hfault & Hr & Ht & Hgone)].
    + exfalso.
      destruct (Heach [sampleFile "a"] (sampleFile "b") [] eq_refl) as (rows & Hpre & Hnone).
      apply Forall2_length in Hpre. unfold sampleFault in Hnone.
      rewrite length_app in Hnone. simpl in Hpre, Hnone. rewrite <- Hpre in Hnone.
      discriminate Hnone.
    + assert (e = "database or disk is full") as ->.
      { unfold sampleFault in Hfault. destruct (4 <=? _)%nat; congruence. }
      split; [exact Hr|]. split; [exact Ht|].
      split; [apply (Hgone (sampleFile "a")) | apply (Hgone (sampleFile "b"))]; simpl; auto.
Defined.

(** The uploader row made for a request stays when the transaction of the
    request is rolled back: a store without an orphan has one after the
    failed first upload of Cat. *)
Lemma failed_upload_leaves_uploader_row :
  let st := mkState (db sampleGallery) (fs sampleState) in
  let '(response, st') :=
    uploadRoute sampleLimits 5 sampleFault Photo
      (mkUploadRequest (Some "Cat") [sampleFile "a"; sampleFile "b"]) st in
  noOrphans (db st) = true
  /\ response = RedirectError "/?tab=photos" "database or disk is full"
  /\ photos (db st') = photos (db st)
  /\ uploaders (db st') = (uploaders (db st) ++ [mkUploader 3 "Cat" "cat" 5])%list
  /\ hasMedia (db st') 3 = false
  /\ noOrphans (db st') = false.
Proof. vm_compute. repeat split. Qed.

(** ** Delete routes *)

Lemma hasMedia_iff (d : Database) (id : N) :
  hasMedia d id = true <-> exists k m, In m (table k d) /\ m_uploader_id m = id.
Proof.
  unfold hasMedia. rewrite existsb_exists. split.
  - intros (x & Hin & Hx). apply N.eqb_eq in Hx. subst x.
    apply in_app_or in Hin as [Hin|Hin]; apply in_map_iff in Hin as (m & Hm & Hin).
    + exists Photo, m. auto.
    + exists Video, m. auto.
  - intros (k & m & Hin & Hm). exists id. split; [|apply N.eqb_refl].
    apply in_or_app. destruct k; [left|right]; rewrite <- Hm; apply in_map, Hin.
Qed.

Lemma forallb_filter_same {A} (f : A -> bool) (l : list A) :
  forallb f (filter f l) = true.
Proof.
  apply forallb_forall. intros x Hx. apply filter_In in Hx. tauto.
Qed.

Lemma noOrphans_cleanup (d : Database) : noOrphans (cleanupOrphanUploaders d) = true.
Proof.
  unfold noOrphans, cleanupOrphanUploaders. simpl uploaders.
  apply (forallb_filter_same (fun u => hasMedia d (u_id u))).
Qed.

Lemma cleanup_keeps (d : Database) (u : Uploader) (k : Kind) (m : Media) :
  In u (uploaders d) -> In m (table k d) -> m_uploader_id m = u_id u ->
  In u (uploaders (cleanupOrphanUploaders d)).
Proof.
  intros Hu Hm He. unfold cleanupOrphanUploaders. simpl.
  apply filter_In. split; [exact Hu|]. apply hasMedia_iff. eauto.
Qed.

Lemma cleanup_media (d : Database) (k : Kind) :
  table k (cleanupOrphanUploaders d) = table k d.
Proof. destruct k; reflexivity. Qed.

Lemma hasMedia_cleanup (d : Database) (id : N) :
  hasMedia (cleanupOrphanUploaders d) id = hasMedia d id.
Proof. reflexivity. Qed.

Lemma selectMedia_found (k : Kind) (n : N) (d : Database) (item : Media) :
  In item (table k d) -> m_id item = n -> exists found, selectMedia k n d = Some found.
Proof.
  intros Hin Hid. unfold selectMedia.
  destruct (find _ (table k d)) as [m|] eqn:E; [eauto|].
  apply (find_none _ _ E) in Hin. rewrite Hid, N.eqb_refl in Hin. discriminate.
Qed.

(** C4. A delete-all, and a delete-one whose id parameter names a record
    of the kind, removes what it names and then collects the orphans:
    afterwards the uploaders are those of before that still own a media
    record of either kind, so no uploader is left without a record, and an
    uploader that owns another record, of the same kind or of the other
    one, is kept.  A delete-one whose parameter is not a number or names no
    record is answered with an error and leaves the state as it was,
    orphans included. *)
Theorem delete_collects_orphans (uploadDir : string) (k : Kind) (st : State) :
  (let st' := snd (deleteAllRoute uploadDir k st) in
   fst (deleteAllRoute uploadDir k st)
   = RedirectMessage (adminPage k) ("All " ++ noun k ++ "s deleted.")
   /\ table k (db st') = []
   /\ table (otherKind k) (db st') = table (otherKind k) (db st)
   /\ noOrphans (db st') = true
   /\ uploaders (db st')
      = filter (fun u => hasMedia (db st') (u_id u)) (uploaders (db st))
   /\ forall u m, In u (uploaders (db st)) ->
                  In m (table (otherKind k) (db st)) -> m_uploader_id m = u_id u ->
                  In u (uploaders (db st')))
  /\ forall idParam,
       match deleteRoute uploadDir k idParam st with
       | (RedirectMessage _ _, st') =>
           exists n item,
             selectMedia k n (db st) = Some item
             /\ table k (db st') = filter (fun m => negb (N.eqb (m_id m) n)) (table k (db st))
             /\ table (otherKind k) (db st') = table (otherKind k) (db st)
             /\ noOrphans (db st') = true
             /\ forall u m, In u (uploaders (db st)) -> m_uploader_id m = u_id u ->
                   (In m (table k (db st)) /\ m_id m <> n)
                   \/ In m (table (otherKind k) (db st)) ->
                   In u (uploaders (db st'))
       | (RedirectError _ _, st') => st' = st
       | (Download _ _ _, _) => False
       end
       /\ (forall n,
             rowIdOf (JS.numberOfString idParam) = Some n ->
             (exists item, In item (table k (db st)) /\ m_id item = n) ->
             let st' := snd (deleteRoute uploadDir k idParam st) in
             fst (deleteRoute uploadDir k idParam st)
             = RedirectMessage (adminPage k) (Noun k ++ " deleted.")
             /\ table k (db st') = filter (fun m => negb (N.eqb (m_id m) n)) (table k (db st))
             /\ table (otherKind k) (db st') = table (otherKind k) (db st)
             /\ noOrphans (db st') = true
             /\ uploaders (db st')
                = filter (fun u => hasMedia (db st') (u_id u)) (uploaders (db st))
             /\ forall u m, In u (uploaders (db st)) -> m_uploader_id m = u_id u ->
                   (In m (table k (db st)) /\ m_id m <> n)
                   \/ In m (table (otherKind k) (db st)) ->
                   In u (uploaders (db st')))
       /\ ((forall n item,
              rowIdOf (JS.numberOfString idParam) = Some n ->
              In item (table k (db st)) -> m_id item <> n) ->
           (exists e, fst (deleteRoute uploadDir k idParam st)
                      = RedirectError (adminPage k) e)
           /\ snd (deleteRoute uploadDir k idParam st) = st).
Proof.
  split.
  - unfold deleteAllRoute. simpl.
    pose proof (setTable_same k [] (table_seq k (db st)) (db st)) as (E1 & _ & E3 & _ & E5 & _).
    rewrite !cleanup_media. unfold deleteAllMedia. rewrite E1, E3.
    split; [reflexivity|]. split; [reflexivity|]. split; [reflexivity|].
    split; [apply noOrphans_cleanup|]. split.
    { rewrite E5. apply filter_ext. intros u. symmetry. apply hasMedia_cleanup. }
    intros u m Hu Hm He. apply (cleanup_keeps _ u (otherKind k) m); [| |exact He].
    + rewrite E5. exact Hu.
    + rewrite E3. exact Hm.
  - intros idParam.
    assert (Hfound : forall n item, selectMedia k n (db st) = Some item ->
      let st' := mkState (cleanupOrphanUploaders (deleteMedia k n (db st)))
                         (safeUnlink (pathJoin uploadDir (m_filename item)) (fs st)) in
      table k (db st') = filter (fun m => negb (N.eqb (m_id m) n)) (table k (db st))
      /\ table (otherKind k) (db st') = table (otherKind k) (db st)
      /\ noOrphans (db st') = true
      /\ uploaders (db st')
         = filter (fun u => hasMedia (db st') (u_id u)) (uploaders (db st))
      /\ forall u m, In u (uploaders (db st)) -> m_uploader_id m = u_id u ->
            (In m (table k (db st)) /\ m_id m <> n)
            \/ In m (table (otherKind k) (db st)) ->
            In u (uploaders (db st'))).
    { intros n item Hsel. simpl.
      pose proof (setTable_same k
        (filter (fun m => negb (N.eqb (m_id m) n)) (table k (db st)))
        (table_seq k (db st)) (db st)) as (E1 & _ & E3 & _ & E5 & _).
      rewrite !cleanup_media. unfold deleteMedia. rewrite E1, E3.
      split; [reflexivity|]. split; [reflexivity|]. split; [apply noOrphans_cleanup|].
      split.
      { rewrite E5. apply filter_ext. intros u. symmetry. apply hasMedia_cleanup. }
      intros u m Hu He [[Hm Hne]|Hm].
      - apply (cleanup_keeps _ u k m); [rewrite E5; exact Hu | | exact He].
        rewrite E1. apply filter_In. split; [exact Hm|].
        apply negb_true_iff, N.eqb_neq, Hne.
      - apply (cleanup_keeps _ u (otherKind k) m); [rewrite E5; exact Hu | | exact He].
        rewrite E3. exact Hm. }
    assert (Hcase : forall x, x <> JS.NaN ->
      deleteRoute uploadDir k idParam st
      = match rowIdOf x with
        | None => (RedirectError (adminPage k) (Noun k ++ " not found."), st)
        | Some n =>
            match selectMedia k n (db st) with
            | None => (RedirectError (adminPage k) (Noun k ++ " not found."), st)
            | Some item =>
                (RedirectMessage (adminPage k) (Noun k ++ " deleted."),
                 mkState (cleanupOrphanUploaders (deleteMedia k n (db st)))
                         (safeUnlink (pathJoin uploadDir (m_filename item)) (fs st)))
            end
        end ->
      match deleteRoute uploadDir k idParam st with
      | (RedirectMessage _ _, st') =>
          exists n item,
            selectMedia k n (db st) = Some item
            /\ table k (db st') = filter (fun m => negb (N.eqb (m_id m) n)) (table k (db st))
            /\ table (otherKind k) (db st') = table (otherKind k) (db st)
            /\ noOrphans (db st') = true
            /\ forall u m, In u (uploaders (db st)) -> m_uploader_id m = u_id u ->
                  (In m (table k (db st)) /\ m_id m <> n)
                  \/ In m (table (otherKind k) (db st)) ->
                  In u (uploaders (db st'))
      | (RedirectError _ _, st') => st' = st
      | (Download _ _ _, _) => False
      end
      /\ (forall n,
            rowIdOf x = Some n ->
            (exists item, In item (table k (db st)) /\ m_id item = n) ->
            let st' := snd (deleteRoute uploadDir k idParam st) in
            fst (deleteRoute uploadDir k idParam st)
            = RedirectMessage (adminPage k) (Noun k ++ " deleted.")
            /\ table k (db st') = filter (fun m => negb (N.eqb (m_id m) n)) (table k (db st))
            /\ table (otherKind k) (db st') = table (otherKind k) (db st)
            /\ noOrphans (db st') = true
            /\ uploaders (db st')
               = filter (fun u => hasMedia (db st') (u_id u)) (uploaders (db st))
            /\ forall u m, In u (uploaders (db st)) -> m_uploader_id m = u_id u ->
                  (In m (table k (db st)) /\ m_id m <> n)
                  \/ In m (table (otherKind k) (db st)) ->
                  In u (uploaders (db st')))
      /\ ((forall n item, rowIdOf x = Some n -> In item (table k (db st)) -> m_id item <> n) ->
          (exists e, fst (deleteRoute uploadDir k idParam st)
                     = RedirectError (adminPage k) e)
          /\ snd (deleteRoute uploadDir k idParam st) = st)).
    { intros x _ ->.
      destruct (rowIdOf x) as [n|] eqn:Er.
      - destruct (selectMedia k n (db st)) as [item|] eqn:Hsel.
        + destruct (Hfound n item Hsel) as (H1 & H2 & H3 & H4 & H5).
          split; [exists n, item; repeat split; assumption|]. split.
          * intros n' [= <-] _. simpl. repeat split; assumption.
          * intros Hnone. exfalso.
            unfold selectMedia in Hsel. apply find_some in Hsel as [Hin Hid].
            apply N.eqb_eq in Hid. exact (Hnone n item eq_refl Hin Hid).
        + split; [reflexivity|]. split.
          * intros n' [= <-] (item & Hin & Hid).
            destruct (selectMedia_found k n (db st) item Hin Hid) as (found & Hf).
            rewrite Hf in Hsel. discriminate.
          * intros _. simpl. eauto.
      - split; [reflexivity|]. split; [discriminate|]. intros _. simpl. eauto. }
    destruct (JS.numberOfString idParam) as [|neg|q] eqn:En.
    + unfold deleteRoute. rewrite En. split; [reflexivity|].
      split; [discriminate|]. intros _. simpl. eauto.
    + apply Hcase; [discriminate|]. unfold deleteRoute. rewrite En. reflexivity.
    + apply Hcase; [discriminate|]. unfold deleteRoute. rewrite En. reflexivity.
Qed.

Lemma delete_collects_orphans_witness :
  (let '(response, st') := deleteRoute "/up" Photo "1" sampleGallery in
   response = RedirectMessage "/admin/photos" "Photo deleted."
   /\ noOrphans (db st') = true /\ In ann (uploaders (db st')))
  /\ (let '(response, st') := deleteRoute "/up" Photo "99" sampleGallery in
      (exists e, response = RedirectError "/admin/photos" e) /\ st' = sampleGallery).
Proof.
  split.
  - destruct (proj2 (delete_collects_orphans "/up" Photo sampleGallery) "1") as (_ & H & _).
    destruct (H 1%N) as (Hr & _ & _ & Hno & _ & Hkeep).
    + vm_compute. reflexivity.
    + exists (mkMedia 1 1 "11-1.jpg" "ann one.jpg" "image/jpeg" 10 20). simpl. auto.
    + destruct (deleteRoute "/up" Photo "1" sampleGallery) as [response st'].
      split; [exact Hr|]. split; [exact Hno|].
      apply (Hkeep ann (mkMedia 1 1 "44-4.mp4" "ann.mp4" "video/mp4" 10 40)).
      * left. reflexivity.
      * reflexivity.
      * right. left. reflexivity.
  - destruct (proj2 (delete_collects_orphans "/up" Photo sampleGallery) "99") as (_ & _ & H).
    destruct H as [He Hs].
    + intros n item Hn Hin. vm_compute in Hn. injection Hn as <-.
      simpl in Hin. destruct Hin as [<- | [<- | [<- | []]]]; discriminate.
    + destruct (deleteRoute "/up" Photo "99" sampleGallery) as [response st'].
      split; assumption.
Defined.

(** An orphan survives a delete-one that is answered with an error: after
    the failed first upload of Cat the store holds an uploader without a
    record, and a delete request for a photo that does not exist leaves it
    there. *)
Lemma failed_delete_keeps_orphan :
  let st :=
    snd (uploadRoute sampleLimits 5 sampleFault Photo
           (mkUploadRequest (Some "Cat") [sampleFile "a"; sampleFile "b"])
           (mkState (db sampleGallery) (fs sampleState))) in
  let '(response, st') := deleteRoute "/up" Photo "99" st in
  response = RedirectError "/admin/photos" "Photo not found."
  /\ st' = st
  /\ hasMedia (db st') 3 = false
  /\ noOrphans (db st') = false
  /\ fst (deleteRoute "/up" Photo "abc" st) = RedirectError "/admin/photos" "Invalid photo ID."
  /\ snd (deleteRoute "/up" Photo "abc" st) = st.
Proof. vm_compute. repeat split. Qed.

(** ** Archive export *)

Lemma insertSorted_length (a : Media) (l : list Media) :
  List.length (insertSorted a l) = S (List.length l).
Proof.
  induction l as [|b l IH]; simpl; [reflexivity|].
  destruct (comesBefore b a); simpl; [rewrite IH|]; reflexivity.
Qed.

Lemma newestFirst_length (l : list Media) : List.length (newestFirst l) = List.length l.
Proof.
  induction l as [|a l IH]; simpl; [reflexivity|].
  rewrite insertSorted_length, IH. reflexivity.
Qed.

Lemma in_insertSorted (a x : Media) (l : list Media) :
  In x (insertSorted a l) <-> x = a \/ In x l.
Proof.
  induction l as [|b l IH]; simpl; [intuition|].
  destruct (comesBefore b a); simpl; rewrite ?IH; intuition.
Qed.

Lemma in_newestFirst (x : Media) (l : list Media) : In x (newestFirst l) <-> In x l.
Proof.
  induction l as [|a l IH]; simpl; [tauto|].
  rewrite in_insertSorted, IH. intuition.
Qed.

Lemma cleanedUp_after_unlink_rmdir (env : ExportEnv) (s : FileSystem) :
  cleanedUp env (safeRemoveDir (tempDir env) (safeUnlink (archivePath env) s)).
Proof.
  unfold cleanedUp, safeRemoveDir, safeUnlink. simpl. repeat split.
  - intros H. apply filter_In in H as [_ H]. rewrite String.eqb_refl in H. discriminate.
  - intros H. apply filter_In in H as [H _]. apply in_removePath in H. tauto.
  - intros p H. apply filter_In in H as [_ H].
    apply negb_true_iff, orb_false_iff in H. tauto.
Qed.

Lemma cleanedUp_after_rmdir_unlink (env : ExportEnv) (s : FileSystem) :
  cleanedUp env (safeUnlink (archivePath env) (safeRemoveDir (tempDir env) s)).
Proof.
  unfold cleanedUp, safeRemoveDir, safeUnlink. simpl. repeat split.
  - intros H. apply filter_In in H as [_ H]. rewrite String.eqb_refl in H. discriminate.
  - intros H. apply in_removePath in H. tauto.
  - intros p H. apply in_removePath in H as [H _].
    apply filter_In in H as [_ H]. apply negb_true_iff, orb_false_iff in H. tauto.
Qed.

Lemma copyPass_all_missing (uploadDir : string) (k : Kind) (env : ExportEnv)
    (items : list Media) (c : nat) (s : FileSystem) :
  (forall m, In m items -> existsSync (pathJoin uploadDir (m_filename m)) s = false) ->
  copyPass uploadDir k env items c s = (Returned c, s).
Proof.
  induction items as [|m items IH]; simpl; intros H; [reflexivity|].
  rewrite (H m (or_introl eq_refl)). simpl. apply IH. intros m' Hm'. apply H. auto.
Qed.

(** C6. The outcomes of the archive export.  With no record of the kind the
    answer is the nothing-to-download error and the state is untouched (no
    scratch directory, no archive).  With records, the answer follows the
    copy pass and the compression: a failed copy or a failed compression
    gives the could-not-create-archive error, a pass that copied nothing
    (every referenced file is absent) gives the files-missing error, and
    otherwise the archive is sent; in each of these cases neither the
    scratch directory, nor its content, nor the archive file is left. *)
Theorem export_outcomes (uploadDir : string) (k : Kind) (env : ExportEnv) (st : State) :
  let s0 := mkdtempSync (tempDir env) (fs st) in
  let '(response, st') := downloadRoute uploadDir k env st in
  db st' = db st
  /\ (table k (db st) = [] ->
      response = RedirectError (adminPage k) ("No " ++ noun k ++ "s to download.")
      /\ st' = st)
  /\ (table k (db st) <> [] ->
      cleanedUp env (fs st')
      /\ match copyPass uploadDir k env (newestFirst (table k (db st))) 0 s0 with
         | (Thrown _, _) =>
             response = RedirectError (adminPage k)
                          "Could not create ZIP archive on this server."
         | (Returned O, _) =>
             response = RedirectError (adminPage k) (Noun k ++ " files are missing on disk.")
         | (Returned (S _), s1) =>
             match zipResult env with
             | IoDone =>
                 response = Download (archivePath env)
                              ("dan-abi-wedding-" ++ noun k ++ "s-" ++ stamp env ++ ".zip")
                              (listDir (tempDir env) s1)
             | IoFailed _ _ =>
                 response = RedirectError (adminPage k)
                              "Could not create ZIP archive on this server."
             end
         end)
  /\ (table k (db st) <> [] ->
      (forall m, In m (table k (db st)) ->
                 existsSync (pathJoin uploadDir (m_filename m)) s0 = false) ->
      response = RedirectError (adminPage k) (Noun k ++ " files are missing on disk.")).
Proof.
  intros s0.
  destruct (downloadRoute uploadDir k env st) as [response st'] eqn:E.
  unfold downloadRoute in E. rewrite newestFirst_length in E.
  destruct (table k (db st)) as [|m0 l0] eqn:Et.
  { simpl in E. injection E as <- <-.
    split; [reflexivity|]. split; [split; reflexivity|]. split; intros H; contradiction. }
  rewrite <- Et in *.
  assert (Hlen : (List.length (table k (db st)) =? 0)%nat = false) by (rewrite Et; reflexivity).
  rewrite Hlen in E. fold s0 in E. unfold exportTry in E.
  assert (Hmain :
    db st' = db st /\ cleanedUp env (fs st')
    /\ match copyPass uploadDir k env (newestFirst (table k (db st))) 0 s0 with
       | (Thrown _, _) =>
           response = RedirectError (adminPage k)
                        "Could not create ZIP archive on this server."
       | (Returned O, _) =>
           response = RedirectError (adminPage k) (Noun k ++ " files are missing on disk.")
       | (Returned (S _), s1) =>
           match zipResult env with
           | IoDone =>
               response = Download (archivePath env)
                            ("dan-abi-wedding-" ++ noun k ++ "s-" ++ stamp env ++ ".zip")
                            (listDir (tempDir env) s1)
           | IoFailed _ _ =>
               response = RedirectError (adminPage k)
                            "Could not create ZIP archive on this server."
           end
       end).
  { destruct (copyPass uploadDir k env (newestFirst (table k (db st))) 0 s0)
      as [[[|c]|e] s1].
    - simpl in E. injection E as <- <-. simpl.
      split; [reflexivity|]. split; [apply cleanedUp_after_rmdir_unlink | reflexivity].
    - simpl in E. unfold writeWith in E.
      destruct (zipResult env) as [|msg [|]]; simpl in E; injection E as <- <-; simpl;
        (split; [reflexivity|]); (split; [apply cleanedUp_after_unlink_rmdir | reflexivity]).
    - injection E as <- <-. simpl.
      split; [reflexivity|]. split; [apply cleanedUp_after_unlink_rmdir | reflexivity]. }
  destruct Hmain as (Hdb & Hclean & Hcases).
  split; [exact Hdb|]. split; [intros H; rewrite Et in H; discriminate|].
  split; [intros _; split; assumption|].
  intros _ Hmissing.
  rewrite (copyPass_all_missing uploadDir k env _ 0 s0) in Hcases; [exact Hcases|].
  intros m Hm. apply Hmissing, in_newestFirst, Hm.
Qed.

Lemma export_outcomes_witness :
  let env := sampleExportEnv (IoFailed "zip: command not found" true) in
  let '(response, st') := downloadRoute "/up" Photo env sampleGallery in
  response = RedirectError "/admin/photos" "Could not create ZIP archive on this server."
  /\ cleanedUp env (fs st').
Proof.
  intros env.
  pose proof (export_outcomes "/up" Photo env sampleGallery) as H.
  destruct (downloadRoute "/up" Photo env sampleGallery) as [response st'].
  destruct H as (_ & _ & H & _).
  destruct H as [Hc Hm]; [discriminate|].
  vm_compute in Hm. split; [exact Hm | exact Hc].
Defined.

(** ** Staged names *)

Lemma allChars_app p a b :
  allChars p (a ++ b) = allChars p a && allChars p b.
Proof.
  induction a as [|c a IH]; simpl; [reflexivity|].
  rewrite IH, andb_assoc. reflexivity.
Qed.

Lemma digits_string_of_uint (d : Decimal.uint) :
  allChars isDigit (NilEmpty.string_of_uint d) = true.
Proof. induction d; simpl; auto. Qed.

Lemma digits_stringOfN (n : N) : allChars isDigit (JS.stringOfN n) = true.
Proof. apply digits_string_of_uint. Qed.

Lemma digits_repeat_zero (n : nat) : allChars isDigit (JS.repeatChar "0" n) = true.
Proof. induction n; simpl; auto. Qed.

Lemma leadingDigits_app (a r : string) (c : ascii) :
  allChars isDigit a = true -> isDigit c = false ->
  leadingDigits (a ++ String c r) = a.
Proof.
  intros Ha Hc. induction a as [|x a IH]; simpl in *.
  - rewrite Hc. reflexivity.
  - apply andb_prop in Ha as [Hx Ha]. rewrite Hx, (IH Ha). reflexivity.
Qed.

Lemma leadingDigits_all (a : string) :
  allChars isDigit a = true -> leadingDigits a = a.
Proof.
  induction a as [|x a IH]; simpl; [reflexivity|].
  intros H. apply andb_prop in H as [Hx Ha]. rewrite Hx, (IH Ha). reflexivity.
Qed.

Lemma uint_of_padded (n : nat) (x : N) :
  option_map N.of_uint (NilEmpty.uint_of_string (JS.repeatChar "0" n ++ JS.stringOfN x))
  = Some x.
Proof.
  induction n as [|n IH]; simpl.
  - unfold JS.stringOfN. rewrite NilEmpty.usu. simpl.
    rewrite DecimalN.Unsigned.of_to. reflexivity.
  - destruct (NilEmpty.uint_of_string (JS.repeatChar "0" n ++ JS.stringOfN x)) as [d|];
      [|discriminate]. simpl in *. exact IH.
Qed.

Lemma stringOfN_inj (a b : N) : JS.stringOfN a = JS.stringOfN b -> a = b.
Proof.
  intros H. pose proof (uint_of_padded 0 a) as Ha. pose proof (uint_of_padded 0 b) as Hb.
  simpl in Ha, Hb. rewrite H in Ha. congruence.
Qed.

Lemma embeddedNumber_staged (k : Kind) (m : Media) :
  embeddedNumber (stagedName k m) = Some (m_id m).
Proof.
  unfold embeddedNumber, stagedName, JS.padStart.
  set (rest := sanitizeArchiveFilename _).
  change ("-" ++ rest) with (String "-" rest).
  rewrite leadingDigits_app.
  - apply uint_of_padded.
  - rewrite allChars_app, digits_repeat_zero, digits_stringOfN. reflexivity.
  - reflexivity.
Qed.

Lemma stagedName_inj (k : Kind) (m1 m2 : Media) :
  stagedName k m1 = stagedName k m2 -> m_id m1 = m_id m2.
Proof.
  intros H. pose proof (embeddedNumber_staged k m1) as H1.
  rewrite H, embeddedNumber_staged in H1. congruence.
Qed.

Lemma NoDup_stagedNames (k : Kind) (items : list Media) :
  NoDup (map m_id items) -> NoDup (map (stagedName k) items).
Proof.
  induction items as [|m items IH]; simpl; intros H; [constructor|].
  inversion H as [|? ? Hn Hr]; subst. constructor; [|apply IH, Hr].
  intros Hin. apply in_map_iff in Hin as (m' & He & Hm').
  apply Hn. rewrite <- (stagedName_inj k m' m He). apply in_map, Hm'.
Qed.

Lemma insertSorted_perm (a : Media) (l : list Media) : Permutation (insertSorted a l) (a :: l).
Proof.
  induction l as [|b l IH]; simpl; [apply Permutation_refl|].
  destruct (comesBefore b a); [|apply Permutation_refl].
  eapply Permutation_trans; [apply perm_skip, IH | apply perm_swap].
Qed.

Lemma newestFirst_perm (l : list Media) : Permutation (newestFirst l) l.
Proof.
  induction l as [|a l IH]; simpl; [constructor|].
  eapply Permutation_trans; [apply insertSorted_perm | apply perm_skip, IH].
Qed.

Lemma NoDup_newestFirst_ids (l : list Media) :
  NoDup (map m_id l) -> NoDup (map m_id (newestFirst l)).
Proof.
  intros H. eapply Permutation_NoDup; [|exact H].
  apply Permutation_map, Permutation_sym, newestFirst_perm.
Qed.

Lemma in_writeFile (p q : string) (s : FileSystem) :
  In q (files (writeFile p s)) <-> q = p \/ In q (files s).
Proof.
  unfold writeFile. simpl. rewrite in_removePath.
  destruct (String.eqb_spec q p); intuition congruence.
Qed.

Lemma writeWith_grows (r : IOResult) (p : string) (s s' : FileSystem) (o : Outcome unit) :
  writeWith r p s = (o, s') ->
  dirs s' = dirs s
  /\ (forall q, In q (files s) -> In q (files s'))
  /\ (forall q, In q (files s') -> q = p \/ In q (files s))
  /\ (o = Returned tt -> In p (files s')).
Proof.
  unfold writeWith. destruct r as [|msg [|]]; intros [= <- <-]; simpl;
    repeat split; try discriminate; intros;
    try (apply in_writeFile; auto; fail); try (apply in_writeFile; assumption); auto.
Qed.

Lemma existsSync_grows (p : string) (s s' : FileSystem) :
  dirs s' = dirs s -> (forall q, In q (files s) -> In q (files s')) ->
  existsSync p s = true -> existsSync p s' = true.
Proof.
  unfold existsSync. intros Hd Hf H. rewrite Hd.
  apply orb_true_iff in H as [H|H]; apply orb_true_iff; [left|right; exact H].
  apply existsb_exists in H as (q & Hq & He). apply existsb_exists. eauto.
Qed.

Section CopyPass.

Variable uploadDir : string.
Variable k : Kind.
Variable env : ExportEnv.

Let source (m : Media) : string := pathJoin uploadDir (m_filename m).
Let target (m : Media) : string := pathJoin (tempDir env) (stagedName k m).

Lemma copyPass_grows (items : list Media) (c : nat) (s s1 : FileSystem) (o : Outcome nat) :
  copyPass uploadDir k env items c s = (o, s1) ->
  dirs s1 = dirs s
  /\ (forall q, In q (files s) -> In q (files s1))
  /\ (forall q, In q (files s1) ->
       In q (files s) \/ exists m, In m items /\ q = target m).
Proof.
  revert c s. induction items as [|m items IH]; intros c s; simpl.
  - intros [= <- <-]. repeat split; auto.
  - destruct (existsSync (pathJoin uploadDir (m_filename m)) s); simpl.
    + destruct (writeWith _ _ s) as [[[]|e] s'] eqn:Ew;
        apply writeWith_grows in Ew as (Hd & Hf & Hb & _).
      * intros H. apply IH in H as (Hd1 & Hf1 & Hb1).
        split; [congruence|]. split; [auto|].
        intros q Hq. apply Hb1 in Hq as [Hq | (m' & Hm' & ->)]; [|right; eauto].
        apply Hb in Hq as [-> | Hq]; [right; exists m; auto | left; exact Hq].
      * intros [= <- <-]. split; [exact Hd|]. split; [exact Hf|].
        intros q Hq. apply Hb in Hq as [-> | Hq]; [right; exists m; auto | left; exact Hq].
    + intros H. apply IH in H as (Hd1 & Hf1 & Hb1).
      split; [exact Hd1|]. split; [exact Hf1|].
      intros q Hq. apply Hb1 in Hq as [Hq | (m' & Hm' & ->)]; [left; exact Hq | right; eauto].
Qed.

Lemma copyPass_stages (items : list Media) (c n : nat) (s s1 : FileSystem) :
  copyPass uploadDir k env items c s = (Returned n, s1) ->
  forall m, In m items -> existsSync (source m) s = true -> In (target m) (files s1).
Proof.
  revert c s. induction items as [|m0 items IH]; intros c s; simpl; [tauto|].
  intros H m [<- | Hm] Hex.
  - unfold source in Hex. rewrite Hex in H. simpl in H.
    destruct (writeWith _ _ s) as [[[]|e] s'] eqn:Ew; [|discriminate].
    apply writeWith_grows in Ew as (_ & _ & _ & Hin).
    apply copyPass_grows in H as (_ & Hf & _). apply Hf, Hin. reflexivity.
  - destruct (existsSync (pathJoin uploadDir (m_filename m0)) s); simpl in H.
    + destruct (writeWith _ _ s) as [[[]|e] s'] eqn:Ew; [|discriminate].
      apply writeWith_grows in Ew as (Hd & Hf & _ & _).
      apply (IH _ _ H m Hm). apply (existsSync_grows _ s s' Hd Hf Hex).
    + apply (IH _ _ H m Hm Hex).
Qed.

End CopyPass.

(** C7, as amended.  The name a record is staged under is the id of the
    record, padded with zeros to four digits at least, then a hyphen, then
    the sanitized original file name (or the sanitized fallback name when
    the original name is empty).  When the copy pass returns, every record
    whose file was on disk has its copy under that name in the scratch
    directory, the pass has written nothing else, and, ids being a key of
    the table, the staged names are pairwise distinct. *)
Theorem staged_copy_names (uploadDir : string) (k : Kind) (env : ExportEnv)
    (d : Database) (s s1 : FileSystem) (n : nat) :
  NoDup (map m_id (table k d)) ->
  copyPass uploadDir k env (newestFirst (table k d)) 0 s = (Returned n, s1) ->
  (forall m, In m (table k d) ->
     stagedName k m
     = JS.padStart (JS.stringOfN (m_id m)) 4 "0" ++ "-"
       ++ sanitizeArchiveFilename
            (JS.orElse (m_original_name m)
               (noun k ++ "-" ++ JS.stringOfN (m_id m)
                ++ JS.orElse (JS.extname (m_filename m)) ""))
     /\ embeddedNumber (stagedName k m) = Some (m_id m)
     /\ (existsSync (pathJoin uploadDir (m_filename m)) s = true ->
         In (pathJoin (tempDir env) (stagedName k m)) (files s1)))
  /\ (forall p, In p (files s1) ->
       In p (files s)
       \/ exists m, In m (table k d) /\ p = pathJoin (tempDir env) (stagedName k m))
  /\ NoDup (map (stagedName k) (newestFirst (table k d)))
  /\ (forall m1 m2, In m1 (table k d) -> In m2 (table k d) ->
       stagedName k m1 = stagedName k m2 -> m1 = m2).
Proof.
  intros Hkey Hpass. split; [|split; [|split]].
  - intros m Hm. split; [reflexivity|]. split; [apply embeddedNumber_staged|].
    intros Hex. apply (copyPass_stages uploadDir k env _ _ _ _ _ Hpass m); [|exact Hex].
    apply in_newestFirst, Hm.
  - intros p Hp. apply (copyPass_grows uploadDir k env _ _ _ _ _ Hpass) in Hp
      as [Hp | (m & Hm & ->)]; [left; exact Hp|].
    right. exists m. split; [apply in_newestFirst, Hm | reflexivity].
  - apply NoDup_stagedNames, NoDup_newestFirst_ids, Hkey.
  - intros m1 m2 H1 H2 He.
    apply (NoDup_map_inj m_id (table k d)); auto. apply (stagedName_inj k), He.
Qed.

Lemma staged_copy_names_witness :
  let s1 := snd (copyPass "/up" Photo (sampleExportEnv IoDone)
                   (newestFirst (photos (db sampleGallery))) 0 (fs sampleGallery)) in
  In "/tmp/wedding-X/0002-ben-two.jpg" (files s1)
  /\ NoDup (map (stagedName Photo) (newestFirst (photos (db sampleGallery)))).
Proof.
  destruct (staged_copy_names "/up" Photo (sampleExportEnv IoDone) (db sampleGallery)
              (fs sampleGallery)
              (snd (copyPass "/up" Photo (sampleExportEnv IoDone)
                      (newestFirst (photos (db sampleGallery))) 0 (fs sampleGallery)))
              2)
    as (H1 & _ & H3 & _).
  - simpl. repeat constructor; simpl; intuition discriminate.
  - vm_compute. reflexivity.
  - split; [|exact H3].
    destruct (H1 (mkMedia 2 2 "22-2.jpg" "ben/two.jpg" "image/jpeg" 10 30)) as (_ & _ & H);
      [simpl; auto|].
    apply H. vm_compute. reflexivity.
Defined.

(** The claim C7 as stated fails: in [sampleGallery] the query lists the
    photos 3, 2, 1 and the numbers in the staged names are these ids, which
    do not grow along the query; with the time stamps of [skewedDatabase]
    they neither grow nor decrease along it. *)
Lemma staged_numbers_not_in_query_order :
  ~ numbersFollowQueryOrder Photo (db sampleGallery)
  /\ stagedNumbers Photo skewedDatabase = [Some 2%N; Some 3%N; Some 1%N]
  /\ map (stagedName Photo) (newestFirst (photos (db sampleGallery)))
     = ["0003-photo-3.jpg"; "0002-ben-two.jpg"; "0001-ann one.jpg"].
Proof.
  split; [|split; vm_compute; reflexivity].
  intros (l & H & Ha). vm_compute in H.
  destruct l as [|a [|b [|c [|? ?]]]]; try discriminate H.
  injection H as <- <- <-. discriminate Ha.
Qed.

(** ** Stored file names *)

Lemma extScanStep_inv path i code st :
  String.get i path = Some code ->
  extScanInv path (S i) st ->
  match JS.extScanStep (Z.of_nat i) code st with
  | inl st' => extScanInv path (S i) st'
  | inr st' => extScanInv path i st'
  end.
Proof.
  intros Hget (I1 & I4 & I2 & I3).
  unfold JS.extScanStep.
  destruct (Ascii.eqb_spec code "/") as [->|Hns].
  - destruct (JS.matchedSlash st) eqn:Hms; simpl.
    + specialize (I4 eq_refl). specialize (I1 I4).
      unfold extScanInv. repeat split; try tauto; try congruence.
    + unfold extScanInv; simpl. repeat split; try tauto; try apply I2; try apply I3; auto.
  - assert (Hi : forall e, e <> -1 -> Z.of_nat (S i) <= e ->
                 (forall j, (S i <= j)%nat -> Z.of_nat j < e -> String.get j path <> Some "/"%char) ->
                 forall j, (i <= j)%nat -> Z.of_nat j < e -> String.get j path <> Some "/"%char).
    { intros e _ _ H j Hj Hlt. destruct (Nat.eq_dec j i) as [->|Hne].
      - rewrite Hget. congruence.
      - apply H; [lia | exact Hlt]. }
    destruct (Z.eqb_spec (JS.endPos st) (-1)) as [He|He]; simpl.
    + specialize (I1 He).
      destruct (Ascii.eqb_spec code ".") as [->|Hnd]; simpl.
      * rewrite I1. simpl. unfold extScanInv; simpl.
        repeat split; try lia; try discriminate.
        -- intros j Hj Hlt. assert (j = i) as -> by lia. rewrite Hget. congruence.
        -- rewrite Nat2Z.id. exact Hget.
      * rewrite I1. simpl. unfold extScanInv; simpl.
        repeat split; try lia; try discriminate; try congruence.
        intros j Hj Hlt. assert (j = i) as -> by lia. rewrite Hget. congruence.
    + destruct (I2 He) as [Hle Hall].
      assert (Hms : JS.matchedSlash st = false).
      { destruct (JS.matchedSlash st); [exfalso; auto | reflexivity]. }
      destruct (Ascii.eqb_spec code ".") as [->|Hnd]; simpl.
      * destruct (Z.eqb_spec (JS.startDot st) (-1)) as [Hs|Hs]; simpl.
        -- unfold extScanInv; simpl. repeat split; try lia; try congruence.
           ++ apply Hi; auto.
           ++ rewrite Nat2Z.id. exact Hget.
        -- destruct (I3 Hs) as [Hr Hd].
           destruct (Z.eqb_spec (JS.preDotState st) 1); simpl;
             unfold extScanInv; simpl; repeat split; try lia; try congruence;
             try (apply Hi; auto).
      * destruct (Z.eqb_spec (JS.startDot st) (-1)) as [Hs|Hs]; simpl.
        -- unfold extScanInv; simpl. repeat split; try lia; try congruence.
           apply Hi; auto.
        -- destruct (I3 Hs) as [Hr Hd].
           unfold extScanInv; simpl; repeat split; try lia; try congruence;
             try (apply Hi; auto).
Qed.

Lemma extScanLoop_inv path n st :
  extScanInv path n st ->
  exists n', extScanInv path n' (JS.extScanLoop path n st).
Proof.
  revert st. induction n as [|i IH]; intros st Hinv; simpl.
  - exists 0%nat. exact Hinv.
  - destruct (String.get i path) as [code|] eqn:Hget; [|exists (S i); exact Hinv].
    pose proof (extScanStep_inv path i code st Hget Hinv) as Hstep.
    destruct (JS.extScanStep (Z.of_nat i) code st) as [st'|st'].
    + exists (S i). exact Hstep.
    + apply IH, Hstep.
Qed.

Lemma extScanInit_inv path n : extScanInv path n JS.extScanInit.
Proof. unfold extScanInv; simpl. repeat split; try lia; try congruence. Qed.

Lemma allChars_substring (p : ascii -> bool) (s : string) (a m : nat) :
  (forall j c, (a <= j < a + m)%nat -> String.get j s = Some c -> p c = true) ->
  allChars p (substring a m s) = true.
Proof.
  revert a m. induction s as [|x s IH]; intros a m H.
  - destruct a, m; reflexivity.
  - destruct a as [|a].
    + destruct m as [|m]; [reflexivity|]. simpl.
      rewrite (H 0%nat x) by (try lia; reflexivity). simpl.
      apply IH. intros j c Hj Hg. apply (H (S j) c); [lia | exact Hg].
    + simpl. apply IH. intros j c Hj Hg. apply (H (S j) c); [lia | exact Hg].
Qed.

Lemma substring_head (s : string) (a m : nat) (c : ascii) :
  String.get a s = Some c -> exists r, substring a (S m) s = String c r.
Proof.
  revert a. induction s as [|x s IH]; intros a; [destruct a; discriminate|].
  destruct a as [|a]; simpl.
  - intros [= ->]. eauto.
  - apply IH.
Qed.

Lemma extname_shape (path : string) :
  allChars notSlash (JS.extname path) = true
  /\ (JS.extname path = "" \/ exists r, JS.extname path = String "." r).
Proof.
  unfold JS.extname.
  destruct (extScanLoop_inv path (String.length path) JS.extScanInit (extScanInit_inv _ _))
    as (n & I1 & I4 & I2 & I3).
  set (st := JS.extScanLoop path (String.length path) JS.extScanInit) in *.
  destruct (Z.eqb_spec (JS.startDot st) (-1)) as [Hs|Hs]; simpl; [auto|].
  destruct (Z.eqb_spec (JS.endPos st) (-1)) as [He|He]; simpl; [auto|].
  destruct (_ || _); [auto|].
  destruct (I3 Hs) as [Hr Hd]. destruct (I2 He) as [Hle Hall].
  split.
  - apply allChars_substring. intros j c Hj Hg.
    unfold notSlash. apply negb_true_iff, Ascii.eqb_neq. intros ->.
    apply (Hall j); [lia | lia | exact Hg].
  - right. replace (Z.to_nat (JS.endPos st - JS.startDot st))
      with (S (Z.to_nat (JS.endPos st - JS.startDot st - 1))) by lia.
    apply substring_head, Hd.
Qed.

Lemma allChars_impl (p q : ascii -> bool) (s : string) :
  (forall c, p c = true -> q c = true) -> allChars p s = true -> allChars q s = true.
Proof.
  intros Hpq. induction s as [|c s IH]; simpl; [reflexivity|].
  intros H. apply andb_prop in H as [Hc Hs]. rewrite (Hpq c Hc), (IH Hs). reflexivity.
Qed.

Lemma isDigit_notSlash (c : ascii) : isDigit c = true -> notSlash c = true.
Proof.
  unfold notSlash. destruct (Ascii.eqb_spec c "/") as [->|_]; [discriminate | reflexivity].
Qed.

Lemma append_assoc3 (a b c : string) : (a ++ b) ++ c = a ++ (b ++ c).
Proof. induction a as [|x a IH]; simpl; [reflexivity | rewrite IH; reflexivity]. Qed.

Lemma append_cancel (a x y : string) : a ++ x = a ++ y -> x = y.
Proof. induction a as [|c a IH]; simpl; [tauto | intros [= H]; auto]. Qed.

Lemma append_empty_r (a : string) : a ++ "" = a.
Proof. induction a as [|x a IH]; simpl; [reflexivity | rewrite IH; reflexivity]. Qed.

Lemma leadingDigits_number_ext (n : N) (path : string) :
  leadingDigits (JS.stringOfN n ++ JS.extname path) = JS.stringOfN n.
Proof.
  destruct (extname_shape path) as [_ [-> | [r ->]]].
  - rewrite append_empty_r. apply leadingDigits_all, digits_stringOfN.
  - apply leadingDigits_app; [apply digits_stringOfN | reflexivity].
Qed.

Lemma storageFilename_unfold (now random : N) (original : string) :
  storageFilename now random original
  = JS.stringOfN now ++ String "-" (JS.stringOfN random ++ JS.extname original).
Proof. unfold storageFilename. rewrite append_assoc3. reflexivity. Qed.

(** C9, as amended.  The stored name is the time stamp, a hyphen, the
    random number and the extension of the original name.  It holds no
    slash, so it names a file of the upload directory itself; it depends on
    the original name through its extension only; and two stored names
    made from different time stamps or different random numbers differ,
    whatever the original names are. *)
Theorem stored_name_properties (now random : N) (original : string) :
  allChars notSlash (storageFilename now random original) = true
  /\ (forall original',
        JS.extname original' = JS.extname original ->
        storageFilename now random original' = storageFilename now random original)
  /\ (forall now' random' original',
        storageFilename now' random' original' = storageFilename now random original ->
        now' = now /\ random' = random /\ JS.extname original' = JS.extname original).
Proof.
  split; [|split].
  - rewrite storageFilename_unfold, allChars_app. simpl. rewrite allChars_app.
    rewrite !(allChars_impl isDigit notSlash _ isDigit_notSlash (digits_stringOfN _)).
    rewrite (proj1 (extname_shape original)). reflexivity.
  - intros original' He. unfold storageFilename. rewrite He. reflexivity.
  - intros now' random' original' H. rewrite !storageFilename_unfold in H.
    assert (Hn : JS.stringOfN now' = JS.stringOfN now).
    { apply (f_equal leadingDigits) in H.
      rewrite !leadingDigits_app in H by (apply digits_stringOfN || reflexivity).
      exact H. }
    rewrite Hn in H. apply append_cancel in H. injection H as H.
    assert (Hr : JS.stringOfN random' = JS.stringOfN random).
    { apply (f_equal leadingDigits) in H. rewrite !leadingDigits_number_ext in H. exact H. }
    rewrite Hr in H. apply append_cancel in H.
    split; [apply stringOfN_inj, Hn|]. split; [apply stringOfN_inj, Hr | exact H].
Qed.

Lemma stored_name_properties_witness :
  storageFilename 1700000000000 123456789 "../../etc/passwd.txt"
  = storageFilename 1700000000000 123456789 "holiday.txt"
  /\ allChars notSlash (storageFilename 1700000000000 123456789 "../../etc/passwd.txt") = true.
Proof.
  destruct (stored_name_properties 1700000000000 123456789 "holiday.txt") as (_ & H & _).
  split.
  - apply H. vm_compute. reflexivity.
  - apply (stored_name_properties 1700000000000 123456789 "../../etc/passwd.txt").
Defined.

(** The claim C9 as stated fails: the stored name changes with the original
    name (its extension is kept), and two uploads that draw the same time
    stamp and the same random number under the same extension receive the
    same stored name. *)
Lemma stored_name_depends_and_collides :
  ~ storedNameIgnoresOriginal
  /\ storageFilename 5 7 "a.jpg" = "5-7.jpg"
  /\ storageFilename 5 7 "a.png" = "5-7.png"
  /\ storageFilename 5 7 "b.jpg" = storageFilename 5 7 "a.jpg".
Proof.
  split; [|repeat split].
  intros H. specialize (H 5%N 7%N "a.jpg" "a.png"). vm_compute in H. discriminate H.
Qed.

(** ** Configuration *)

Lemma envNumber_absent (v : option string) (dflt : Z) :
  v = None \/ v = Some "" -> envNumber v dflt = JS.ofZ dflt.
Proof. intros [-> | ->]; reflexivity. Qed.

Lemma limitsOfEnv_default (env : Env) :
  env "MAX_VIDEOS_PER_PERSON" = None -> env "MAX_TOTAL_VIDEOS" = None ->
  limitsOfEnv env = Some (mkLimits 10 400).
Proof.
  intros H1 H2. unfold limitsOfEnv, MAX_VIDEOS_PER_PERSON, MAX_TOTAL_VIDEOS.
  rewrite H1, H2. reflexivity.
Qed.

(** C8, at the failing input.  With MAX_VIDEOS_PER_PERSON set to a text that
    is not a number, the configured limit is NaN and not the default 10;
    the same holds of the two other variables.  An absent or empty variable
    does give the default. *)
Theorem non_numeric_limit_is_NaN :
  let env : Env := fun v =>
    if String.eqb v "MAX_VIDEOS_PER_PERSON" then Some "abc"
    else if String.eqb v "MAX_TOTAL_VIDEOS" then Some "many"
    else if String.eqb v "MAX_VIDEO_SIZE_MB" then Some "1200MB"
    else None in
  MAX_VIDEOS_PER_PERSON env = JS.NaN
  /\ MAX_TOTAL_VIDEOS env = JS.NaN
  /\ MAX_VIDEO_SIZE_MB env = JS.NaN
  /\ MAX_VIDEOS_PER_PERSON env <> JS.ofZ 10
  /\ limitsOfEnv env = None
  /\ MAX_VIDEOS_PER_PERSON (fun _ => None) = JS.ofZ 10
  /\ MAX_TOTAL_VIDEOS (fun _ => None) = JS.ofZ 400
  /\ MAX_VIDEO_SIZE_MB (fun _ => None) = JS.ofZ 1200.
Proof.
  vm_compute. repeat split; try reflexivity. discriminate.
Qed.

(** * Further properties of server.js *)

(** ** Invariants of the store *)

Lemma keyed_snoc (ids : list N) (seq : N) :
  keyed ids seq -> keyed (ids ++ [(seq + 1)%N]) (seq + 1).
Proof.
  intros [Hnd Hle]. split.
  - apply NoDup_app; [exact Hnd | repeat constructor; simpl; tauto |].
    intros x Hx [<-|[]]. rewrite Forall_forall in Hle. apply Hle in Hx. lia.
  - apply Forall_app. split.
    + eapply Forall_impl; [|exact Hle]. simpl. intros; lia.
    + repeat constructor. lia.
Qed.

(** A [DELETE ... WHERE] keeps a unique column unique. *)
Lemma filter_keeps_key {Row Key : Type} (column : Row -> Key) (keep : Row -> bool)
    (rows : list Row) (Hkey : NoDup (map column rows)) :
  NoDup (map column (filter keep rows)).
Proof.
  induction rows as [|r rows IH]; simpl; [constructor|].
  simpl in Hkey. inversion Hkey as [|? ? Hn Hr]; subst.
  destruct (keep r); simpl; [|auto].
  constructor; [|auto]. intros Hin. apply Hn.
  apply in_map_iff in Hin as (x & Hx & Hin). apply filter_In in Hin as [Hin _].
  rewrite <- Hx. apply in_map, Hin.
Qed.

Lemma keyed_filter {A} (f : A -> N) (p : A -> bool) (l : list A) (seq : N) :
  keyed (map f l) seq -> keyed (map f (filter p l)) seq.
Proof.
  intros [Hnd Hle]. split; [apply filter_keeps_key, Hnd|].
  rewrite Forall_forall in *. intros x Hx. apply Hle.
  apply in_map_iff in Hx as (a & <- & Ha). apply filter_In in Ha as [Ha _].
  apply in_map, Ha.
Qed.

Lemma wellFormed_empty : wellFormed emptyDatabase.
Proof.
  unfold wellFormed, keyed. simpl.
  split; [split; constructor|]. split; [intros []; split; constructor|].
  split; [constructor|]. split; [intros [] m []|intros u []].
Qed.

Lemma normalizeName_trim (name : string) : normalizeName (JS.trim name) = normalizeName name.
Proof. unfold normalizeName. rewrite trim_idem. reflexivity. Qed.

(** [getOrCreateUploader] keeps the constraints, and the row it returns is
    in the table. *)
Lemma getOrCreateUploader_wellFormed (now : N) (name : string) (d d1 : Database)
    (u : UploaderRef) :
  wellFormed d -> JS.trim name <> "" ->
  getOrCreateUploader now name d = (Returned u, d1) ->
  wellFormed d1
  /\ (exists row, In row (uploaders d1) /\ refOf row = u)
  /\ (forall row, In row (uploaders d) -> In row (uploaders d1)).
Proof.
  intros (Hk & Hm & Hn & Hfk & Hrow) Hname Hg.
  pose proof (getOrCreateUploader_cases now name d) as Hc.
  destruct (selectUploader (normalizeName name) d) as [row|] eqn:E.
  - rewrite Hc in Hg. injection Hg as <- <-.
    split; [unfold wellFormed; auto|].
    split; [|auto]. exists row. split; [|reflexivity].
    apply (find_some _ _ E).
  - cbv zeta in Hc. rewrite Hc in Hg. injection Hg as <- <-.
    unfold selectUploader in E.
    split; [|split].
    + unfold wellFormed. simpl uploaders. simpl uploaders_seq.
      split; [rewrite map_app; apply keyed_snoc, Hk|].
      split; [intros []; [exact (Hm Photo) | exact (Hm Video)]|].
      split.
      { rewrite map_app. simpl.
        apply NoDup_app; [exact Hn | repeat constructor; simpl; tauto |].
        intros x Hx [<-|[]]. apply in_map_iff in Hx as (r & Hr & Hin).
        apply (find_none _ _ E) in Hin. rewrite Hr, String.eqb_refl in Hin. discriminate. }
      split.
      { intros k m Hin. destruct (Hfk k m) as (r & Hr & He); [destruct k; exact Hin|].
        exists r. split; [apply in_or_app; left; exact Hr | exact He]. }
      intros r Hr. apply in_app_or in Hr as [Hr | [<- | []]]; [apply Hrow, Hr|].
      simpl. rewrite normalizeName_trim, trim_idem. auto.
    + eexists. split; [simpl; apply in_or_app; right; left; reflexivity | reflexivity].
    + intros row Hr. simpl. apply in_or_app. left. exact Hr.
Qed.

Section InsertFacts.

Variable now : N.
Variable insertFault : Kind -> list Media -> UploadedFile -> option string.

Lemma insertMedia_wellFormed (k : Kind) (uploaderId : N) (f : UploadedFile)
    (d d' : Database) (o : Outcome unit) :
  wellFormed d ->
  (exists row, In row (uploaders d) /\ u_id row = uploaderId) ->
  insertMedia now insertFault k uploaderId f d = (o, d') ->
  wellFormed d' /\ uploaders d' = uploaders d.
Proof.
  intros Hwf Hu. unfold insertMedia.
  destruct (insertFault k (table k d) f); intros [= <- <-]; [auto|].
  destruct Hwf as (Hk & Hm & Hn & Hfk & Hrow).
  pose proof (setTable_same k
    (table k d ++ [mkMedia (table_seq k d + 1) uploaderId (f_filename f)
                           (f_originalname f) (f_mimetype f) (f_size f) now])%list
    (table_seq k d + 1)%N d) as (E1 & E2 & E3 & E4 & E5 & E6).
  split; [|exact E5].
  unfold wellFormed. rewrite E5, E6.
  split; [exact Hk|]. split; [|split; [exact Hn|split; [|exact Hrow]]].
  - intros k'. destruct (Hm k) as [Hnd Hle].
    assert (Hsame : k' = k \/ k' = otherKind k) by (destruct k, k'; auto).
    destruct Hsame as [-> | ->].
    + rewrite E1, E2, map_app. apply keyed_snoc. split; assumption.
    + rewrite E3, E4. apply Hm.
  - intros k' m Hin.
    assert (Hsame : k' = k \/ k' = otherKind k) by (destruct k, k'; auto).
    destruct Hsame as [-> | ->].
    + rewrite E1 in Hin. apply in_app_or in Hin as [Hin | [<- | []]].
      * apply (Hfk k m Hin).
      * simpl. destruct Hu as (row & Hr & He). eauto.
    + rewrite E3 in Hin. apply (Hfk _ m Hin).
Qed.

Lemma insertEach_wellFormed (k : Kind) (uploaderId : N) (l : list UploadedFile)
    (d d' : Database) (o : Outcome unit) :
  wellFormed d ->
  (exists row, In row (uploaders d) /\ u_id row = uploaderId) ->
  insertEach now insertFault k uploaderId l d = (o, d') ->
  wellFormed d'.
Proof.
  revert d. induction l as [|f l IH]; intros d Hwf Hu; simpl.
  - intros [= <- <-]. exact Hwf.
  - destruct (insertMedia now insertFault k uploaderId f d) as [[[]|e] d1] eqn:Em;
      destruct (insertMedia_wellFormed k uploaderId f d d1 _ Hwf Hu Em) as [Hwf1 Hups].
    + apply IH; [exact Hwf1 | rewrite Hups; exact Hu].
    + intros [= <- <-]. exact Hwf1.
Qed.

End InsertFacts.

Lemma submittedName_trimmed (req : UploadRequest) :
  JS.trim (submittedName req) = submittedName req.
Proof. unfold submittedName. apply trim_idem. Qed.

(** X1. An upload route keeps the constraints of the schema: row ids stay
    primary keys below their counters, normalized names stay unique, every
    media row refers to an uploader row, and uploader names stay trimmed
    and non-empty.  It removes no uploader row. *)
Theorem uploadRoute_wellFormed (limits : Limits) (now : N)
    (insertFault : Kind -> list Media -> UploadedFile -> option string)
    (k : Kind) (req : UploadRequest) (st : State) :
  wellFormed (db st) ->
  let st' := snd (uploadRoute limits now insertFault k req st) in
  wellFormed (db st')
  /\ forall row, In row (uploaders (db st)) -> In row (uploaders (db st')).
Proof.
  intros Hwf st'. subst st'.
  destruct (String.eqb_spec (submittedName req) "") as [Hname|Hname].
  { unfold uploadRoute. fold (submittedName req). rewrite Hname. simpl. auto. }
  destruct (req_files req) as [|f0 l0] eqn:Efiles.
  { unfold uploadRoute. fold (submittedName req).
    apply String.eqb_neq in Hname. rewrite Hname, Efiles. simpl. auto. }
  assert (Hfiles : req_files req <> []) by (rewrite Efiles; discriminate).
  destruct (uploadRoute_valid limits now insertFault k req st Hname Hfiles)
    as (u & d1 & Hg & Ht & Hr).
  assert (Htrim : JS.trim (submittedName req) <> "")
    by (rewrite submittedName_trimmed; exact Hname).
  destruct (getOrCreateUploader_wellFormed now _ _ _ _ Hwf Htrim Hg)
    as (Hwf1 & (row & Hrow & Href) & Hkeep).
  assert (Hu : exists r, In r (uploaders d1) /\ u_id r = r_id u).
  { exists row. split; [exact Hrow | rewrite <- Href; reflexivity]. }
  rewrite Hr.
  destruct (decideAdmission limits k _ _ (req_files req)) as [reason|acc rej];
    [simpl; auto|].
  destruct (insertEach now insertFault k (r_id u) acc d1) as [[[]|e] d2] eqn:Ei;
    simpl; [|auto].
  split; [apply (insertEach_wellFormed now insertFault k (r_id u) acc d1 d2 _ Hwf1 Hu Ei)|].
  apply insertEach_returned in Ei as (Hups & _). rewrite Hups. exact Hkeep.
Qed.

Lemma uploadRoute_wellFormed_witness :
  wellFormed
    (db (snd (uploadRoute sampleLimits 5 sampleFault Video
                (mkUploadRequest (Some "Vera") [sampleFile "a"; sampleFile "b"])
                sampleState))).
Proof.
  apply (uploadRoute_wellFormed sampleLimits 5 sampleFault Video
           (mkUploadRequest (Some "Vera") [sampleFile "a"; sampleFile "b"]) sampleState).
  exact wellFormed_empty.
Defined.

Lemma wellFormed_cleanup (d d1 : Database) :
  wellFormed d ->
  uploaders d1 = uploaders d -> uploaders_seq d1 = uploaders_seq d ->
  (forall k, table_seq k d1 = table_seq k d) ->
  (forall k, exists p, table k d1 = filter p (table k d)) ->
  wellFormed (cleanupOrphanUploaders d1).
Proof.
  intros (Hk & Hm & Hn & Hfk & Hrow) Hu Hs Hseq Hsub.
  unfold wellFormed. simpl uploaders. simpl uploaders_seq. rewrite Hu, Hs.
  split; [apply keyed_filter, Hk|].
  split.
  { intros k. rewrite cleanup_media.
    assert (E : table_seq k (cleanupOrphanUploaders d1) = table_seq k d1)
      by (destruct k; reflexivity).
    rewrite E, Hseq. destruct (Hsub k) as [p ->]. apply keyed_filter, Hm. }
  split; [apply filter_keeps_key, Hn|].
  split.
  - intros k m Hin. rewrite cleanup_media in Hin. pose proof Hin as Hin1.
    destruct (Hsub k) as [p Hp]. rewrite Hp in Hin. apply filter_In in Hin as [Hin _].
    destruct (Hfk k m Hin) as (u & Hu' & He). exists u. split; [|exact He].
    apply filter_In. split; [exact Hu'|]. apply hasMedia_iff. exists k, m. auto.
  - intros u Hin. apply filter_In in Hin as [Hin _]. apply Hrow, Hin.
Qed.

Lemma filter_all {A} (l : list A) : l = filter (fun _ => true) l.
Proof. induction l as [|a l IH]; simpl; [reflexivity | f_equal; exact IH]. Qed.

Lemma filter_none {A} (l : list A) : [] = filter (fun _ => false) l.
Proof. induction l as [|a l IH]; simpl; [reflexivity | exact IH]. Qed.

(** X2. The delete routes keep the constraints of the schema; in
    particular the orphan cleanup never removes an uploader that a media
    row still refers to. *)
Theorem deleteRoutes_wellFormed (uploadDir : string) (k : Kind) (idParam : string)
    (st : State) :
  wellFormed (db st) ->
  wellFormed (db (snd (deleteRoute uploadDir k idParam st)))
  /\ wellFormed (db (snd (deleteAllRoute uploadDir k st))).
Proof.
  intros Hwf. split.
  - unfold deleteRoute.
    assert (Hfound : forall n,
      wellFormed (cleanupOrphanUploaders (deleteMedia k n (db st)))).
    { intros n.
      pose proof (setTable_same k
        (filter (fun m => negb (N.eqb (m_id m) n)) (table k (db st)))
        (table_seq k (db st)) (db st)) as (E1 & E2 & E3 & E4 & E5 & E6).
      apply (wellFormed_cleanup (db st)); unfold deleteMedia; auto.
      - intros k'. destruct k, k'; reflexivity.
      - intros k'.
        assert (Hsame : k' = k \/ k' = otherKind k) by (destruct k, k'; auto).
        destruct Hsame as [-> | ->].
        + rewrite E1. eauto.
        + rewrite E3. eexists. apply filter_all. }
    destruct (JS.numberOfString idParam) as [|neg|q]; [exact Hwf| |].
    + destruct (rowIdOf (JS.Infinity neg)) as [n|]; [|exact Hwf].
      destruct (selectMedia k n (db st)); [apply Hfound | exact Hwf].
    + destruct (rowIdOf (JS.Finite q)) as [n|]; [|exact Hwf].
      destruct (selectMedia k n (db st)); [apply Hfound | exact Hwf].
  - unfold deleteAllRoute. simpl.
    pose proof (setTable_same k [] (table_seq k (db st)) (db st))
      as (E1 & E2 & E3 & E4 & E5 & E6).
    apply (wellFormed_cleanup (db st)); unfold deleteAllMedia; auto.
    + intros k'. destruct k, k'; reflexivity.
    + intros k'.
      assert (Hsame : k' = k \/ k' = otherKind k) by (destruct k, k'; auto).
      destruct Hsame as [-> | ->].
      * rewrite E1. eexists. apply filter_none.
      * rewrite E3. eexists. apply filter_all.
Qed.

Lemma wellFormed_sampleGallery : wellFormed (db sampleGallery).
Proof.
  unfold wellFormed, keyed. simpl.
  split; [split; repeat constructor; simpl; try lia; intuition discriminate|].
  split; [intros []; simpl; split; repeat constructor; simpl; try lia; intuition discriminate|].
  split; [repeat constructor; simpl; intuition discriminate|].
  split.
  - intros [] m; simpl; intros H;
      repeat (destruct H as [<- | H]; [simpl; first [exists ann; split; [simpl; auto | reflexivity] | exists ben; split; [simpl; auto | reflexivity]]|]);
      destruct H.
  - intros u [<- | [<- | []]]; simpl; repeat split; discriminate.
Qed.

Lemma deleteRoutes_wellFormed_witness :
  wellFormed (db (snd (deleteRoute "/up" Photo "2" sampleGallery))).
Proof.
  apply (deleteRoutes_wellFormed "/up" Photo "2" sampleGallery).
  exact wellFormed_sampleGallery.
Defined.

(** ** Quotas and disk after an upload *)

Lemma Forall2_recordsFile_count (uploaderId id : N) (l : list UploadedFile) (rows : list Media) :
  Forall2 (recordsFile uploaderId) l rows ->
  List.length rows = List.length l
  /\ (List.length (filter (fun m => N.eqb (m_uploader_id m) id) rows)
      <= List.length l)%nat
  /\ (id <> uploaderId ->
      filter (fun m => N.eqb (m_uploader_id m) id) rows = []).
Proof.
  induction 1 as [|f m l rows (Hm & _) _ (IH1 & IH2 & IH3)]; simpl.
  - repeat split; auto.
  - split; [lia|]. split.
    + destruct (N.eqb (m_uploader_id m) id); simpl; lia.
    + intros Hne. rewrite Hm. destruct (N.eqb_spec uploaderId id); [congruence | auto].
Qed.

Lemma Forall2_in_left {A B} (R : A -> B -> Prop) (l : list A) (l' : list B) (a : A) :
  Forall2 R l l' -> In a l -> exists b, In b l' /\ R a b.
Proof.
  induction 1 as [|x y l l' Hxy _ IH]; simpl; [tauto|].
  intros [<- | Hin]; [eauto|]. destruct (IH Hin) as (b & Hb & Hr). eauto.
Qed.

(** X3. Requests served one after the other never push a count above its
    limit: after an upload route, the number of records of the kind is at
    most the larger of what it was and the global limit, the number of
    records of any uploader is at most the larger of what it was and the
    per-person limit, and the counts of the other kind are unchanged. *)
Theorem uploadRoute_within_quota (limits : Limits) (now : N)
    (insertFault : Kind -> list Media -> UploadedFile -> option string)
    (k : Kind) (req : UploadRequest) (st : State) :
  let st' := snd (uploadRoute limits now insertFault k req st) in
  countAll k (db st') <= Z.max (countAll k (db st)) (globalLimit limits k)
  /\ (forall id,
        countByUploader k id (db st')
        <= Z.max (countByUploader k id (db st)) (perPersonLimit limits k))
  /\ table (otherKind k) (db st') = table (otherKind k) (db st).
Proof.
  intros st'. subst st'.
  assert (Hsame : forall d', (forall k', table k' d' = table k' (db st)) ->
    countAll k d' <= Z.max (countAll k (db st)) (globalLimit limits k)
    /\ (forall id, countByUploader k id d'
                   <= Z.max (countByUploader k id (db st)) (perPersonLimit limits k))
    /\ table (otherKind k) d' = table (otherKind k) (db st)).
  { intros d' Ht. unfold countAll, countByUploader. rewrite !Ht.
    split; [lia|]. split; [intros; lia | reflexivity]. }
  destruct (String.eqb_spec (submittedName req) "") as [Hname|Hname].
  { unfold uploadRoute. fold (submittedName req). rewrite Hname. simpl. apply Hsame. auto. }
  destruct (req_files req) as [|f0 l0] eqn:Efiles.
  { unfold uploadRoute. fold (submittedName req).
    apply String.eqb_neq in Hname. rewrite Hname, Efiles. simpl. apply Hsame. auto. }
  assert (Hfiles : req_files req <> []) by (rewrite Efiles; discriminate).
  destruct (uploadRoute_valid limits now insertFault k req st Hname Hfiles)
    as (u & d1 & Hg & Ht & Hr).
  rewrite Hr. clear Hr.
  pose proof (decideAdmission_partition limits k (countByUploader k (r_id u) (db st))
                (countAll k (db st)) (req_files req)) as (_ & _ & Hn & _).
  cbv zeta in Hn.
  destruct (decideAdmission limits k _ _ (req_files req)) as [reason|acc rej];
    [simpl; apply Hsame, Ht|].
  simpl in Hn.
  destruct (insertEach now insertFault k (r_id u) acc d1) as [[[]|e] d2] eqn:Ei;
    simpl; [|apply Hsame, Ht].
  apply insertEach_returned in Ei as (_ & _ & Ho & rows & Hrows & Hf).
  split; [|split].
  - unfold countAll in *. rewrite Hrows, Ht, length_app.
    destruct (Forall2_recordsFile_count (r_id u) 0%N acc rows Hf) as (Hlen & _).
    rewrite Hlen. lia.
  - intros id. unfold countByUploader in *. rewrite Hrows, Ht, filter_app, length_app.
    destruct (Forall2_recordsFile_count (r_id u) id acc rows Hf) as (_ & Hle & Hz).
    destruct (N.eq_dec id (r_id u)) as [-> | Hne].
    + lia.
    + rewrite (Hz Hne). simpl. lia.
  - rewrite Ho. apply Ht.
Qed.

(** X4. An upload route leaves no stray file: a file of the request that
    is still on disk afterwards has its row in the media table, whatever
    the outcome.  Files that are not of the request are not touched. *)
Theorem uploadRoute_no_stray_file (limits : Limits) (now : N)
    (insertFault : Kind -> list Media -> UploadedFile -> option string)
    (k : Kind) (req : UploadRequest) (st : State) :
  let st' := snd (uploadRoute limits now insertFault k req st) in
  (forall f, In f (req_files req) -> In (f_path f) (files (fs st')) ->
     exists uploaderId row, In row (table k (db st')) /\ recordsFile uploaderId f row)
  /\ (forall p, ~ In p (map f_path (req_files req)) ->
        (In p (files (fs st')) <-> In p (files (fs st))))
  /\ dirs (fs st') = dirs (fs st).
Proof.
  intros st'. subst st'.
  assert (Hall : forall d' l,
    incl l (req_files req) ->
    (forall f, In f (req_files req) ->
       In (f_path f) (files (unlinkEach (req_files req) (unlinkEach l (fs st)))) ->
       exists uploaderId row, In row (table k d') /\ recordsFile uploaderId f row)
    /\ (forall p, ~ In p (map f_path (req_files req)) ->
          (In p (files (unlinkEach (req_files req) (unlinkEach l (fs st))))
           <-> In p (files (fs st))))
    /\ dirs (unlinkEach (req_files req) (unlinkEach l (fs st))) = dirs (fs st)).
  { intros d' l Hl. split; [|split].
    - intros f Hf Hin. exfalso. apply (unlinkEach_removes _ _ _ Hf Hin).
    - intros p Hp. rewrite !in_unlinkEach. split; [tauto|]. intros Hin.
      repeat split; auto. intros Hq. apply Hp.
      apply in_map_iff in Hq as (f & <- & Hf). apply in_map, Hl, Hf.
    - rewrite !unlinkEach_dirs. reflexivity. }
  destruct (String.eqb_spec (submittedName req) "") as [Hname|Hname].
  { unfold uploadRoute. fold (submittedName req). rewrite Hname. simpl.
    apply (Hall (db st) []). intros f []. }
  destruct (req_files req) as [|f0 l0] eqn:Efiles.
  { unfold uploadRoute. fold (submittedName req).
    apply String.eqb_neq in Hname. rewrite Hname, Efiles. simpl.
    split; [intros f []|]. split; [tauto | reflexivity]. }
  rewrite <- Efiles in *.
  assert (Hfiles : req_files req <> []) by (rewrite Efiles; discriminate).
  destruct (uploadRoute_valid limits now insertFault k req st Hname Hfiles)
    as (u & d1 & Hg & Ht & Hr).
  rewrite Hr. clear Hr.
  destruct (decideAdmission limits k _ _ (req_files req)) as [reason|acc rej] eqn:Ea.
  { simpl. apply (Hall d1 []). intros f []. }
  apply admission_accept_inv in Ea as (n & Hacc & Hrej).
  assert (Hincl : incl rej (req_files req)).
  { intros f Hf. rewrite <- (firstn_skipn n (req_files req)).
    apply in_or_app. right. rewrite <- Hrej. exact Hf. }
  destruct (insertEach now insertFault k (r_id u) acc d1) as [[[]|e] d2] eqn:Ei;
    simpl; [|apply (Hall d1 rej Hincl)].
  apply insertEach_returned in Ei as (_ & _ & _ & rows & Hrows & Hf).
  split; [|split].
  - intros f Hin Hdisk.
    rewrite <- (firstn_skipn n (req_files req)) in Hin.
    apply in_app_or in Hin as [Hin | Hin].
    + rewrite <- Hacc in Hin.
      destruct (Forall2_in_left _ _ _ _ Hf Hin) as (row & Hrow & Hrec).
      exists (r_id u), row. split; [rewrite Hrows; apply in_or_app; right; exact Hrow|].
      exact Hrec.
    + exfalso. rewrite <- Hrej in Hin. apply (unlinkEach_removes _ _ _ Hin Hdisk).
  - intros p Hp. rewrite in_unlinkEach. split; [tauto|]. intros Hin.
    split; [exact Hin|]. intros Hq. apply Hp.
    apply in_map_iff in Hq as (f & <- & Hf'). apply in_map, Hincl, Hf'.
  - apply unlinkEach_dirs.
Qed.

(** ** Row ids in route parameters *)

Lemma Qred_integer (z : Z) : Qred (z # 1) = z # 1.
Proof.
  unfold Qred.
  pose proof (Z.ggcd_gcd z 1) as Hg. pose proof (Z.ggcd_correct_divisors z 1) as Hd.
  destruct (Z.ggcd z 1) as [g [aa bb]]. simpl in *.
  rewrite Z.gcd_1_r in Hg. subst g. destruct Hd as [Ha Hb].
  assert (aa = z) as -> by lia. assert (bb = 1) as -> by lia. reflexivity.
Qed.

Lemma readDigits_uint (d : Decimal.uint) (acc : N) (c : nat) :
  JS.readDigits 10 acc c (NilEmpty.string_of_uint d)
  = (match acc with
     | N0 => N.of_uint d
     | Npos p => Npos (Pos.of_uint_acc d p)
     end,
     (c + String.length (NilEmpty.string_of_uint d))%nat, "").
Proof.
  revert acc c.
  induction d as [|d IH|d IH|d IH|d IH|d IH|d IH|d IH|d IH|d IH|d IH]; intros acc c;
    [simpl; destruct acc; repeat f_equal; lia | ..];
    cbn [NilEmpty.string_of_uint JS.readDigits String.length];
    match goal with
    | |- context [JS.digitValue 10 ?ch] =>
        let v := eval vm_compute in (JS.digitValue 10 ch) in
        change (JS.digitValue 10 ch) with v
    end;
    cbv iota beta; rewrite IH; rewrite <- plus_n_Sm;
    (destruct acc as [|p];
    [ match goal with
      | |- context [(10 * 0 + ?v)%N] => change (10 * 0 + v)%N with v
      end; reflexivity
    | match goal with
      | |- context [(10 * N.pos p + ?v)%N] =>
          replace (10 * N.pos p + v)%N
            with (N.pos (match v with
                         | N0 => 10 * p
                         | N.pos i => i + 10 * p
                         end)%positive) by (cbv iota; lia)
      end; reflexivity ]).
Qed.

Lemma readDigits_stringOfN (n : N) :
  JS.readDigits 10 0 0 (JS.stringOfN n) = (n, String.length (JS.stringOfN n), "").
Proof.
  unfold JS.stringOfN. rewrite readDigits_uint. simpl.
  rewrite DecimalN.Unsigned.of_to. reflexivity.
Qed.

Lemma isDigit_not_space (c : ascii) : isDigit c = true -> JS.isWhiteSpace c = false.
Proof.
  destruct c as [[] [] [] [] [] [] [] []]; try reflexivity; discriminate.
Qed.

Lemma trimEnd_digits (s : string) : allChars isDigit s = true -> JS.trimEnd s = s.
Proof.
  induction s as [|c s IH]; simpl; [reflexivity|].
  intros H. apply andb_prop in H as [Hc Hs]. rewrite (IH Hs).
  rewrite (isDigit_not_space c Hc). destruct s; reflexivity.
Qed.

Lemma trim_digits (s : string) : allChars isDigit s = true -> JS.trim s = s.
Proof.
  intros H. unfold JS.trim. rewrite trimStart_fixed; [apply trimEnd_digits, H|].
  destruct s as [|c s]; [exact I|]. simpl in H. apply andb_prop in H as [Hc _].
  apply isDigit_not_space, Hc.
Qed.

Lemma stringOfN_nonempty (n : N) : exists c r, JS.stringOfN n = String c r.
Proof.
  pose proof (uint_of_padded 0 n) as H. simpl in H.
  destruct (JS.stringOfN n) as [|c r] eqn:E; [|eauto].
  exfalso. unfold JS.stringOfN in E.
  destruct n as [|p]; [discriminate E|].
  simpl in H. injection H as H. discriminate H.
Qed.

(** An integer up to [Number.MAX_SAFE_INTEGER] is a double: it is not
    rounded. *)
Lemma roundToDouble_safe (n : N) :
  (n <= JS.MAX_SAFE_INTEGER)%N ->
  JS.roundToDouble (Z.of_N n # 1) = JS.ofZ (Z.of_N n).
Proof.
  unfold JS.MAX_SAFE_INTEGER. intros Hn.
  destruct n as [|p]; [reflexivity|].
  unfold JS.roundToDouble. cbn [Qnum Qden Z.of_N].
  unfold JS.roundPositive, JS.exponentOf.
  change (Z.log2 1) with 0. rewrite Z.sub_0_r.
  pose proof (Z.log2_nonneg (Z.pos p)) as Hl0.
  pose proof (Z.log2_spec (Z.pos p) ltac:(lia)) as [Hlo Hhi].
  assert (Hl : Z.log2 (Z.pos p) <= 52).
  { destruct (Z.le_gt_cases (Z.log2 (Z.pos p)) 52) as [H|H]; [exact H|].
    assert (2 ^ 53 <= 2 ^ Z.log2 (Z.pos p)) by (apply Z.pow_le_mono_r; lia).
    change (2 ^ 53) with 9007199254740992 in *. lia. }
  assert (Hb : JS.belowPow2 (Z.pos p) 1 (Z.log2 (Z.pos p)) = false).
  { unfold JS.belowPow2. destruct (Z.leb_spec 0 (Z.log2 (Z.pos p))); [|lia].
    apply Z.ltb_ge. lia. }
  rewrite Hb. rewrite Z.max_l by lia.
  set (u := Z.log2 (Z.pos p) - 52) in *.
  assert (Hround : forall a, JS.roundHalfEven a 1 = a).
  { intros a. unfold JS.roundHalfEven. rewrite Z.mod_1_r, Z.div_1_r. reflexivity. }
  destruct (Z.leb_spec 0 u) as [Hu|Hu].
  - assert (u = 0) as -> by lia. change (2 ^ 0) with 1. rewrite Hround, !Z.mul_1_r.
    destruct (Z.leb_spec (2 ^ 1024) (Z.pos p)) as [Hbig|_]; [|reflexivity].
    assert (2 ^ 53 <= 2 ^ 1024) by (apply Z.pow_le_mono_r; lia).
    change (2 ^ 53) with 9007199254740992 in *. lia.
  - rewrite Hround. unfold JS.ofZ. f_equal.
    rewrite <- (Qred_integer (Z.pos p)). apply Qred_complete.
    assert (Hpos : 0 < 2 ^ (- u)) by (apply Z.pow_pos_nonneg; lia).
    unfold Qeq. cbn [Qnum Qden]. rewrite Z2Pos.id by exact Hpos. lia.
Qed.

(** The decimal text of a row id is read back as that id. *)
Lemma numberOfString_stringOfN (n : N) :
  (n <= JS.MAX_SAFE_INTEGER)%N ->
  JS.numberOfString (JS.stringOfN n) = JS.ofZ (Z.of_N n).
Proof.
  intros Hsafe.
  unfold JS.numberOfString. rewrite (trim_digits _ (digits_stringOfN n)).
  pose proof (readDigits_stringOfN n) as Hr.
  pose proof (digits_stringOfN n) as Hd.
  destruct (stringOfN_nonempty n) as (c & r & E). rewrite E in *.
  simpl in Hd. apply andb_prop in Hd as [Hc Hrest].
  assert (Hnd : JS.readNonDecimal (String c r) = None).
  { unfold JS.readNonDecimal. destruct r as [|p r']; [destruct c as [[] [] [] [] [] [] [] []]; reflexivity|].
    simpl in Hrest. apply andb_prop in Hrest as [Hp _].
    destruct c as [[] [] [] [] [] [] [] []]; try reflexivity.
    destruct p as [[] [] [] [] [] [] [] []]; try reflexivity; discriminate Hp. }
  rewrite Hnd.
  assert (Hsign : JS.readSign (String c r) = (false, String c r)).
  { destruct c as [[] [] [] [] [] [] [] []]; try reflexivity; discriminate Hc. }
  rewrite Hsign.
  assert (Hinf : String.eqb (String c r) "Infinity" = false).
  { destruct c as [[] [] [] [] [] [] [] []]; try reflexivity; discriminate Hc. }
  rewrite Hinf. unfold JS.readUnsignedDecimal. rewrite Hr. simpl.
  unfold JS.scale10. change (0 <=? 0) with true. cbv iota.
  change (10 ^ 0) with 1. rewrite Z.mul_1_r, Qred_integer.
  apply roundToDouble_safe, Hsafe.
Qed.

Lemma rowIdOf_stringOfN (n : N) :
  (n <= JS.MAX_SAFE_INTEGER)%N ->
  rowIdOf (JS.numberOfString (JS.stringOfN n)) = Some n.
Proof.
  intros Hsafe.
  rewrite (numberOfString_stringOfN n Hsafe). unfold rowIdOf, JS.integerOf, JS.ofZ. simpl.
  destruct (Z.leb_spec 0 (Z.of_N n)); [|lia]. rewrite N2Z.id. reflexivity.
Qed.

Lemma selectMedia_key (k : Kind) (d : Database) (item : Media) :
  NoDup (map m_id (table k d)) -> In item (table k d) ->
  selectMedia k (m_id item) d = Some item.
Proof.
  intros Hnd Hin. unfold selectMedia.
  destruct (find _ (table k d)) as [m|] eqn:E.
  - apply find_some in E as [Hm He]. apply N.eqb_eq in He.
    f_equal. apply (NoDup_map_inj m_id (table k d)); assumption.
  - apply (find_none _ _ E) in Hin. rewrite N.eqb_refl in Hin. discriminate.
Qed.

Lemma selectMedia_deleted (k : Kind) (n : N) (d : Database) :
  selectMedia k n (cleanupOrphanUploaders (deleteMedia k n d)) = None.
Proof.
  unfold selectMedia. rewrite cleanup_media. unfold deleteMedia.
  rewrite (proj1 (setTable_same k _ _ d)).
  destruct (find _ _) as [m|] eqn:E; [|reflexivity].
  apply find_some in E as [Hm He]. apply filter_In in Hm as [_ Hm].
  rewrite He in Hm. discriminate.
Qed.

(** X5. The id an admin page prints for a record leads the delete route
    back to that record: with the id column a key and the id a safe
    integer (so that [Number] reads its decimal text back without
    rounding), deleting by the decimal text of a record's id removes that
    record and only it, removes its file from disk, and a second request
    with the same id is answered with the not-found error and changes
    nothing. *)
Theorem delete_by_printed_id (uploadDir : string) (k : Kind) (st : State) (item : Media) :
  NoDup (map m_id (table k (db st))) ->
  In item (table k (db st)) ->
  (m_id item <= JS.MAX_SAFE_INTEGER)%N ->
  let idParam := JS.stringOfN (m_id item) in
  let '(reply, st1) := deleteRoute uploadDir k idParam st in
  reply = RedirectMessage (adminPage k) (Noun k ++ " deleted.")
  /\ (forall m, In m (table k (db st1)) <-> In m (table k (db st)) /\ m <> item)
  /\ ~ In (pathJoin uploadDir (m_filename item)) (files (fs st1))
  /\ (forall p, p <> pathJoin uploadDir (m_filename item) ->
        (In p (files (fs st1)) <-> In p (files (fs st))))
  /\ deleteRoute uploadDir k idParam st1
     = (RedirectError (adminPage k) (Noun k ++ " not found."), st1).
Proof.
  intros Hkey Hin Hsafe idParam. subst idParam.
  unfold deleteRoute at 1.
  pose proof (rowIdOf_stringOfN (m_id item) Hsafe) as Hid.
  pose proof (numberOfString_stringOfN (m_id item) Hsafe) as Hnum.
  rewrite Hnum in *. unfold JS.ofZ in *. rewrite Hid, (selectMedia_key k _ _ Hkey Hin).
  split; [reflexivity|]. split; [|split; [|split]].
  - intros m. simpl. rewrite cleanup_media. unfold deleteMedia.
    rewrite (proj1 (setTable_same k _ _ (db st))), filter_In, negb_true_iff, N.eqb_neq.
    split.
    + intros [Hm Hne]. split; [exact Hm | congruence].
    + intros [Hm Hne]. split; [exact Hm|]. intros He. apply Hne.
      apply (NoDup_map_inj m_id (table k (db st))); assumption.
  - simpl. intros H. apply in_removePath in H. tauto.
  - intros p Hp. simpl. rewrite in_removePath. tauto.
  - unfold deleteRoute. rewrite Hnum. unfold JS.ofZ. rewrite Hid.
    simpl db. rewrite selectMedia_deleted. reflexivity.
Qed.

Lemma delete_by_printed_id_witness :
  let '(reply, st1) := deleteRoute "/up" Photo "2" sampleGallery in
  reply = RedirectMessage "/admin/photos" "Photo deleted."
  /\ ~ In "/up/22-2.jpg" (files (fs st1)).
Proof.
  pose proof (delete_by_printed_id "/up" Photo sampleGallery
                (mkMedia 2 2 "22-2.jpg" "ben/two.jpg" "image/jpeg" 10 30)) as H.
  cbv zeta in H. change (JS.stringOfN _) with "2" in H.
  destruct (deleteRoute "/up" Photo "2" sampleGallery) as [reply st1].
  destruct H as (H1 & _ & H3 & _).
  - simpl. repeat constructor; simpl; intuition discriminate.
  - simpl. auto.
  - vm_compute. discriminate.
  - split; [exact H1 | exact H3].
Defined.

(** ** The single-item route *)

Lemma stripQuotes_clean (s : string) :
  allChars (fun c => negb (Ascii.eqb c doubleQuote)) (stripQuotes s) = true.
Proof.
  induction s as [|c s IH]; simpl; [reflexivity|].
  destruct (Ascii.eqb c doubleQuote) eqn:E; [exact IH|].
  simpl. rewrite E, IH. reflexivity.
Qed.

Lemma stripQuotes_fixed (s : string) :
  allChars (fun c => negb (Ascii.eqb c doubleQuote)) s = true -> stripQuotes s = s.
Proof.
  induction s as [|c s IH]; simpl; [reflexivity|].
  intros H. apply andb_prop in H as [Hc Hs]. apply negb_true_iff in Hc.
  rewrite Hc, (IH Hs). reflexivity.
Qed.

Lemma checkInvalidHeaderChar_app (a b : string) :
  checkInvalidHeaderChar (a ++ b)
  = checkInvalidHeaderChar a || checkInvalidHeaderChar b.
Proof.
  induction a as [|c a IH]; simpl; [reflexivity|]. rewrite IH, orb_assoc. reflexivity.
Qed.

(** Dropping the double quotes neither hides nor adds an invalid
    character. *)
Lemma checkInvalidHeaderChar_stripQuotes (s : string) :
  checkInvalidHeaderChar (stripQuotes s) = checkInvalidHeaderChar s.
Proof.
  induction s as [|c s IH]; simpl; [reflexivity|].
  destruct (Ascii.eqb_spec c doubleQuote) as [->|Hne]; simpl; rewrite IH; reflexivity.
Qed.

Lemma checkInvalidHeaderChar_disposition (name : string) :
  checkInvalidHeaderChar
    ("inline; filename=" ++ String doubleQuote (stripQuotes name ++ String doubleQuote ""))
  = checkInvalidHeaderChar name.
Proof.
  rewrite checkInvalidHeaderChar_app.
  change (checkInvalidHeaderChar "inline; filename=") with false.
  cbn [orb checkInvalidHeaderChar].
  change (negb (validHeaderChar doubleQuote)) with false. cbn [orb].
  rewrite checkInvalidHeaderChar_app, checkInvalidHeaderChar_stripQuotes.
  change (checkInvalidHeaderChar (String doubleQuote "")) with false.
  apply orb_false_r.
Qed.

Lemma uploadTab_viewPath (k : Kind) (idParam : string) :
  uploadTabFromRequest (viewPath k idParam) = "photos".
Proof. destruct k; reflexivity. Qed.



(** ** The export and the gallery *)

Lemma prefix_append (a b : string) : String.prefix a (a ++ b) = true.
Proof.
  induction a as [|c a IH]; simpl; [destruct b; reflexivity|].
  destruct (Ascii.ascii_dec c c); [exact IH | contradiction].
Qed.

Lemma isUnder_pathJoin (dir name : string) : isUnder dir (pathJoin dir name) = true.
Proof.
  unfold isUnder, pathJoin. rewrite <- append_assoc3. apply prefix_append.
Qed.

Lemma in_safeRemoveDir (dir p : string) (s : FileSystem) :
  (In p (files (safeRemoveDir dir s))
   <-> In p (files s) /\ p <> dir /\ isUnder dir p = false)
  /\ (In p (dirs (safeRemoveDir dir s))
      <-> In p (dirs s) /\ p <> dir /\ isUnder dir p = false).
Proof.
  unfold safeRemoveDir. simpl. rewrite !filter_In, negb_true_iff, orb_false_iff.
  rewrite String.eqb_neq. tauto.
Qed.

Lemma in_safeUnlink (a p : string) (s : FileSystem) :
  (In p (files (safeUnlink a s)) <-> In p (files s) /\ p <> a)
  /\ dirs (safeUnlink a s) = dirs s.
Proof. unfold safeUnlink. simpl. rewrite in_removePath. tauto. Qed.

(** X7. The archive export does not touch the gallery: the database is
    unchanged, and every path other than the scratch directory, what lies
    below it and the archive file is on disk afterwards exactly when it
    was before, whether the export succeeds or fails. *)
Theorem downloadRoute_leaves_gallery (uploadDir : string) (k : Kind) (env : ExportEnv)
    (st : State) :
  let st' := snd (downloadRoute uploadDir k env st) in
  db st' = db st
  /\ forall p,
       p <> archivePath env -> p <> tempDir env -> isUnder (tempDir env) p = false ->
       (In p (files (fs st')) <-> In p (files (fs st)))
       /\ (In p (dirs (fs st')) <-> In p (dirs (fs st))).
Proof.
  intros st'. subst st'. unfold downloadRoute.
  destruct (List.length (newestFirst (table k (db st))) =? 0)%nat; [simpl; tauto|].
  set (s0 := mkdtempSync (tempDir env) (fs st)).
  unfold exportTry.
  destruct (copyPass uploadDir k env (newestFirst (table k (db st))) 0 s0)
    as [o s1] eqn:Ec.
  apply copyPass_grows in Ec as (Hd & Hf & Hb). cbv zeta in Hb.
  assert (Hs1 : forall p, p <> tempDir env -> isUnder (tempDir env) p = false ->
            (In p (files s1) <-> In p (files (fs st)))
            /\ (In p (dirs s1) <-> In p (dirs (fs st)))).
  { intros p Hp Hu. split.
    - split; [|apply Hf].
      intros Hin. apply Hb in Hin as [Hin | (m & _ & ->)]; [exact Hin|].
      rewrite isUnder_pathJoin in Hu. discriminate.
    - rewrite Hd. subst s0. simpl. split; [intros [E | H]; [congruence | exact H] | auto]. }
  assert (Hclean : forall s2, dirs s2 = dirs s1 ->
            (forall p, p <> archivePath env -> (In p (files s2) <-> In p (files s1))) ->
            forall s3,
              s3 = safeRemoveDir (tempDir env) (safeUnlink (archivePath env) s2)
              \/ s3 = safeUnlink (archivePath env) (safeRemoveDir (tempDir env) s2) ->
              forall p, p <> archivePath env -> p <> tempDir env ->
                        isUnder (tempDir env) p = false ->
                        (In p (files s3) <-> In p (files (fs st)))
                        /\ (In p (dirs s3) <-> In p (dirs (fs st)))).
  { intros s2 Hd2 Hf2 s3 Hs3 p Ha Ht Hu. destruct (Hs1 p Ht Hu) as [H1 H2].
    rewrite <- H1, <- H2, <- Hd2, <- (Hf2 p Ha).
    destruct Hs3 as [-> | ->].
    - pose proof (in_safeRemoveDir (tempDir env) p (safeUnlink (archivePath env) s2))
        as [A B].
      pose proof (in_safeUnlink (archivePath env) p s2) as [C D].
      rewrite D in B. tauto.
    - pose proof (in_safeUnlink (archivePath env) p (safeRemoveDir (tempDir env) s2))
        as [C D].
      pose proof (in_safeRemoveDir (tempDir env) p s2) as [A B].
      rewrite D. tauto. }
  assert (Hwrite : forall r o' s2, writeWith r (archivePath env) s1 = (o', s2) ->
            dirs s2 = dirs s1
            /\ forall p, p <> archivePath env -> (In p (files s2) <-> In p (files s1))).
  { intros r o' s2 Hw. apply writeWith_grows in Hw as (Hd2 & Hf2 & Hb2 & _).
    split; [exact Hd2|]. intros p Hp. split; [|apply Hf2].
    intros Hin. apply Hb2 in Hin as [-> | Hin]; [contradiction | exact Hin]. }
  destruct o as [[|c]|e]; simpl.
  - split; [reflexivity|]. intros p Ha Ht Hu.
    apply (Hclean s1 eq_refl (fun q _ => iff_refl _) _ (or_intror eq_refl) p Ha Ht Hu).
  - destruct (writeWith (zipResult env) (archivePath env) s1) as [[[]|e] s2] eqn:Ew;
      destruct (Hwrite _ _ _ Ew) as [Hd2 Hf2]; simpl;
      (split; [reflexivity|]); intros p Ha Ht Hu;
      apply (Hclean s2 Hd2 Hf2 _ (or_introl eq_refl) p Ha Ht Hu).
  - split; [reflexivity|]. intros p Ha Ht Hu.
    apply (Hclean s1 eq_refl (fun q _ => iff_refl _) _ (or_introl eq_refl) p Ha Ht Hu).
Qed.

(** ** The admin list *)

Lemma filter_key_single {A} (f : A -> N) (l : list A) (a : A) :
  NoDup (map f l) -> In a l ->
  filter (fun x => N.eqb (f x) (f a)) l = [a].
Proof.
  induction l as [|x l IH]; simpl; [tauto|].
  intros Hnd Hin. inversion Hnd as [|? ? Hx Hl]; subst.
  destruct Hin as [-> | Hin].
  - rewrite N.eqb_refl. f_equal.
    destruct (filter _ l) as [|y r] eqn:E; [reflexivity|].
    exfalso. assert (Hy : In y (filter (fun x => N.eqb (f x) (f a)) l))
      by (rewrite E; left; reflexivity).
    apply filter_In in Hy as [Hy He]. apply N.eqb_eq in He.
    apply Hx. rewrite <- He. apply in_map, Hy.
  - destruct (N.eqb_spec (f x) (f a)) as [He|_]; [|apply IH; assumption].
    exfalso. apply Hx. rewrite He. apply in_map, Hin.
Qed.

(** X8. On a store that satisfies the schema, the admin list shows every
    record of the kind exactly once, newest first, each with the display
    name of its uploader, and the total it reports is the number of
    records. *)
Theorem adminList_complete (limits : Limits) (maxVideoSizeMb : JS.number) (k : Kind)
    (queryMessage queryError : option string) (d : Database) :
  wellFormed d ->
  let view := renderAdminMedia limits maxVideoSizeMb k queryMessage queryError d in
  map i_id (v_mediaItems view) = map m_id (newestFirst (table k d))
  /\ v_totalCount view = countAll k d
  /\ Forall2 (fun item m =>
                exists u, In u (uploaders d) /\ u_id u = m_uploader_id m
                          /\ item = mkMediaItem (m_id m) (m_original_name m) (m_mime_type m)
                                      (m_size m) (m_uploaded_at m) (u_name u))
             (v_mediaItems view) (newestFirst (table k d)).
Proof.
  intros (Hk & _ & _ & Hfk & _) view. subst view. unfold renderAdminMedia. simpl.
  assert (H : forall l, (forall m, In m l -> In m (table k d)) ->
    Forall2 (fun item m =>
               exists u, In u (uploaders d) /\ u_id u = m_uploader_id m
                         /\ item = mkMediaItem (m_id m) (m_original_name m) (m_mime_type m)
                                     (m_size m) (m_uploaded_at m) (u_name u))
            (flat_map
               (fun m =>
                  map (fun u => mkMediaItem (m_id m) (m_original_name m) (m_mime_type m)
                                  (m_size m) (m_uploaded_at m) (u_name u))
                      (filter (fun u => N.eqb (u_id u) (m_uploader_id m)) (uploaders d)))
               l) l).
  { induction l as [|m l IH]; intros Hl; simpl; [constructor|].
    destruct (Hfk k m (Hl m (or_introl eq_refl))) as (u & Hu & He).
    rewrite <- He, (filter_key_single u_id (uploaders d) u (proj1 Hk) Hu). simpl.
    constructor; [exists u; repeat split; auto|]. apply IH. intros m' Hm'. apply Hl. simpl. auto. }
  specialize (H (newestFirst (table k d)) (fun m Hm => proj1 (in_newestFirst m _) Hm)).
  fold (joinUploaders k d) in H |- *.
  assert (Hids : map i_id (joinUploaders k d) = map m_id (newestFirst (table k d))).
  { clear -H. induction H as [|item m items ms (u & _ & _ & ->) _ IH]; simpl;
      [reflexivity | f_equal; exact IH]. }
  split; [exact Hids|]. split; [|exact H].
  unfold countAll. rewrite <- newestFirst_length, <- (length_map m_id), <- Hids, length_map.
  reflexivity.
Qed.

Lemma adminList_complete_witness :
  map i_id (v_mediaItems (renderAdminMedia sampleLimits (JS.ofZ 1200) Photo None None
                            (db sampleGallery)))
  = [3%N; 2%N; 1%N].
Proof.
  destruct (adminList_complete sampleLimits (JS.ofZ 1200) Photo None None
              (db sampleGallery)) as (H & _).
  - exact wellFormed_sampleGallery.
  - rewrite H. reflexivity.
Defined.

(** ** Sessions *)

(** X9. A login succeeds exactly when the submitted user name and password,
    trimmed, equal the expected ones; otherwise the session is left as it
    was.  The expected values are compared untrimmed, so a configured
    password with white space at either end admits nobody, and since the
    expected user name is never empty a blank user name never logs in.
    After a logout the admin routes redirect to the login page. *)
Theorem login_exactly_on_match (env : Env) (bodyUsername bodyPassword : option string)
    (session : Session) :
  let expectedUsername := envText (env "ADMIN_USERNAME") "admin" in
  let expectedPassword := envText (env "ADMIN_PASSWORD") "change-this-password" in
  let matches :=
    JS.trim (envText bodyUsername "") = expectedUsername
    /\ JS.trim (envText bodyPassword "") = expectedPassword in
  let '(reply, session') := postAdminLogin env bodyUsername bodyPassword session in
  ((matches /\ reply = Redirected "/admin/photos"
    /\ requireAdmin (Some session') = None)
   \/ (~ matches
       /\ reply = Flashed (RedirectError "/admin/login" "Invalid username or password.")
       /\ session' = session))
  /\ (JS.trim expectedPassword <> expectedPassword -> session' = session)
  /\ (JS.trim (envText bodyUsername "") = "" -> session' = session)
  /\ requireAdmin (snd (postAdminLogout session')) = Some (Redirected "/admin/login").
Proof.
  intros expectedUsername expectedPassword matches. unfold postAdminLogin.
  fold expectedUsername. fold expectedPassword.
  assert (Hne : expectedUsername <> "").
  { subst expectedUsername. unfold envText.
    destruct (env "ADMIN_USERNAME") as [[|c s]|]; discriminate. }
  destruct (String.eqb_spec (JS.trim (envText bodyUsername "")) expectedUsername) as [Hu|Hu];
    destruct (String.eqb_spec (JS.trim (envText bodyPassword "")) expectedPassword) as [Hp|Hp];
    simpl; subst matches.
  - split; [left; auto|]. split; [|split; [|reflexivity]].
    + intros Hw. exfalso. apply Hw. rewrite <- Hp. apply trim_idem.
    + intros He. exfalso. apply Hne. rewrite <- Hu. exact He.
  - split; [right; repeat split; tauto|]. auto.
  - split; [right; repeat split; tauto|]. auto.
  - split; [right; repeat split; tauto|]. auto.
Qed.

(** ** The base URL *)

Lemma stripTrailingSlashes_shape (s : string) :
  lastChar (stripTrailingSlashes s) <> Some "/"%char
  /\ exists n, s = stripTrailingSlashes s ++ JS.repeatChar "/" n.
Proof.
  induction s as [|c s (IH1 & n & IH2)]; simpl.
  - split; [discriminate | exists 0%nat; reflexivity].
  - destruct (stripTrailingSlashes s) as [|c' r] eqn:E.
    + destruct (Ascii.eqb_spec c "/") as [->|Hc]; simpl.
      * split; [discriminate|]. exists (S n). simpl in IH2. rewrite IH2. reflexivity.
      * split; [congruence|]. exists n. simpl in IH2. rewrite IH2. reflexivity.
    + split; [exact IH1|]. exists n. rewrite IH2 at 1. reflexivity.
Qed.

Lemma allChars_beforeComma (s : string) :
  allChars (fun c => negb (Ascii.eqb c ",")) (beforeComma s) = true.
Proof.
  induction s as [|c s IH]; simpl; [reflexivity|].
  destruct (Ascii.eqb c ",") eqn:E; [reflexivity|]. simpl. rewrite E, IH. reflexivity.
Qed.

Lemma singleToken_first (s : string) : singleToken (JS.trim (beforeComma s)).
Proof.
  split; [apply allChars_trim, allChars_beforeComma | apply trim_idem].
Qed.

Lemma firstItem_beforeComma (s : string) : firstItem s (beforeComma s).
Proof.
  split; [apply allChars_beforeComma|].
  induction s as [|c s IH]; simpl; [left; reflexivity|].
  destruct (Ascii.eqb_spec c ",") as [->|Hc].
  - right. exists s. reflexivity.
  - destruct IH as [IH | (rest & IH)].
    + left. rewrite <- IH. reflexivity.
    + right. exists rest. simpl. rewrite <- IH. reflexivity.
Qed.

(** A text has one first item. *)
Lemma firstItem_unique (header item : string) :
  firstItem header item -> item = beforeComma header.
Proof.
  intros [Hc Hs]. revert header Hs.
  induction item as [|c item IH]; intros header Hs.
  - destruct Hs as [-> | (rest & ->)]; reflexivity.
  - simpl in Hc. apply andb_prop in Hc as [Hc Hi]. apply negb_true_iff in Hc.
    destruct Hs as [-> | (rest & ->)]; simpl; rewrite Hc; f_equal.
    + apply IH; [exact Hi | left; reflexivity].
    + apply IH; [exact Hi | right; exists rest; reflexivity].
Qed.

Lemma firstPresent_envText (v : option string) (rest : list (option string))
    (fallback chosen : string) :
  firstPresent rest fallback chosen ->
  firstPresent (v :: rest) fallback (envText v chosen).
Proof.
  intros H. destruct v as [[|c s]|]; simpl.
  - apply firstPresent_skip; [right; reflexivity | exact H].
  - apply firstPresent_here. discriminate.
  - apply firstPresent_skip; [left; reflexivity | exact H].
Qed.

(** The candidates and the fallback leave one choice. *)
Lemma firstPresent_unique (candidates : list (option string)) (fallback a b : string) :
  firstPresent candidates fallback a -> firstPresent candidates fallback b -> a = b.
Proof.
  intros Ha. revert b.
  induction Ha as [fb | s rest fb Hs | v rest fb chosen Hv Ha IH]; intros b Hb.
  - inversion Hb. reflexivity.
  - inversion Hb as [| |? ? ? ? Hv' ?]; subst; [reflexivity|].
    destruct Hv' as [Hv' | Hv']; [discriminate | congruence].
  - inversion Hb as [|? ? ? Hs|]; subst; [|auto].
    destruct Hv as [Hv | Hv]; [discriminate | congruence].
Qed.

(** X10. The configured base URL never ends with a slash: it is the trimmed
    BASE_URL without the slashes it ends with.  When it is not empty,
    [resolveBaseUrl] returns it whatever the request says.  Otherwise the
    result is a protocol, [://] and a host, where the host is the trimmed
    first item of the first non-empty text among the X-Forwarded-Host
    header, the Host header and [localhost:<port>], and the protocol the
    trimmed first item of the first non-empty text among the
    X-Forwarded-Proto header, [req.protocol] and [http]; neither part
    holds a comma or surrounding white space. *)
Theorem resolveBaseUrl_shape (env : Env) (portText : string) (req : RequestOrigin) :
  lastChar (configuredBaseUrl env) <> Some "/"%char
  /\ (exists n, JS.trim (envText (env "BASE_URL") "")
                = configuredBaseUrl env ++ JS.repeatChar "/" n)
  /\ (configuredBaseUrl env <> "" ->
      resolveBaseUrl env portText req = configuredBaseUrl env)
  /\ (configuredBaseUrl env = "" ->
      exists protocolHeader protocolItem hostHeader hostItem,
        resolveBaseUrl env portText req
        = JS.trim protocolItem ++ "://" ++ JS.trim hostItem
        /\ firstPresent [h_forwarded_proto req; Some (h_protocol req)] "http" protocolHeader
        /\ firstItem protocolHeader protocolItem
        /\ firstPresent [h_forwarded_host req; h_host req] ("localhost:" ++ portText)
                        hostHeader
        /\ firstItem hostHeader hostItem
        /\ singleToken (JS.trim protocolItem) /\ singleToken (JS.trim hostItem)).
Proof.
  destruct (stripTrailingSlashes_shape (JS.trim (envText (env "BASE_URL") ""))) as [H1 H2].
  split; [exact H1|]. split; [exact H2|].
  unfold resolveBaseUrl. split.
  - intros Hne. apply String.eqb_neq in Hne. rewrite Hne. reflexivity.
  - intros He. rewrite He. simpl.
    eexists _, _, _, _. split; [reflexivity|].
    split; [|split; [apply firstItem_beforeComma|]].
    { apply firstPresent_envText.
      change (JS.orElse (h_protocol req) "http") with (envText (Some (h_protocol req)) "http").
      apply firstPresent_envText. constructor. }
    split; [|split; [apply firstItem_beforeComma|]].
    { apply firstPresent_envText, firstPresent_envText. constructor. }
    split; apply singleToken_first.
Qed.

Lemma resolveBaseUrl_shape_witness :
  resolveBaseUrl (fun v => if String.eqb v "BASE_URL" then Some " https://x.example// " else None)
                 "3000" (mkRequestOrigin (Some "evil.example") None None "http")
  = "https://x.example"
  /\ resolveBaseUrl (fun _ => None) "3000"
       (mkRequestOrigin (Some "") (Some "a.example , b.example") (Some "https,http") "http")
     = "https://a.example".
Proof.
  split.
  - destruct (resolveBaseUrl_shape
                (fun v => if String.eqb v "BASE_URL" then Some " https://x.example// " else None)
                "3000" (mkRequestOrigin (Some "evil.example") None None "http"))
      as (_ & _ & H & _).
    rewrite H; [reflexivity | vm_compute; discriminate].
  - destruct (resolveBaseUrl_shape (fun _ => None) "3000"
                (mkRequestOrigin (Some "") (Some "a.example , b.example")
                   (Some "https,http") "http"))
      as (_ & _ & _ & H).
    destruct (H eq_refl) as (ph & pi & hh & hi & -> & Hp & Hpi & Hh & Hhi & _).
    simpl in Hp, Hh.
    assert (ph = "https,http") as ->.
    { apply (firstPresent_unique _ _ _ _ Hp). apply firstPresent_here. discriminate. }
    assert (hh = "a.example , b.example") as ->.
    { apply (firstPresent_unique _ _ _ _ Hh).
      apply firstPresent_skip; [right; reflexivity|]. apply firstPresent_here. discriminate. }
    rewrite (firstItem_unique _ _ Hpi), (firstItem_unique _ _ Hhi). reflexivity.
Defined.

(** ** Normalized names *)

Lemma lowerChar_space (c : ascii) : JS.isWhiteSpace (JS.lowerChar c) = JS.isWhiteSpace c.
Proof. destruct c as [[] [] [] [] [] [] [] []]; reflexivity. Qed.

Lemma lowerChar_idem (c : ascii) : JS.lowerChar (JS.lowerChar c) = JS.lowerChar c.
Proof. destruct c as [[] [] [] [] [] [] [] []]; reflexivity. Qed.

Lemma toLowerCase_idem (s : string) : JS.toLowerCase (JS.toLowerCase s) = JS.toLowerCase s.
Proof.
  induction s as [|c s IH]; simpl; [reflexivity|]. rewrite lowerChar_idem, IH. reflexivity.
Qed.

Lemma trimStart_toLowerCase (s : string) :
  JS.trimStart (JS.toLowerCase s) = JS.toLowerCase (JS.trimStart s).
Proof.
  induction s as [|c s IH]; simpl; [reflexivity|].
  rewrite lowerChar_space. destruct (JS.isWhiteSpace c); [exact IH | reflexivity].
Qed.

Lemma trimEnd_toLowerCase (s : string) :
  JS.trimEnd (JS.toLowerCase s) = JS.toLowerCase (JS.trimEnd s).
Proof.
  induction s as [|c s IH]; simpl; [reflexivity|].
  rewrite IH, lowerChar_space.
  destruct (JS.trimEnd s); simpl; [destruct (JS.isWhiteSpace c)|]; reflexivity.
Qed.

Lemma trim_toLowerCase (s : string) :
  JS.trim (JS.toLowerCase s) = JS.toLowerCase (JS.trim s).
Proof. unfold JS.trim. rewrite trimStart_toLowerCase, trimEnd_toLowerCase. reflexivity. Qed.

(** X11. A normalized name is canonical: normalizing it again, trimming it
    or lower-casing it changes nothing, and a name, its trimmed form and
    its lower-cased form have the same normalization.  So the row of an
    uploader is found again under its stored normalized name. *)
Theorem normalizeName_canonical (name : string) :
  normalizeName (normalizeName name) = normalizeName name
  /\ JS.trim (normalizeName name) = normalizeName name
  /\ JS.toLowerCase (normalizeName name) = normalizeName name
  /\ normalizeName (JS.trim name) = normalizeName name
  /\ normalizeName (JS.toLowerCase name) = normalizeName name
  /\ forall now d u,
       NoDup (map u_normalized_name (uploaders d)) ->
       In u (uploaders d) ->
       u_normalized_name u = normalizeName name ->
       getOrCreateUploader now (u_normalized_name u) d = (Returned (refOf u), d).
Proof.
  assert (H2 : JS.trim (normalizeName name) = normalizeName name).
  { unfold normalizeName. rewrite trim_toLowerCase, trim_idem. reflexivity. }
  assert (H3 : JS.toLowerCase (normalizeName name) = normalizeName name).
  { unfold normalizeName. apply toLowerCase_idem. }
  assert (H1 : normalizeName (normalizeName name) = normalizeName name).
  { change (normalizeName (normalizeName name))
      with (JS.toLowerCase (JS.trim (normalizeName name))).
    rewrite H2. exact H3. }
  split; [exact H1|]. split; [exact H2|]. split; [exact H3|].
  split; [apply normalizeName_trim|]. split.
  - unfold normalizeName. rewrite trim_toLowerCase. apply toLowerCase_idem.
  - intros now d u Hnd Hin Hu.
    pose proof (getOrCreateUploader_cases now (u_normalized_name u) d) as Hc.
    rewrite Hu, H1, <- Hu, (selectUploader_unique d u Hnd Hin) in Hc. exact Hc.
Qed.

(** ** File filters *)

Lemma prefix_iff (a s : string) :
  String.prefix a s = true <-> exists r, s = a ++ r.
Proof.
  revert s. induction a as [|c a IH]; intros s.
  - split; [intros _; exists s; reflexivity | destruct s; reflexivity].
  - destruct s as [|x s]; simpl; [split; [discriminate | intros [r Hr]; discriminate]|].
    destruct (Ascii.ascii_dec c x) as [->|Hne].
    + rewrite IH. split; intros [r Hr]; exists r; [rewrite Hr; reflexivity|].
      injection Hr as Hr. exact Hr.
    + split; [discriminate|]. intros [r Hr]. injection Hr as Hc _. congruence.
Qed.

(** X12. The photo filter lets a file pass exactly when its declared type
    starts with [image/], the video filter exactly when it starts with
    [video/]; no declared type passes both filters, and a rejected file
    is reported with the message of the filter. *)
Theorem fileFilters_disjoint (mimetype : string) :
  (photoFileFilter mimetype = Returned true <-> exists r, mimetype = "image/" ++ r)
  /\ (videoFileFilter mimetype = Returned true <-> exists r, mimetype = "video/" ++ r)
  /\ ~ (photoFileFilter mimetype = Returned true /\ videoFileFilter mimetype = Returned true)
  /\ (photoFileFilter mimetype = Returned true
      \/ photoFileFilter mimetype = Thrown "Only image files are allowed.")
  /\ (videoFileFilter mimetype = Returned true
      \/ videoFileFilter mimetype = Thrown "Only video files are allowed.").
Proof.
  unfold photoFileFilter, videoFileFilter.
  pose proof (prefix_iff "image/" mimetype) as Hi.
  pose proof (prefix_iff "video/" mimetype) as Hv.
  destruct (String.prefix "image/" mimetype) eqn:Ei;
    destruct (String.prefix "video/" mimetype) eqn:Ev; simpl.
  - exfalso. destruct (proj1 Hi eq_refl) as [r Hr]. destruct (proj1 Hv eq_refl) as [r' Hr'].
    rewrite Hr in Hr'. discriminate Hr'.
  - repeat split; auto; try (intros _; apply Hi; reflexivity); try discriminate;
      try (intros H; apply Hv in H; discriminate).
    intros [_ H]. discriminate H.
  - repeat split; auto; try (intros _; apply Hv; reflexivity); try discriminate;
      try (intros H; apply Hi in H; discriminate).
    intros [H _]. discriminate H.
  - repeat split; auto; try discriminate;
      try (intros H; apply Hi in H; discriminate);
      try (intros H; apply Hv in H; discriminate).
    intros [H _]. discriminate H.
Qed.

(** ** The order of the queries *)

Lemma comesBefore_notAfter (a b : Media) : comesBefore a b = true -> notAfter a b.
Proof.
  unfold comesBefore, notAfter. intros H.
  apply orb_true_iff in H as [H | H].
  - left. apply N.ltb_lt, H.
  - apply andb_prop in H as [H1 H2]. apply N.eqb_eq in H1. apply N.ltb_lt in H2.
    right. split; [exact H1 | lia].
Qed.

Lemma not_comesBefore_notAfter (a b : Media) : comesBefore b a = false -> notAfter a b.
Proof.
  unfold comesBefore, notAfter. intros H.
  apply orb_false_iff in H as [H1 H2]. apply N.ltb_ge in H1.
  apply andb_false_iff in H2.
  destruct (N.eq_dec (m_uploaded_at a) (m_uploaded_at b)) as [He|Hne].
  - right. split; [exact He|]. destruct H2 as [H2 | H2].
    + apply N.eqb_neq in H2. congruence.
    + apply N.ltb_ge in H2. exact H2.
  - left. lia.
Qed.

Lemma notAfter_trans (a b c : Media) : notAfter a b -> notAfter b c -> notAfter a c.
Proof. unfold notAfter. intros [H1 | [H1 H1']] [H2 | [H2 H2']]; [left | left | left | right]; lia. Qed.

Lemma insertSorted_sorted (a : Media) (l : list Media) :
  Sorted notAfter l -> Sorted notAfter (insertSorted a l).
Proof.
  induction l as [|b l IH]; simpl; intros H; [repeat constructor|].
  inversion H as [|? ? Hl Hhd]; subst.
  destruct (comesBefore b a) eqn:E.
  - constructor; [apply IH, Hl|].
    destruct l as [|c l]; simpl.
    + constructor. apply comesBefore_notAfter, E.
    + destruct (comesBefore c a); constructor.
      * inversion Hhd; assumption.
      * apply comesBefore_notAfter, E.
  - constructor; [exact H|]. constructor. apply not_comesBefore_notAfter, E.
Qed.

(** X13. The query order: the rows a query returns are the rows of the
    table, each once, and every row is listed before the rows that are
    older, and before the rows of the same time with a smaller id. *)
Theorem newestFirst_order (rows : list Media) :
  Permutation (newestFirst rows) rows
  /\ StronglySorted notAfter (newestFirst rows)
  /\ List.length (newestFirst rows) = List.length rows.
Proof.
  split; [apply newestFirst_perm|]. split; [|apply newestFirst_length].
  apply Sorted_StronglySorted; [intros a b c; apply notAfter_trans|].
  induction rows as [|a rows IH]; simpl; [constructor|].
  apply insertSorted_sorted, IH.
Qed.

(** ** Delete-all and the disk *)

Lemma in_unlinkPaths (uploadDir : string) (items : list Media) (s : FileSystem) (p : string) :
  In p (files (fold_left (fun acc item => safeUnlink (pathJoin uploadDir (m_filename item)) acc)
                         items s))
  <-> In p (files s)
      /\ ~ In p (map (fun m => pathJoin uploadDir (m_filename m)) items).
Proof.
  revert s. induction items as [|m items IH]; intros s; simpl; [tauto|].
  rewrite IH. simpl. rewrite in_removePath. intuition congruence.
Qed.

Lemma unlinkPaths_dirs (uploadDir : string) (items : list Media) (s : FileSystem) :
  dirs (fold_left (fun acc item => safeUnlink (pathJoin uploadDir (m_filename item)) acc)
                  items s) = dirs s.
Proof.
  revert s. induction items as [|m items IH]; intros s; simpl; [reflexivity|].
  rewrite IH. reflexivity.
Qed.

(** X14. Delete-all removes from disk the files the records of the kind
    name, and only those: a path is on disk afterwards exactly when it was
    before and no deleted record names it.  The records of the other kind
    stay, and no directory is touched. *)
Theorem deleteAllRoute_files (uploadDir : string) (k : Kind) (st : State) :
  let '(reply, st') := deleteAllRoute uploadDir k st in
  reply = RedirectMessage (adminPage k) ("All " ++ noun k ++ "s deleted.")
  /\ (forall p, In p (files (fs st'))
                <-> In p (files (fs st))
                    /\ ~ In p (map (fun m => pathJoin uploadDir (m_filename m))
                                   (table k (db st))))
  /\ dirs (fs st') = dirs (fs st)
  /\ table k (db st') = []
  /\ table (otherKind k) (db st') = table (otherKind k) (db st).
Proof.
  unfold deleteAllRoute. simpl.
  split; [reflexivity|]. split; [intros p; apply in_unlinkPaths|].
  split; [apply unlinkPaths_dirs|].
  rewrite !cleanup_media. unfold deleteAllMedia.
  pose proof (setTable_same k [] (table_seq k (db st)) (db st)) as (E1 & _ & E3 & _).
  rewrite E1, E3. split; reflexivity.
Qed.

(** ** Edge cases of the upload routes *)

Lemma trimStart_blank (s : string) :
  JS.trimStart s = "" <-> allChars JS.isWhiteSpace s = true.
Proof.
  induction s as [|c s IH]; simpl; [tauto|].
  destruct (JS.isWhiteSpace c); simpl; [exact IH|]. split; discriminate.
Qed.

Lemma trim_blank (s : string) : JS.trim s = "" <-> allChars JS.isWhiteSpace s = true.
Proof.
  rewrite <- trimStart_blank. unfold JS.trim. split.
  - intros H. pose proof (trimEnd_head (JS.trimStart s) (trimStart_head s)) as Hh.
    rewrite H in Hh. exact Hh.
  - intros ->. reflexivity.
Qed.

(** X15. A display name that is missing or made of white space only is
    turned down before anything else: the route answers with the
    provide-your-name error, stores nothing and removes every file of the
    request, even when the batch is empty.  With a name and no file the
    route answers with the select-at-least-one error and changes
    nothing. *)
Theorem blank_name_rejected (limits : Limits) (now : N)
    (insertFault : Kind -> list Media -> UploadedFile -> option string)
    (k : Kind) (req : UploadRequest) (st : State) :
  (submittedName req = ""
   <-> match body_name req with
       | None => True
       | Some n => allChars JS.isWhiteSpace n = true
       end)
  /\ (submittedName req = "" ->
      uploadRoute limits now insertFault k req st
      = (RedirectError (uploadPage k) "Please provide your name.",
         mkState (db st) (unlinkEach (req_files req) (fs st))))
  /\ (submittedName req <> "" -> req_files req = [] ->
      uploadRoute limits now insertFault k req st
      = (RedirectError (uploadPage k) ("Please select at least one " ++ noun k ++ "."), st)).
Proof.
  split; [|split].
  - unfold submittedName. destruct (body_name req) as [n|]; [|split; reflexivity].
    rewrite trim_blank. destruct n; simpl; tauto.
  - intros H. unfold uploadRoute. fold (submittedName req). rewrite H. reflexivity.
  - intros Hn Hf. unfold uploadRoute. fold (submittedName req).
    apply String.eqb_neq in Hn. rewrite Hn, Hf. reflexivity.
Qed.

Lemma blank_name_rejected_witness :
  uploadRoute sampleLimits 5 sampleFault Photo
    (mkUploadRequest (Some "   ") [sampleFile "a"]) sampleState
  = (RedirectError "/?tab=photos" "Please provide your name.",
     mkState emptyDatabase (mkFileSystem ["/up/b"; "/up/c"; "/up/broken"] ["/up"])).
Proof.
  destruct (blank_name_rejected sampleLimits 5 sampleFault Photo
              (mkUploadRequest (Some "   ") [sampleFile "a"]) sampleState) as (Hb & H & _).
  rewrite H; [reflexivity|]. apply Hb. reflexivity.
Defined.

(** X16. A first upload under a new name that is rejected because the
    gallery is full still creates the uploader row: afterwards the table
    holds one more uploader, with the submitted name and no media record,
    so the store has an orphan until the next delete runs the cleanup. *)
Theorem rejected_first_upload_leaves_orphan (limits : Limits) (now : N)
    (insertFault : Kind -> list Media -> UploadedFile -> option string)
    (k : Kind) (req : UploadRequest) (st : State) :
  wellFormed (db st) ->
  submittedName req <> "" ->
  req_files req <> [] ->
  selectUploader (normalizeName (submittedName req)) (db st) = None ->
  globalLimit limits k <= countAll k (db st) ->
  let '(reply, st') := uploadRoute limits now insertFault k req st in
  reply = RedirectError (uploadPage k) (galleryFull k)
  /\ exists row,
       uploaders (db st') = (uploaders (db st) ++ [row])%list
       /\ u_name row = submittedName req
       /\ hasMedia (db st') (u_id row) = false
       /\ noOrphans (db st') = false
       /\ forall uploadDir,
            ~ In row (uploaders (db (snd (deleteAllRoute uploadDir k st')))).
Proof.
  intros Hwf Hname Hfiles Hsel Hfull.
  destruct (uploadRoute_valid limits now insertFault k req st Hname Hfiles)
    as (u & d1 & Hg & Ht & Hr).
  pose proof (getOrCreateUploader_cases now (submittedName req) (db st)) as Hc.
  rewrite Hsel in Hc. cbv zeta in Hc. rewrite Hc in Hg. injection Hg as <- <-.
  rewrite Hr. clear Hr. unfold decideAdmission.
  set (rg := Z.max 0 (globalLimit limits k - countAll k (db st))).
  assert (Hrg : rg = 0) by (subst rg; lia).
  rewrite Hrg.
  destruct (Z.leb_spec (Z.min (Z.max 0 (perPersonLimit limits k
     - countByUploader k (r_id
         (mkUploaderRef (uploaders_seq (db st) + 1) (JS.trim (submittedName req))
            (normalizeName (submittedName req)))) (db st))) 0) 0) as [_|Hlt]; [|lia].
  change (0 <=? 0) with true. cbv iota.
  split; [reflexivity|].
  set (row := mkUploader (uploaders_seq (db st) + 1) (JS.trim (submittedName req))
                (normalizeName (submittedName req)) now).
  assert (Hno : forall d', (forall k', table k' d' = table k' (db st)) ->
                           hasMedia d' (u_id row) = false).
  { intros d' Hd'. destruct (hasMedia d' (u_id row)) eqn:E; [|reflexivity].
    exfalso. apply hasMedia_iff in E as (k' & m & Hm & He). rewrite Hd' in Hm.
    destruct Hwf as ((_ & Hle) & _ & _ & Hfk & _).
    destruct (Hfk k' m Hm) as (u0 & Hu0 & Hid).
    rewrite Forall_forall in Hle. specialize (Hle (u_id u0) (in_map u_id _ _ Hu0)).
    rewrite Hid, He in Hle. simpl in Hle. lia. }
  exists row. simpl.
  split; [reflexivity|]. split; [apply submittedName_trimmed|].
  split; [apply Hno; intros []; reflexivity|]. split.
  - unfold noOrphans. simpl. rewrite forallb_app. simpl.
    assert (Hh := Hno (setUploaders (uploaders (db st) ++ [row])
                         (uploaders_seq (db st) + 1) (db st))
                      (fun k' => match k' with Photo => eq_refl | Video => eq_refl end)).
    change (u_id row) with (uploaders_seq (db st) + 1)%N in Hh.
    rewrite Hh. apply andb_false_r.
  - intros uploadDir Hin. unfold deleteAllRoute in Hin. simpl in Hin.
    unfold cleanupOrphanUploaders in Hin. simpl in Hin.
    apply filter_In in Hin as [_ Hin].
    apply hasMedia_iff in Hin as (k' & m & Hm & He).
    assert (Hm' : In m (table k' (db st))).
    { destruct k, k'; simpl in Hm; auto; destruct Hm. }
    destruct Hwf as ((_ & Hle) & _ & _ & Hfk & _).
    destruct (Hfk k' m Hm') as (u0 & Hu0 & Hid).
    rewrite Forall_forall in Hle. specialize (Hle (u_id u0) (in_map u_id _ _ Hu0)).
    rewrite Hid, He in Hle. simpl in Hle. lia.
Qed.

Lemma rejected_first_upload_leaves_orphan_witness :
  let full := mkState (mkDatabase [ann] 1 []  0
                         [mkMedia 1 1 "a" "a" "video/mp4" 1 1;
                          mkMedia 2 1 "b" "b" "video/mp4" 1 1;
                          mkMedia 3 1 "c" "c" "video/mp4" 1 1] 3)
                      (mkFileSystem ["/up/c"] []) in
  let '(reply, st') := uploadRoute sampleLimits 5 sampleFault Video
                         (mkUploadRequest (Some "Zoe") [sampleFile "c"]) full in
  reply = RedirectError "/?tab=videos" "Video upload limit reached: this gallery is full."
  /\ noOrphans (db st') = false.
Proof.
  intros full.
  pose proof (rejected_first_upload_leaves_orphan sampleLimits 5 sampleFault Video
                (mkUploadRequest (Some "Zoe") [sampleFile "c"]) full) as H.
  destruct (uploadRoute sampleLimits 5 sampleFault Video
              (mkUploadRequest (Some "Zoe") [sampleFile "c"]) full) as [reply st'].
  destruct H as (Hr & row & _ & _ & _ & Ho & _).
  - unfold wellFormed, keyed. simpl.
    split; [split; repeat constructor; simpl; try lia; intuition discriminate|].
    split; [intros []; simpl; split; repeat constructor; simpl; try lia;
            intuition discriminate|].
    split; [repeat constructor; simpl; intuition discriminate|].
    split.
    + intros [] m; simpl; intros H; [destruct H|].
      repeat (destruct H as [<- | H]; [exists ann; split; [simpl; auto | reflexivity]|]).
      destruct H.
    + intros u [<- | []]; simpl; repeat split; discriminate.
  - vm_compute. discriminate.
  - discriminate.
  - reflexivity.
  - vm_compute. discriminate.
  - split; [exact Hr | exact Ho].
Defined.

(** ** Numeric configuration *)

(** X17. A limit written in the environment as a decimal integer is the
    configured limit, as long as the integer is a safe one (up to
    2^53 - 1, beyond which [Number] rounds): with MAX_VIDEOS_PER_PERSON
    and MAX_TOTAL_VIDEOS set to the decimal texts of two such numbers, the
    video limits are these numbers (zero included, which is a non-empty
    text). *)
Theorem limitsOfEnv_decimal (env : Env) (perPerson total : N) :
  (perPerson <= JS.MAX_SAFE_INTEGER)%N ->
  (total <= JS.MAX_SAFE_INTEGER)%N ->
  env "MAX_VIDEOS_PER_PERSON" = Some (JS.stringOfN perPerson) ->
  env "MAX_TOTAL_VIDEOS" = Some (JS.stringOfN total) ->
  MAX_VIDEOS_PER_PERSON env = JS.ofZ (Z.of_N perPerson)
  /\ MAX_TOTAL_VIDEOS env = JS.ofZ (Z.of_N total)
  /\ limitsOfEnv env = Some (mkLimits (Z.of_N perPerson) (Z.of_N total)).
Proof.
  intros Hsp Hst Hp Ht.
  assert (H : forall n d, (n <= JS.MAX_SAFE_INTEGER)%N ->
                          envNumber (Some (JS.stringOfN n)) d = JS.ofZ (Z.of_N n)).
  { intros n d Hn. unfold envNumber. destruct (stringOfN_nonempty n) as (c & r & E).
    rewrite E, <- E. apply numberOfString_stringOfN, Hn. }
  unfold limitsOfEnv, MAX_VIDEOS_PER_PERSON, MAX_TOTAL_VIDEOS.
  rewrite Hp, Ht, (H _ _ Hsp), (H _ _ Hst). repeat split.
Qed.

Lemma limitsOfEnv_decimal_witness :
  limitsOfEnv (fun v => if String.eqb v "MAX_VIDEOS_PER_PERSON" then Some "2"
                        else if String.eqb v "MAX_TOTAL_VIDEOS" then Some "3" else None)
  = Some sampleLimits.
Proof.
  apply (limitsOfEnv_decimal
           (fun v => if String.eqb v "MAX_VIDEOS_PER_PERSON" then Some "2"
                     else if String.eqb v "MAX_TOTAL_VIDEOS" then Some "3" else None)
           2 3); try reflexivity; vm_compute; discriminate.
Defined.

(** ** The content of the archive *)

Lemma existsSync_writeFile (p q : string) (s : FileSystem) :
  p <> q -> existsSync p (writeFile q s) = existsSync p s.
Proof.
  intros Hne. unfold existsSync, writeFile. simpl.
  apply String.eqb_neq in Hne. rewrite Hne. simpl. f_equal.
  unfold removePath. induction (files s) as [|x l IH]; simpl; [reflexivity|].
  destruct (String.eqb_spec x q) as [->|Hx]; simpl; [rewrite Hne; exact IH|].
  rewrite IH. reflexivity.
Qed.

Lemma not_under_neq (dir p name : string) :
  isUnder dir p = false -> p <> pathJoin dir name.
Proof. intros H ->. rewrite isUnder_pathJoin in H. discriminate. Qed.

Lemma copyPass_exact (uploadDir : string) (k : Kind) (env : ExportEnv)
    (items : list Media) (c : nat) (s s1 : FileSystem) (o : Outcome nat) :
  (forall m, In m items -> isUnder (tempDir env) (pathJoin uploadDir (m_filename m)) = false) ->
  (forall a b, copyResult env a b = IoDone) ->
  copyPass uploadDir k env items c s = (o, s1) ->
  o = Returned (c + List.length
                      (filter (fun m => existsSync (pathJoin uploadDir (m_filename m)) s)
                              items))%nat
  /\ forall p, In p (files s1)
               <-> In p (files s)
                   \/ exists m, In m items
                                /\ existsSync (pathJoin uploadDir (m_filename m)) s = true
                                /\ p = pathJoin (tempDir env) (stagedName k m).
Proof.
  intros Hout Hok. revert c s. induction items as [|m items IH]; intros c s; simpl.
  - intros [= <- <-]. split; [f_equal; lia|].
    intros p. split; [auto | intros [H | (m & [] & _)]; exact H].
  - assert (Hrest : forall m', In m' items ->
              isUnder (tempDir env) (pathJoin uploadDir (m_filename m')) = false)
      by (intros m' Hm'; apply Hout; right; exact Hm').
    destruct (existsSync (pathJoin uploadDir (m_filename m)) s) eqn:Ex; simpl.
    + rewrite Hok. simpl. intros Hc.
      destruct (IH Hrest _ _ Hc) as [Ho Hf].
      assert (Hsame : forall m', In m' items ->
                existsSync (pathJoin uploadDir (m_filename m'))
                  (writeFile (pathJoin (tempDir env) (stagedName k m)) s)
                = existsSync (pathJoin uploadDir (m_filename m')) s).
      { intros m' Hm'. apply existsSync_writeFile, not_under_neq, Hrest, Hm'. }
      split.
      * rewrite Ho. f_equal. rewrite (filter_ext_in _ _ _ Hsame). lia.
      * intros p. rewrite Hf, in_writeFile. split.
        -- intros [[-> | Hp] | (m' & Hm' & He & ->)].
           ++ right. exists m. auto.
           ++ left. exact Hp.
           ++ right. exists m'. rewrite (Hsame m' Hm') in He. auto.
        -- intros [Hp | (m' & [<- | Hm'] & He & ->)].
           ++ left. right. exact Hp.
           ++ left. left. reflexivity.
           ++ right. exists m'. rewrite (Hsame m' Hm'). auto.
    + intros Hc. destruct (IH Hrest _ _ Hc) as [Ho Hf]. split; [exact Ho|].
      intros p. rewrite Hf. split.
      * intros [Hp | (m' & Hm' & He & ->)]; [left; exact Hp | right; exists m'; auto].
      * intros [Hp | (m' & [<- | Hm'] & He & ->)];
          [left; exact Hp | congruence | right; exists m'; auto].
Qed.

(** X18. What a successful export puts in the archive: with a fresh scratch
    directory that does not hold the upload directory, copies and
    compression that succeed, and at least one record whose file is on
    disk, the route sends the archive, and its entries are the staged
    copies of the records whose file is on disk, no other file and none
    missing. *)
Theorem archive_holds_present_files (uploadDir : string) (k : Kind) (env : ExportEnv)
    (st : State) :
  (forall p, In p (files (fs st)) -> isUnder (tempDir env) p = false) ->
  (forall name, isUnder (tempDir env) (pathJoin uploadDir name) = false
                /\ pathJoin uploadDir name <> tempDir env) ->
  (forall a b, copyResult env a b = IoDone) ->
  zipResult env = IoDone ->
  (exists m, In m (table k (db st))
             /\ existsSync (pathJoin uploadDir (m_filename m)) (fs st) = true) ->
  exists entries,
    fst (downloadRoute uploadDir k env st)
    = Download (archivePath env)
        ("dan-abi-wedding-" ++ noun k ++ "s-" ++ stamp env ++ ".zip") entries
    /\ forall p, In p entries
                 <-> exists m, In m (table k (db st))
                               /\ existsSync (pathJoin uploadDir (m_filename m)) (fs st) = true
                               /\ p = pathJoin (tempDir env) (stagedName k m).
Proof.
  intros Hfresh Hout Hok Hzip (m0 & Hm0 & Hex0).
  set (s0 := mkdtempSync (tempDir env) (fs st)).
  assert (Hs0 : forall m, existsSync (pathJoin uploadDir (m_filename m)) s0
                          = existsSync (pathJoin uploadDir (m_filename m)) (fs st)).
  { intros m. unfold existsSync, s0. simpl.
    destruct (String.eqb_spec (pathJoin uploadDir (m_filename m)) (tempDir env)) as [E|_];
      [exfalso; apply (proj2 (Hout (m_filename m))), E | reflexivity]. }
  unfold downloadRoute. rewrite newestFirst_length.
  destruct (table k (db st)) as [|x l] eqn:Et; [destruct Hm0|]. rewrite <- Et in *.
  assert (Hlen : (List.length (table k (db st)) =? 0)%nat = false) by (rewrite Et; reflexivity).
  rewrite Hlen. fold s0. unfold exportTry.
  destruct (copyPass uploadDir k env (newestFirst (table k (db st))) 0 s0) as [o s1] eqn:Ec.
  destruct (copyPass_exact uploadDir k env _ _ _ _ _
              (fun m _ => proj1 (Hout (m_filename m))) Hok Ec) as [Ho Hf].
  subst o. simpl Nat.add.
  destruct (filter _ (newestFirst (table k (db st)))) as [|y r] eqn:Ef.
  { exfalso. assert (Hin : In m0 (filter
        (fun m => existsSync (pathJoin uploadDir (m_filename m)) s0)
        (newestFirst (table k (db st))))).
    { apply filter_In. split; [apply in_newestFirst, Hm0 | rewrite Hs0; exact Hex0]. }
    rewrite Ef in Hin. destruct Hin. }
  simpl List.length. cbv iota beta. simpl Nat.eqb. cbv iota.
  rewrite Hzip. simpl.
  eexists. split; [reflexivity|].
  intros p. unfold listDir. rewrite filter_In, Hf. split.
  - intros [[Hp | (m & Hm & He & ->)] Hu].
    + exfalso. unfold s0 in Hp. simpl in Hp. rewrite (Hfresh p Hp) in Hu. discriminate.
    + exists m. rewrite Hs0 in He. split; [apply in_newestFirst, Hm | auto].
  - intros (m & Hm & He & ->). split; [|apply isUnder_pathJoin].
    right. exists m. rewrite Hs0. split; [apply in_newestFirst, Hm | auto].
Qed.

Lemma archive_holds_present_files_witness :
  exists entries,
    fst (downloadRoute "/up" Photo (sampleExportEnv IoDone) sampleGallery)
    = Download "/tmp/wedding-1.zip" "dan-abi-wedding-photos-2026-01-01.zip" entries
    /\ In "/tmp/wedding-X/0002-ben-two.jpg" entries.
Proof.
  destruct (archive_holds_present_files "/up" Photo (sampleExportEnv IoDone) sampleGallery)
    as (entries & He & Hin).
  - simpl. intros p [<- | [<- | [<- | []]]]; reflexivity.
  - intros name. split; [reflexivity|]. unfold pathJoin. simpl. discriminate.
  - reflexivity.
  - reflexivity.
  - exists (mkMedia 2 2 "22-2.jpg" "ben/two.jpg" "image/jpeg" 10 30).
    split; [simpl; auto | reflexivity].
  - exists entries. split; [exact He|]. apply Hin.
    exists (mkMedia 2 2 "22-2.jpg" "ben/two.jpg" "image/jpeg" 10 30).
    split; [simpl; auto|]. split; reflexivity.
Defined.

(** ** Records and their files *)

Lemma Forall2_in_right {A B} (R : A -> B -> Prop) (l : list A) (l' : list B) (b : B) :
  Forall2 R l l' -> In b l' -> exists a, In a l /\ R a b.
Proof.
  induction 1 as [|x y l l' Hxy _ IH]; simpl; [tauto|].
  intros [<- | Hin]; [eauto|]. destruct (IH Hin) as (a & Ha & Hr). eauto.
Qed.

Lemma NoDup_app_disjoint {A} (l1 l2 : list A) (a : A) :
  NoDup (l1 ++ l2) -> In a l1 -> ~ In a l2.
Proof.
  induction l1 as [|x l1 IH]; simpl; [tauto|].
  intros Hnd [-> | Hin] H2.
  - inversion Hnd as [|? ? Hx _]. apply Hx, in_or_app. auto.
  - inversion Hnd as [|? ? _ Hrest]. exact (IH Hrest Hin H2).
Qed.

Lemma NoDup_firstn_skipn_paths (n : nat) (l : list UploadedFile) (f : UploadedFile) :
  NoDup (map f_path l) -> In f (firstn n l) -> ~ In (f_path f) (map f_path (skipn n l)).
Proof.
  intros Hnd Hf. rewrite <- (firstn_skipn n l), map_app in Hnd.
  apply (NoDup_app_disjoint _ _ _ Hnd), in_map, Hf.
Qed.

(** X19. An upload keeps records and files together: when every record has
    its file in the upload directory, the files of the request were
    stored there by the upload middleware under pairwise different paths,
    and none of these paths is the file of an existing record, then after
    the route every record, old or new, still has its file on disk. *)
Theorem uploadRoute_records_backed (limits : Limits) (uploadDir : string) (now : N)
    (insertFault : Kind -> list Media -> UploadedFile -> option string)
    (k : Kind) (req : UploadRequest) (st : State) :
  backed uploadDir st ->
  (forall f, In f (req_files req) ->
             f_path f = pathJoin uploadDir (f_filename f)
             /\ In (f_path f) (files (fs st))) ->
  NoDup (map f_path (req_files req)) ->
  (forall k' m f, In m (table k' (db st)) -> In f (req_files req) ->
                  pathJoin uploadDir (m_filename m) <> f_path f) ->
  backed uploadDir (snd (uploadRoute limits now insertFault k req st)).
Proof.
  unfold backed. intros Hback Hstored Hnd Hfresh.
  assert (Hold : forall l1 l2 k' m,
            incl l1 (req_files req) -> incl l2 (req_files req) ->
            In m (table k' (db st)) ->
            In (pathJoin uploadDir (m_filename m))
               (files (unlinkEach l1 (unlinkEach l2 (fs st))))).
  { intros l1 l2 k' m H1 H2 Hm. rewrite !in_unlinkEach.
    split; [split; [apply (Hback k' m Hm)|]|]; intros Hin;
      apply in_map_iff in Hin as (f & Hf & Hin);
      apply (Hfresh k' m f Hm); auto. }
  destruct (String.eqb_spec (submittedName req) "") as [Hname|Hname].
  { unfold uploadRoute. fold (submittedName req). rewrite Hname. simpl.
    intros k' m Hm. apply (Hold (req_files req) [] k' m); auto using incl_refl.
    intros f []. }
  destruct (req_files req) as [|f0 l0] eqn:Efiles.
  { unfold uploadRoute. fold (submittedName req).
    apply String.eqb_neq in Hname. rewrite Hname, Efiles. simpl. exact Hback. }
  rewrite <- Efiles in *.
  assert (Hfiles : req_files req <> []) by (rewrite Efiles; discriminate).
  destruct (uploadRoute_valid limits now insertFault k req st Hname Hfiles)
    as (u & d1 & Hg & Ht & Hr).
  rewrite Hr. clear Hr.
  destruct (decideAdmission limits k _ _ (req_files req)) as [reason|acc rej] eqn:Ea.
  { simpl. intros k' m Hm. rewrite Ht in Hm.
    apply (Hold (req_files req) [] k' m); auto using incl_refl. intros f []. }
  apply admission_accept_inv in Ea as (n & Hacc & Hrej).
  assert (Hincl : incl rej (req_files req)).
  { intros f Hf. rewrite <- (firstn_skipn n (req_files req)).
    apply in_or_app. right. rewrite <- Hrej. exact Hf. }
  destruct (insertEach now insertFault k (r_id u) acc d1) as [[[]|e] d2] eqn:Ei; simpl.
  - apply insertEach_returned in Ei as (_ & _ & Ho & rows & Hrows & Hf).
    intros k' m Hm.
    assert (Hsame : k' = k \/ k' = otherKind k) by (destruct k, k'; auto).
    destruct Hsame as [-> | ->].
    + rewrite Hrows, Ht in Hm. apply in_app_or in Hm as [Hm | Hm].
      * apply (Hold [] rej k m); auto. intros f [].
      * destruct (Forall2_in_right _ _ _ _ Hf Hm) as (f & Hfa & (_ & Hname' & _)).
        rewrite Hacc in Hfa.
        assert (Hfin : In f (req_files req)).
        { rewrite <- (firstn_skipn n (req_files req)). apply in_or_app. left. exact Hfa. }
        destruct (Hstored f Hfin) as [Hp Hdisk].
        rewrite Hname', <- Hp. apply in_unlinkEach. split; [exact Hdisk|].
        rewrite Hrej. apply NoDup_firstn_skipn_paths; assumption.
    + rewrite Ho, Ht in Hm. apply (Hold [] rej (otherKind k) m); auto. intros f [].
  - intros k' m Hm. rewrite Ht in Hm.
    apply (Hold (req_files req) rej k' m); auto using incl_refl.
Qed.

Lemma uploadRoute_records_backed_witness :
  backed "/up"
    (snd (uploadRoute sampleLimits 5 sampleFault Video
            (mkUploadRequest (Some "Vera") [sampleFile "a"; sampleFile "b"])
            sampleState)).
Proof.
  apply (uploadRoute_records_backed sampleLimits "/up" 5 sampleFault Video
           (mkUploadRequest (Some "Vera") [sampleFile "a"; sampleFile "b"]) sampleState).
  - intros [] m [].
  - intros f [<- | [<- | []]]; split; simpl; auto.
  - simpl. repeat constructor; simpl; intuition discriminate.
  - intros [] m f [].
Defined.

Lemma append_inj_l (a b c : string) : a ++ b = a ++ c -> b = c.
Proof. induction a as [|x a IH]; simpl; [auto|]. intros [= H]. auto. Qed.

Lemma pathJoin_inj (dir a b : string) : pathJoin dir a = pathJoin dir b -> a = b.
Proof. unfold pathJoin. intros H. apply append_inj_l in H. apply (append_inj_l "/"), H. Qed.

Lemma otherKind_neq (k : Kind) : otherKind k <> k.
Proof. destruct k; discriminate. Qed.

(** X20. Deleting keeps records and files together: when every record has
    its file in the upload directory and no two records share a stored
    file name, then after a delete-one (whatever the id parameter) and
    after a delete-all every record that is left still has its file on
    disk. *)
Theorem deleteRoutes_records_backed (uploadDir : string) (k : Kind) (idParam : string)
    (st : State) :
  backed uploadDir st -> distinctFiles (db st) ->
  backed uploadDir (snd (deleteRoute uploadDir k idParam st))
  /\ backed uploadDir (snd (deleteAllRoute uploadDir k st)).
Proof.
  intros Hback Hdis. split.
  - unfold deleteRoute.
    destruct (JS.numberOfString idParam) as [|b|q] eqn:En; try exact Hback;
      (destruct (rowIdOf _) as [n|]; [|exact Hback]);
      (destruct (selectMedia k n (db st)) as [item|] eqn:Es; [|exact Hback]);
      unfold selectMedia in Es; apply find_some in Es as [Hitem Hid];
      apply N.eqb_eq in Hid; simpl; intros k' m Hm; simpl in *;
      rewrite cleanup_media in Hm; unfold deleteMedia in Hm;
      pose proof (setTable_same k (filter (fun m => negb (N.eqb (m_id m) n)) (table k (db st)))
                    (table_seq k (db st)) (db st)) as (E1 & _ & E3 & _);
      apply in_removePath;
      (assert (Hk : k' = k \/ k' = otherKind k) by (destruct k, k'; auto));
      (destruct Hk as [-> | ->];
       [ rewrite E1 in Hm; apply filter_In in Hm as [Hm Hne];
         split; [exact (Hback k m Hm)|]; intros Heq; apply pathJoin_inj in Heq;
         destruct (Hdis k m k item Hm Hitem Heq) as [_ Hsame];
         rewrite Hsame, Hid, N.eqb_refl in Hne; discriminate
       | rewrite E3 in Hm;
         split; [exact (Hback _ m Hm)|]; intros Heq; apply pathJoin_inj in Heq;
         destruct (Hdis _ m k item Hm Hitem Heq) as [Hk _];
         exact (otherKind_neq k Hk) ]).
  - unfold deleteAllRoute. simpl. intros k' m Hm. simpl in *.
    rewrite cleanup_media in Hm. unfold deleteAllMedia in Hm.
    pose proof (setTable_same k [] (table_seq k (db st)) (db st)) as (E1 & _ & E3 & _).
    assert (Hk : k' = k \/ k' = otherKind k) by (destruct k, k'; auto).
    destruct Hk as [-> | ->]; [rewrite E1 in Hm; destruct Hm|].
    rewrite E3 in Hm. apply in_unlinkPaths. split; [exact (Hback _ m Hm)|].
    intros Hin. apply in_map_iff in Hin as (m' & Heq & Hm').
    apply pathJoin_inj in Heq.
    destruct (Hdis _ m' _ m Hm' Hm Heq) as [Hk _]. exact (otherKind_neq k (eq_sym Hk)).
Qed.

Lemma deleteRoutes_records_backed_witness :
  backed "/up" (snd (deleteRoute "/up" Photo "2"
                       (mkState (db sampleGallery)
                          (mkFileSystem ["/up/11-1.jpg"; "/up/22-2.jpg"; "/up/33-3.jpg";
                                         "/up/44-4.mp4"] ["/up"]))))
  /\ backed "/up" (snd (deleteAllRoute "/up" Photo
                       (mkState (db sampleGallery)
                          (mkFileSystem ["/up/11-1.jpg"; "/up/22-2.jpg"; "/up/33-3.jpg";
                                         "/up/44-4.mp4"] ["/up"])))).
Proof.
  apply (deleteRoutes_records_backed "/up" Photo "2"
           (mkState (db sampleGallery)
              (mkFileSystem ["/up/11-1.jpg"; "/up/22-2.jpg"; "/up/33-3.jpg";
                             "/up/44-4.mp4"] ["/up"]))).
  - intros [] m Hm; simpl in Hm;
      repeat (destruct Hm as [<- | Hm]; [vm_compute; tauto|]); destruct Hm.
  - intros [] m1 [] m2 H1 H2; simpl in H1, H2;
      repeat (destruct H1 as [<- | H1]; [|]); try destruct H1;
      repeat (destruct H2 as [<- | H2]; [|]); try destruct H2;
      simpl; intros He; try discriminate He; split; reflexivity.
Defined.
